(** * SceneManager: texture registry, material catalogue, transform composer
      and shader-uniform binder

    A shallow embedding of [Source/SceneManager.cpp].  The C++ class is a
    record, its member functions are state transformers over that record and
    over the OpenGL context, and the places where the C++ has no defined
    behaviour (a write past the end of [m_textureIDs], a call through a null
    [m_pShaderManager]) are faults of an error monad.

    Conventions.
    - In the model of the scene manager [float] is a real number ([R]): no
      rounding, no NaN, no infinities.  What [SetTransformations] computes
      in binary32 arithmetic, with rounding and with the values that are
      not numbers, is modelled in the module [Binary32].  [int] is [Z];
      every [int] of the modelled code stays far inside the 32-bit range.
      [GLuint] is [N].
    - GLM ([glm::scale], [glm::rotate], [glm::translate], [glm::radians],
      [operator*]), OpenGL, stb_image and the [ShaderManager] class are
      libraries used by the source; they are modelled by what the calls made
      here do.
    - Console output ([std::cout]) is not modelled. *)

From Stdlib Require Import Reals Lra SpecFloat.
From stdpp Require Import gmap strings list fin_maps.

Close Scope R_scope.
Local Open Scope Z_scope.

(** ** Faults and the state-and-error monad *)

Inductive fault : Type :=
| OutOfBounds      (* index outside the 16 cells of m_textureIDs *)
| NullDereference  (* call through a null m_pShaderManager *)
| OutOfFuel.       (* a loop of the model ran out of its iteration budget *)

Inductive result (A : Type) : Type :=
| Ok (a : A)
| Fault (f : fault).
Arguments Ok {A} a.
Arguments Fault {A} f.

Definition M (S A : Type) : Type := S → result (A * S).

#[global] Instance M_ret {S} : MRet (M S) := fun A a s => Ok (a, s).

#[global] Instance M_bind {S} : MBind (M S) := fun A B k m s =>
  match m s with
  | Ok (a, s') => k a s'
  | Fault f => Fault f
  end.

Definition raise {S A} (f : fault) : M S A := fun _ => Fault f.
Definition get {S} : M S S := fun s => Ok (s, s).
Definition modify {S} (f : S → S) : M S unit := fun s => Ok (tt, f s).

(** ** stb_image *)

(** What [stbi_load] hands back for a readable file: the dimensions, the
    number of 8-bit channels per pixel and the pixel bytes. *)
Record Image : Type := mkImage {
  width : Z;
  height : Z;
  colorChannels : Z;
  pixels : list Byte.byte
}.

(** ** OpenGL texture state *)

Inductive GLformat : Type := GL_RGB8 | GL_RGBA8.
Inductive GLwrap : Type := GL_REPEAT.
Inductive GLfilter : Type := GL_LINEAR.

Record TexImage : Type := mkTexImage {
  tex_format : GLformat;
  tex_width : Z;
  tex_height : Z;
  tex_data : list Byte.byte
}.

(** A texture object.  [None] in a parameter field stands for the GL default. *)
Record TexObject : Type := mkTexObject {
  wrap_s : option GLwrap;
  wrap_t : option GLwrap;
  min_filter : option GLfilter;
  mag_filter : option GLfilter;
  tex_level0 : option TexImage;
  tex_mipmaps : bool
}.

Definition default_TexObject : TexObject :=
  mkTexObject None None None None None false.

(** The part of the GL context the scene manager touches: the texture names
    in use (generated and not deleted), the texture objects, the active
    texture unit and the 2D texture bound on every unit (absent = 0). *)
Record GLState : Type := mkGLState {
  gl_names : gset N;
  gl_objects : gmap N TexObject;
  gl_active : N;
  gl_bound : gmap N N
}.

Definition gl_initial : GLState := mkGLState ∅ ∅ 0%N ∅.

(** [glGenTextures(1, &id)]: a name that is not in use and is not 0; the
    name is marked as in use. *)
Definition glGenTextures (g : GLState) : N * GLState :=
  let id := fresh ({[0%N]} ∪ gl_names g) in
  (id, mkGLState ({[id]} ∪ gl_names g) (gl_objects g) (gl_active g) (gl_bound g)).

(** [glBindTexture(GL_TEXTURE_2D, id)] on the active unit. *)
Definition glBindTexture (id : N) (g : GLState) : GLState :=
  mkGLState (gl_names g) (gl_objects g) (gl_active g)
            (<[gl_active g := id]> (gl_bound g)).

(** [glActiveTexture(GL_TEXTURE0 + i)]. *)
Definition glActiveTexture (i : N) (g : GLState) : GLState :=
  mkGLState (gl_names g) (gl_objects g) i (gl_bound g).

(** The 2D texture bound on the active unit. *)
Definition gl_current (g : GLState) : N :=
  default 0%N (gl_bound g !! gl_active g).

Definition gl_object (g : GLState) (id : N) : TexObject :=
  default default_TexObject (gl_objects g !! id).

(** Update of the texture object bound on the active unit. *)
Definition gl_update_current (f : TexObject → TexObject) (g : GLState) : GLState :=
  let id := gl_current g in
  mkGLState (gl_names g) (<[id := f (gl_object g id)]> (gl_objects g))
            (gl_active g) (gl_bound g).

Definition set_wrap_s (v : GLwrap) (o : TexObject) : TexObject :=
  mkTexObject (Some v) (wrap_t o) (min_filter o) (mag_filter o) (tex_level0 o) (tex_mipmaps o).
Definition set_wrap_t (v : GLwrap) (o : TexObject) : TexObject :=
  mkTexObject (wrap_s o) (Some v) (min_filter o) (mag_filter o) (tex_level0 o) (tex_mipmaps o).
Definition set_min_filter (v : GLfilter) (o : TexObject) : TexObject :=
  mkTexObject (wrap_s o) (wrap_t o) (Some v) (mag_filter o) (tex_level0 o) (tex_mipmaps o).
Definition set_mag_filter (v : GLfilter) (o : TexObject) : TexObject :=
  mkTexObject (wrap_s o) (wrap_t o) (min_filter o) (Some v) (tex_level0 o) (tex_mipmaps o).
Definition set_level0 (i : TexImage) (o : TexObject) : TexObject :=
  mkTexObject (wrap_s o) (wrap_t o) (min_filter o) (mag_filter o) (Some i) (tex_mipmaps o).
Definition set_mipmaps (o : TexObject) : TexObject :=
  mkTexObject (wrap_s o) (wrap_t o) (min_filter o) (mag_filter o) (tex_level0 o) true.

Definition glTexImage2D (fmt : GLformat) (img : Image) : GLState → GLState :=
  gl_update_current
    (set_level0 (mkTexImage fmt (width img) (height img) (pixels img))).

Definition glGenerateMipmap : GLState → GLState :=
  gl_update_current set_mipmaps.

(** ** The shader-parameter sink *)

Record vec2 : Type := mkVec2 { v2x : R; v2y : R }.
Record vec3 : Type := mkVec3 { v3x : R; v3y : R; v3z : R }.
Record vec4 : Type := mkVec4 { v4x : R; v4y : R; v4z : R; v4w : R }.

(** [glm::mat4]: four columns, [m[i]] is column [i]. *)
Record mat4 : Type := mkMat4 { col0 : vec4; col1 : vec4; col2 : vec4; col3 : vec4 }.

Inductive Uniform : Type :=
| UInt (i : Z)
| UBool (b : bool)
| UFloat (f : R)
| USampler2D (slot : Z)
| UVec2 (v : vec2)
| UVec3 (v : vec3)
| UVec4 (v : vec4)
| UMat4 (m : mat4).

(** The [ShaderManager] is seen through its setters only: it is the store of
    the last value written to every named uniform. *)
Abbreviation ShaderManager := (gmap string Uniform).

Definition setIntValue (name : string) (v : Z) (sh : ShaderManager) : ShaderManager :=
  <[name := UInt v]> sh.
Definition setFloatValue (name : string) (v : R) (sh : ShaderManager) : ShaderManager :=
  <[name := UFloat v]> sh.
Definition setSampler2DValue (name : string) (v : Z) (sh : ShaderManager) : ShaderManager :=
  <[name := USampler2D v]> sh.
Definition setVec2Value (name : string) (v : vec2) (sh : ShaderManager) : ShaderManager :=
  <[name := UVec2 v]> sh.
Definition setVec3Value (name : string) (v : vec3) (sh : ShaderManager) : ShaderManager :=
  <[name := UVec3 v]> sh.
Definition setVec4Value (name : string) (v : vec4) (sh : ShaderManager) : ShaderManager :=
  <[name := UVec4 v]> sh.
Definition setMat4Value (name : string) (v : mat4) (sh : ShaderManager) : ShaderManager :=
  <[name := UMat4 v]> sh.

Definition g_ModelName : string := "model".
Definition g_ColorValueName : string := "objectColor".
Definition g_TextureValueName : string := "objectTexture".
Definition g_UseTextureName : string := "bUseTexture".

(** The conversion of a C++ [bool] passed where an [int] is expected. *)
Definition int_of_bool (b : bool) : Z := if b then 1 else 0.

(** ** The scene manager *)

Record TEXTURE_INFO : Type := mkTEXTURE_INFO {
  tag : string;
  ID : N
}.

Record OBJECT_MATERIAL : Type := mkOBJECT_MATERIAL {
  diffuseColor : vec3;
  specularColor : vec3;
  shininess : R;
  mtag : string   (* the member is called tag in the source *)
}.

(** The number of cells of the array [m_textureIDs].  The declaration is in
    SceneManager.h; [BindGLTextures] documents the figure: there are up to 16
    slots. *)
Definition MAX_TEXTURES : Z := 16.

Record SceneManager : Type := mkSceneManager {
  m_pShaderManager : option ShaderManager;   (* None is the null pointer *)
  m_loadedTextures : Z;
  m_textureIDs : list TEXTURE_INFO;          (* the MAX_TEXTURES cells *)
  m_objectMaterials : list OBJECT_MATERIAL
}.

(** The state the member functions run in: the GL context and [*this]. *)
Record World : Type := mkWorld {
  gl : GLState;
  scene : SceneManager
}.

Definition set_gl (g : GLState) (w : World) : World := mkWorld g (scene w).

Definition set_shader (sh : option ShaderManager) (s : SceneManager) : SceneManager :=
  mkSceneManager sh (m_loadedTextures s) (m_textureIDs s) (m_objectMaterials s).
Definition set_loadedTextures (n : Z) (s : SceneManager) : SceneManager :=
  mkSceneManager (m_pShaderManager s) n (m_textureIDs s) (m_objectMaterials s).
Definition set_textureIDs (a : list TEXTURE_INFO) (s : SceneManager) : SceneManager :=
  mkSceneManager (m_pShaderManager s) (m_loadedTextures s) a (m_objectMaterials s).
Definition set_objectMaterials (ms : list OBJECT_MATERIAL) (s : SceneManager) : SceneManager :=
  mkSceneManager (m_pShaderManager s) (m_loadedTextures s) (m_textureIDs s) ms.

Definition on_scene (f : SceneManager → SceneManager) : M World unit :=
  modify (fun w => mkWorld (gl w) (f (scene w))).

(** A GL call without a result. *)
Definition gl_call (f : GLState → GLState) : M World unit :=
  modify (fun w => set_gl (f (gl w)) w).

Definition gl_gen : M World N := fun w =>
  let '(id, g) := glGenTextures (gl w) in Ok (id, set_gl g w).

(** *** Access to the array [m_textureIDs]

    [m_textureIDs[i]] with [i] outside [0 .. MAX_TEXTURES-1] is undefined in
    C++; the model faults. *)
Definition in_bounds (i : Z) : bool := (0 <=? i) && (i <? MAX_TEXTURES).

Definition read_texture (s : SceneManager) (i : Z) : result TEXTURE_INFO :=
  if in_bounds i then
    match m_textureIDs s !! Z.to_nat i with
    | Some e => Ok e
    | None => Fault OutOfBounds
    end
  else Fault OutOfBounds.

Definition write_texture (i : Z) (f : TEXTURE_INFO → TEXTURE_INFO) : M World unit :=
  fun w =>
    match read_texture (scene w) i with
    | Ok e => Ok (tt, mkWorld (gl w)
                        (set_textureIDs (<[Z.to_nat i := f e]> (m_textureIDs (scene w)))
                                        (scene w)))
    | Fault x => Fault x
    end.

Definition set_ID (id : N) (e : TEXTURE_INFO) : TEXTURE_INFO := mkTEXTURE_INFO (tag e) id.
Definition set_tag (t : string) (e : TEXTURE_INFO) : TEXTURE_INFO := mkTEXTURE_INFO t (ID e).

(** A read-only member function run inside the monad. *)
Definition reading {A} (f : SceneManager → result A) : M World A :=
  fun w => match f (scene w) with
           | Ok a => Ok (a, w)
           | Fault x => Fault x
           end.

(** ** Texture registry *)

Section TextureRegistry.

(** The file system seen through [stbi_load(filename, &width, &height,
    &colorChannels, 0)] with vertical flipping switched on: [None] is the
    null pointer returned for a file that cannot be read or parsed. *)
Variable stbi_load : string → option Image.

(** Lines 105-117: what follows the upload of the pixel data. *)
Definition register_texture (textureID : N) (tag : string) : M World bool :=
  gl_call glGenerateMipmap;;
  (* stbi_image_free(image) has no effect on the modelled state *)
  gl_call (glBindTexture 0%N);;
  w ← get;
  write_texture (m_loadedTextures (scene w)) (set_ID textureID);;
  write_texture (m_loadedTextures (scene w)) (set_tag tag);;
  on_scene (fun s => set_loadedTextures (m_loadedTextures s + 1) s);;
  mret true.

Definition CreateGLTexture (filename : string) (tag : string) : M World bool :=
  match stbi_load filename with
  | Some image =>
      textureID ← gl_gen;
      gl_call (glBindTexture textureID);;
      gl_call (gl_update_current (set_wrap_s GL_REPEAT));;
      gl_call (gl_update_current (set_wrap_t GL_REPEAT));;
      gl_call (gl_update_current (set_min_filter GL_LINEAR));;
      gl_call (gl_update_current (set_mag_filter GL_LINEAR));;
      if colorChannels image =? 3 then
        gl_call (glTexImage2D GL_RGB8 image);;
        register_texture textureID tag
      else if colorChannels image =? 4 then
        gl_call (glTexImage2D GL_RGBA8 image);;
        register_texture textureID tag
      else
        mret false
  | None => mret false
  end.

End TextureRegistry.

(** [BindGLTextures]: the loop [for (i = 0; i < m_loadedTextures; i++)]. *)
Fixpoint BindGLTextures_loop (fuel : nat) (i : Z) : M World unit :=
  w ← get;
  if i <? m_loadedTextures (scene w) then
    match fuel with
    | O => raise OutOfFuel
    | S fuel' =>
        e ← reading (fun s => read_texture s i);
        gl_call (glActiveTexture (Z.to_N i));;
        gl_call (glBindTexture (ID e));;
        BindGLTextures_loop fuel' (i + 1)
    end
  else mret tt.

Definition BindGLTextures : M World unit :=
  w ← get;
  BindGLTextures_loop (Z.to_nat (m_loadedTextures (scene w))) 0.

(** [DestroyGLTextures]: the loop calls [glGenTextures(1, &m_textureIDs[i].ID)]
    and leaves [m_loadedTextures] alone. *)
Fixpoint DestroyGLTextures_loop (fuel : nat) (i : Z) : M World unit :=
  w ← get;
  if i <? m_loadedTextures (scene w) then
    match fuel with
    | O => raise OutOfFuel
    | S fuel' =>
        id ← gl_gen;
        write_texture i (set_ID id);;
        DestroyGLTextures_loop fuel' (i + 1)
    end
  else mret tt.

Definition DestroyGLTextures : M World unit :=
  w ← get;
  DestroyGLTextures_loop (Z.to_nat (m_loadedTextures (scene w))) 0.

(** The conversion of a [GLuint] to [int] done by [textureID = ....ID]. *)
Definition int_of_GLuint (n : N) : Z :=
  let z := Z.of_N n mod 2 ^ 32 in
  if z <? 2 ^ 31 then z else z - 2 ^ 32.

(** [FindTextureID]: the state of the loop is [index], [bFound] and
    [textureID]. *)
Fixpoint FindTextureID_loop (fuel : nat) (s : SceneManager) (tag0 : string)
    (index : Z) (bFound : bool) (textureID : Z) : result Z :=
  if (index <? m_loadedTextures s) && negb bFound then
    match fuel with
    | O => Fault OutOfFuel
    | S fuel' =>
        match read_texture s index with
        | Ok e =>
            if String.eqb (tag e) tag0 then
              FindTextureID_loop fuel' s tag0 index true (int_of_GLuint (ID e))
            else
              FindTextureID_loop fuel' s tag0 (index + 1) bFound textureID
        | Fault x => Fault x
        end
    end
  else Ok textureID.

Definition FindTextureID (s : SceneManager) (tag0 : string) : result Z :=
  FindTextureID_loop (S (Z.to_nat (m_loadedTextures s))) s tag0 0 false (-1).

(** [FindTextureSlot]: the same loop, keeping the index. *)
Fixpoint FindTextureSlot_loop (fuel : nat) (s : SceneManager) (tag0 : string)
    (index : Z) (bFound : bool) (textureSlot : Z) : result Z :=
  if (index <? m_loadedTextures s) && negb bFound then
    match fuel with
    | O => Fault OutOfFuel
    | S fuel' =>
        match read_texture s index with
        | Ok e =>
            if String.eqb (tag e) tag0 then
              FindTextureSlot_loop fuel' s tag0 index true index
            else
              FindTextureSlot_loop fuel' s tag0 (index + 1) bFound textureSlot
        | Fault x => Fault x
        end
    end
  else Ok textureSlot.

Definition FindTextureSlot (s : SceneManager) (tag0 : string) : result Z :=
  FindTextureSlot_loop (S (Z.to_nat (m_loadedTextures s))) s tag0 0 false (-1).

(** ** Material catalogue *)

(** The three assignments of lines 228-230; [material.tag] is not assigned. *)
Definition copy_material (src dst : OBJECT_MATERIAL) : OBJECT_MATERIAL :=
  mkOBJECT_MATERIAL (diffuseColor src) (specularColor src) (shininess src) (mtag dst).

(** The loop of [FindMaterial]; [material] is the reference parameter. *)
Fixpoint FindMaterial_loop (fuel : nat) (ms : list OBJECT_MATERIAL) (tag0 : string)
    (index : Z) (bFound : bool) (material : OBJECT_MATERIAL) : result OBJECT_MATERIAL :=
  if (index <? Z.of_nat (length ms)) && negb bFound then
    match fuel with
    | O => Fault OutOfFuel
    | S fuel' =>
        match ms !! Z.to_nat index with
        | Some e =>
            if String.eqb (mtag e) tag0 then
              FindMaterial_loop fuel' ms tag0 index true (copy_material e material)
            else
              FindMaterial_loop fuel' ms tag0 (index + 1) bFound material
        | None => Fault OutOfBounds
        end
    end
  else Ok material.

(** [FindMaterial(tag, material)]: the returned [bool] and the value left in
    [material]. *)
Definition FindMaterial (s : SceneManager) (tag0 : string) (material : OBJECT_MATERIAL)
    : result (bool * OBJECT_MATERIAL) :=
  if Z.of_nat (length (m_objectMaterials s)) =? 0 then Ok (false, material)
  else
    match FindMaterial_loop (S (length (m_objectMaterials s)))
                            (m_objectMaterials s) tag0 0 false material with
    | Ok material' => Ok (true, material')
    | Fault x => Fault x
    end.

(** ** GLM *)

Module glm.
Local Open Scope R_scope.

Definition vec4_scale (v : vec4) (k : R) : vec4 :=
  mkVec4 (v4x v * k) (v4y v * k) (v4z v * k) (v4w v * k).
Definition vec4_add (a b : vec4) : vec4 :=
  mkVec4 (v4x a + v4x b) (v4y a + v4y b) (v4z a + v4z b) (v4w a + v4w b).

(** [mat4(1.0f)]. *)
Definition mat4_1 : mat4 :=
  mkMat4 (mkVec4 1 0 0 0) (mkVec4 0 1 0 0) (mkVec4 0 0 1 0) (mkVec4 0 0 0 1).

(** [m * v]: the combination of the columns of [m] by the components of [v]. *)
Definition mul_vec (m : mat4) (v : vec4) : vec4 :=
  vec4_add (vec4_add (vec4_add (vec4_scale (col0 m) (v4x v))
                               (vec4_scale (col1 m) (v4y v)))
                     (vec4_scale (col2 m) (v4z v)))
           (vec4_scale (col3 m) (v4w v)).

(** [a * b] on [mat4]: column [j] of the product is [a * b[j]]. *)
Definition mul (a b : mat4) : mat4 :=
  mkMat4 (mul_vec a (col0 b)) (mul_vec a (col1 b))
         (mul_vec a (col2 b)) (mul_vec a (col3 b)).

(** [glm::radians]. *)
Definition radians (degrees : R) : R := degrees * (PI / 180).

(** [glm::normalize] on [vec3]: [v * inversesqrt(dot(v, v))]. *)
Definition normalize (v : vec3) : vec3 :=
  let k := 1 / sqrt (v3x v * v3x v + v3y v * v3y v + v3z v * v3z v) in
  mkVec3 (v3x v * k) (v3y v * k) (v3z v * k).

(** [glm::scale(m, v)]. *)
Definition scale_m (m : mat4) (v : vec3) : mat4 :=
  mkMat4 (vec4_scale (col0 m) (v3x v)) (vec4_scale (col1 m) (v3y v))
         (vec4_scale (col2 m) (v3z v)) (col3 m).

(** [glm::translate(m, v)]. *)
Definition translate_m (m : mat4) (v : vec3) : mat4 :=
  mkMat4 (col0 m) (col1 m) (col2 m)
         (vec4_add (vec4_add (vec4_add (vec4_scale (col0 m) (v3x v))
                                       (vec4_scale (col1 m) (v3y v)))
                             (vec4_scale (col2 m) (v3z v)))
                   (col3 m)).

(** [glm::rotate(m, angle, v)]. *)
Definition rotate_m (m : mat4) (angle : R) (v : vec3) : mat4 :=
  let c := cos angle in
  let s := sin angle in
  let axis := normalize v in
  let temp := mkVec3 ((1 - c) * v3x axis) ((1 - c) * v3y axis) ((1 - c) * v3z axis) in
  let r00 := c + v3x temp * v3x axis in
  let r01 := v3x temp * v3y axis + s * v3z axis in
  let r02 := v3x temp * v3z axis - s * v3y axis in
  let r10 := v3y temp * v3x axis - s * v3z axis in
  let r11 := c + v3y temp * v3y axis in
  let r12 := v3y temp * v3z axis + s * v3x axis in
  let r20 := v3z temp * v3x axis + s * v3y axis in
  let r21 := v3z temp * v3y axis - s * v3x axis in
  let r22 := c + v3z temp * v3z axis in
  mkMat4
    (vec4_add (vec4_add (vec4_scale (col0 m) r00) (vec4_scale (col1 m) r01))
              (vec4_scale (col2 m) r02))
    (vec4_add (vec4_add (vec4_scale (col0 m) r10) (vec4_scale (col1 m) r11))
              (vec4_scale (col2 m) r12))
    (vec4_add (vec4_add (vec4_scale (col0 m) r20) (vec4_scale (col1 m) r21))
              (vec4_scale (col2 m) r22))
    (col3 m).

(** The overloads of [glm/gtx/transform.hpp], which start from [mat4(1)]. *)
Definition scale (v : vec3) : mat4 := scale_m mat4_1 v.
Definition translate (v : vec3) : mat4 := translate_m mat4_1 v.
Definition rotate (angle : R) (v : vec3) : mat4 := rotate_m mat4_1 angle v.
End glm.

(** ** Transform composer and uniform binder *)

(** [m_pShaderManager->f(...)] without a null check. *)
Definition shader_call (f : ShaderManager → ShaderManager) : M World unit :=
  fun w =>
    match m_pShaderManager (scene w) with
    | Some sh => Ok (tt, mkWorld (gl w) (set_shader (Some (f sh)) (scene w)))
    | None => Fault NullDereference
    end.

(** [NULL != m_pShaderManager]. *)
Definition has_shader (w : World) : bool :=
  match m_pShaderManager (scene w) with Some _ => true | None => false end.

(** The local [modelView] of [SetTransformations]; [*] on [mat4] associates
    to the left. *)
Definition modelView (scaleXYZ : vec3) (XrotationDegrees YrotationDegrees
    ZrotationDegrees : R) (positionXYZ : vec3) : mat4 :=
  let scale := glm.scale scaleXYZ in
  let rotationX := glm.rotate (glm.radians XrotationDegrees) (mkVec3 1 0 0) in
  let rotationY := glm.rotate (glm.radians YrotationDegrees) (mkVec3 0 1 0) in
  let rotationZ := glm.rotate (glm.radians ZrotationDegrees) (mkVec3 0 0 1) in
  let translation := glm.translate positionXYZ in
  glm.mul (glm.mul (glm.mul (glm.mul translation rotationZ) rotationY) rotationX) scale.

Definition SetTransformations (scaleXYZ : vec3) (XrotationDegrees YrotationDegrees
    ZrotationDegrees : R) (positionXYZ : vec3) : M World unit :=
  w ← get;
  if has_shader w then
    shader_call (setMat4Value g_ModelName
      (modelView scaleXYZ XrotationDegrees YrotationDegrees ZrotationDegrees positionXYZ))
  else mret tt.

Definition SetShaderColor (redColorValue greenColorValue blueColorValue alphaValue : R)
    : M World unit :=
  let currentColor := mkVec4 redColorValue greenColorValue blueColorValue alphaValue in
  w ← get;
  if has_shader w then
    shader_call (setIntValue g_UseTextureName (int_of_bool false));;
    shader_call (setVec4Value g_ColorValueName currentColor)
  else mret tt.

Definition SetShaderTexture (textureTag : string) : M World unit :=
  w ← get;
  if has_shader w then
    shader_call (setIntValue g_UseTextureName (int_of_bool true));;
    textureID ← reading (fun s => FindTextureSlot s textureTag);
    shader_call (setSampler2DValue g_TextureValueName textureID)
  else mret tt.

Definition SetTextureUVScale (u v : R) : M World unit :=
  w ← get;
  if has_shader w then
    shader_call (setVec2Value "UVscale" (mkVec2 u v))
  else mret tt.

(** [SetShaderMaterial]: the local [OBJECT_MATERIAL material] is declared
    without an initialiser; [indeterminate] is what it holds before
    [FindMaterial] is called. *)
Definition SetShaderMaterial (indeterminate : OBJECT_MATERIAL) (materialTag : string)
    : M World unit :=
  w ← get;
  if 0 <? Z.of_nat (length (m_objectMaterials (scene w))) then
    '(bReturn, material) ← reading (fun s => FindMaterial s materialTag indeterminate);
    if (bReturn : bool) then
      shader_call (setVec3Value "material.diffuseColor" (diffuseColor material));;
      shader_call (setVec3Value "material.specularColor" (specularColor material));;
      shader_call (setFloatValue "material.shininess" (shininess material))
    else mret tt
  else mret tt.

(** [LoadSceneTextures]: the eleven loads, whose results are assigned to
    [bReturn] and not looked at, then [BindGLTextures]. *)
Definition LoadSceneTextures (stbi_load : string → option Image) : M World unit :=
  CreateGLTexture stbi_load "textures/steel.jpg" "steel";;
  CreateGLTexture stbi_load "textures/obsidian.png" "obsidian";;
  CreateGLTexture stbi_load "textures/orange.png" "orange";;
  CreateGLTexture stbi_load "textures/black.jpg" "black";;
  CreateGLTexture stbi_load "textures/tan.png" "tan";;
  CreateGLTexture stbi_load "textures/taupe.jpg" "taupe";;
  CreateGLTexture stbi_load "textures/white_wood.jpg" "white_wood";;
  CreateGLTexture stbi_load "textures/redsq.png" "red_ceramic";;
  CreateGLTexture stbi_load "textures/tileable_wood.jpg" "wood_log";;
  CreateGLTexture stbi_load "textures/flower_tile.jpg" "flower_tile";;
  CreateGLTexture stbi_load "textures/white_plastic.jpg" "white_plastic";;
  BindGLTextures.

(** [m_objectMaterials.push_back(m)]. *)
Definition push_back (m : OBJECT_MATERIAL) : M World unit :=
  on_scene (fun s => set_objectMaterials (m_objectMaterials s ++ [m]) s).

Definition metalMaterial : OBJECT_MATERIAL :=
  mkOBJECT_MATERIAL (mkVec3 0.2 0.2 1) (mkVec3 0.6 0.5 0.4) 22 "metal".
Definition cementMaterial : OBJECT_MATERIAL :=
  mkOBJECT_MATERIAL (mkVec3 0.5 0.5 0.5) (mkVec3 0.4 0.4 0.4) 0.5 "cement".
Definition woodMaterial : OBJECT_MATERIAL :=
  mkOBJECT_MATERIAL (mkVec3 0.3 0.2 0.1) (mkVec3 0.1 0.1 0.1) 0.3 "wood".
Definition tileMaterial : OBJECT_MATERIAL :=
  mkOBJECT_MATERIAL (mkVec3 0.3 0.2 0.1) (mkVec3 0.4 0.5 0.6) 25 "tile".
Definition glassMaterial : OBJECT_MATERIAL :=
  mkOBJECT_MATERIAL (mkVec3 0.3 0.3 0.3) (mkVec3 0.6 0.6 0.6) 85 "glass".
Definition clayMaterial : OBJECT_MATERIAL :=
  mkOBJECT_MATERIAL (mkVec3 0.4 0.4 0.5) (mkVec3 0.2 0.2 0.4) 0.5 "clay".
Definition ceramicMaterial : OBJECT_MATERIAL :=
  mkOBJECT_MATERIAL (mkVec3 0.6 0.6 0.6) (mkVec3 0.45 0.45 0.45) 50 "ceramic".

Definition DefineObjectMaterials : M World unit :=
  push_back metalMaterial;;
  push_back cementMaterial;;
  push_back woodMaterial;;
  push_back tileMaterial;;
  push_back glassMaterial;;
  push_back clayMaterial;;
  push_back ceramicMaterial.

(** ** States *)

(** The invariant of the registry: the array has its [MAX_TEXTURES] cells and
    the count of loaded textures is an index range inside it. *)
Definition wf (s : SceneManager) : Prop :=
  length (m_textureIDs s) = Z.to_nat MAX_TEXTURES ∧
  0 ≤ m_loadedTextures s ≤ MAX_TEXTURES.

(** The registered entries, in registration order. *)
Definition registered (s : SceneManager) : list TEXTURE_INFO :=
  take (Z.to_nat (m_loadedTextures s)) (m_textureIDs s).

(** A scene manager with nothing registered and nothing defined. *)
Definition empty_scene (pShaderManager : option ShaderManager) : SceneManager :=
  mkSceneManager pShaderManager 0
                 (replicate (Z.to_nat MAX_TEXTURES) (mkTEXTURE_INFO "" 0%N)) [].

Definition empty_world (pShaderManager : option ShaderManager) : World :=
  mkWorld gl_initial (empty_scene pShaderManager).

(** The uniform store behind the shader manager, when there is one. *)
Definition uniform (w : World) (name : string) : option Uniform :=
  match m_pShaderManager (scene w) with
  | Some sh => sh !! name
  | None => None
  end.

(** ** The contracts of the specification *)

(** Texture registry, [findSlot(tag)]: first-match linear lookup, the
    registration-order index or none. *)
Definition findSlot (reg : list TEXTURE_INFO) (t : string) : option nat :=
  fst <$> list_find (λ e, tag e = t) reg.

(** Texture registry, [findHandle(tag)]: the same lookup, the GPU handle. *)
Definition findHandle (reg : list TEXTURE_INFO) (t : string) : option N :=
  (λ p, ID p.2) <$> list_find (λ e, tag e = t) reg.

(** Material catalogue, [lookup(tag)]: first-match linear scan. *)
Definition lookup_material (catalog : list OBJECT_MATERIAL) (t : string)
    : option OBJECT_MATERIAL :=
  snd <$> list_find (λ e, mtag e = t) catalog.

(** What [FindTextureSlot] returns for a lookup result: the index, or the
    initial value -1 of [textureSlot]. *)
Definition slot_or_sentinel (o : option nat) : Z :=
  match o with Some i => Z.of_nat i | None => -1 end.

Definition handle_or_sentinel (o : option N) : Z :=
  match o with Some id => int_of_GLuint id | None => -1 end.

(** ** Derived states *)

(** The name [glGenTextures] hands out in context [g]. *)
Definition next_name (g : GLState) : N := fresh ({[0%N]} ∪ gl_names g).

(** The scene manager after the registration of [(t, id)]. *)
Definition registered_scene (t : string) (id : N) (s : SceneManager) : SceneManager :=
  set_loadedTextures (m_loadedTextures s + 1)
    (set_textureIDs
       (<[Z.to_nat (m_loadedTextures s) := mkTEXTURE_INFO t id]> (m_textureIDs s)) s).

(** The GL context after the calls of [CreateGLTexture] up to the upload. *)
Definition gl_configured (g : GLState) : GLState :=
  gl_update_current (set_mag_filter GL_LINEAR)
    (gl_update_current (set_min_filter GL_LINEAR)
       (gl_update_current (set_wrap_t GL_REPEAT)
          (gl_update_current (set_wrap_s GL_REPEAT)
             (glBindTexture (next_name g) (glGenTextures g).2)))).

Definition gl_loaded (fmt : GLformat) (img : Image) (g : GLState) : GLState :=
  glBindTexture 0%N (glGenerateMipmap (glTexImage2D fmt img (gl_configured g))).

Definition format_of (img : Image) : GLformat :=
  if colorChannels img =? 3 then GL_RGB8 else GL_RGBA8.

(** ** Sample inputs *)

(** A file system with a 1x1 RGB image, a 1x1 RGBA image and a 1x1
    single-channel image; every other path is unreadable. *)
Definition sample_files (f : string) : option Image :=
  if String.eqb f "x.png" then Some (mkImage 1 1 3 [Byte.xff; Byte.x80; Byte.x00])
  else if String.eqb f "rgba.png" then
    Some (mkImage 1 1 4 [Byte.xff; Byte.x80; Byte.x00; Byte.xff])
  else if String.eqb f "gray.png" then Some (mkImage 1 1 1 [Byte.x7f])
  else None.

(** The loads of a list of tags from one file, results ignored. *)
Fixpoint load_all (stbi_load : string → option Image) (f : string) (tags : list string)
    : M World unit :=
  match tags with
  | [] => mret tt
  | t :: tags' => CreateGLTexture stbi_load f t;; load_all stbi_load f tags'
  end.

Definition sixteen_tags : list string :=
  ["t00"; "t01"; "t02"; "t03"; "t04"; "t05"; "t06"; "t07";
   "t08"; "t09"; "t10"; "t11"; "t12"; "t13"; "t14"; "t15"].

(** The world a computation ends in, or [w] when it faults. *)
Definition world_after {A} (m : M World A) (w : World) : World :=
  match m w with
  | Ok (_, w') => w'
  | Fault _ => w
  end.

(** One texture, "steel", loaded into an empty registry. *)
Definition steel_world : World :=
  world_after (CreateGLTexture sample_files "x.png" "steel") (empty_world (Some ∅)).

(** Sixteen textures loaded: every cell of [m_textureIDs] is taken. *)
Definition full_world : World :=
  world_after (load_all sample_files "x.png" sixteen_tags) (empty_world (Some ∅)).

(** "steel" loaded a second and a third time, from two files. *)
Definition twice_world : World :=
  world_after (CreateGLTexture sample_files "x.png" "steel") steel_world.
Definition thrice_world : World :=
  world_after (CreateGLTexture sample_files "rgba.png" "steel") twice_world.

(** The catalogue of [DefineObjectMaterials] in front of an empty shader
    store. *)
Definition catalog_world : World :=
  world_after DefineObjectMaterials (empty_world (Some ∅)).

(** A value for the uninitialised local of [SetShaderMaterial]. *)
Definition zero_material : OBJECT_MATERIAL :=
  mkOBJECT_MATERIAL (mkVec3 0 0 0) (mkVec3 0 0 0) 0 "".

(** ** The draw-state operations of the binder as a command language *)

Inductive binder_op : Type :=
| OpTransform (scaleXYZ : vec3) (rx ry rz : R) (positionXYZ : vec3)
| OpColor (r g b a : R)
| OpTexture (textureTag : string)
| OpUVScale (u v : R)
| OpMaterial (indeterminate : OBJECT_MATERIAL) (materialTag : string).

Definition run_op (op : binder_op) : M World unit :=
  match op with
  | OpTransform s rx ry rz p => SetTransformations s rx ry rz p
  | OpColor r g b a => SetShaderColor r g b a
  | OpTexture t => SetShaderTexture t
  | OpUVScale u v => SetTextureUVScale u v
  | OpMaterial i t => SetShaderMaterial i t
  end.

Fixpoint run_ops (ops : list binder_op) : M World unit :=
  match ops with
  | [] => mret tt
  | op :: ops' => run_op op;; run_ops ops'
  end.

(** The use-texture flag a call leaves behind, given the flag before it. *)
Definition flag_step (flag : option Uniform) (op : binder_op) : option Uniform :=
  match op with
  | OpColor _ _ _ _ => Some (UInt 0)
  | OpTexture _ => Some (UInt 1)
  | _ => flag
  end.

(** Neither [SetShaderColor] nor [SetShaderTexture]. *)
Definition keeps_mode (op : binder_op) : Prop :=
  match op with
  | OpColor _ _ _ _ | OpTexture _ => False
  | _ => True
  end.

(** ** The transform contract of the specification *)

Module Transform.
Local Open Scope R_scope.

(** A 4x4 matrix written row by row, stored by columns. *)
Definition of_rows
    (a00 a01 a02 a03 a10 a11 a12 a13 a20 a21 a22 a23 a30 a31 a32 a33 : R) : mat4 :=
  mkMat4 (mkVec4 a00 a10 a20 a30) (mkVec4 a01 a11 a21 a31)
         (mkVec4 a02 a12 a22 a32) (mkVec4 a03 a13 a23 a33).

(** The entry in row [i], column [j]. *)
Definition row (v : vec4) (i : nat) : R :=
  match i with
  | O => v4x v
  | 1%nat => v4y v
  | 2%nat => v4z v
  | _ => v4w v
  end.
Definition column (m : mat4) (j : nat) : vec4 :=
  match j with
  | O => col0 m
  | 1%nat => col1 m
  | 2%nat => col2 m
  | _ => col3 m
  end.
Definition entry (m : mat4) (i j : nat) : R := row (column m j) i.

(** The matrix product: entry (i, j) is the sum over k of a(i,k) b(k,j). *)
Definition dot_entry (a b : mat4) (i j : nat) : R :=
  entry a i 0 * entry b 0 j + entry a i 1 * entry b 1 j
  + entry a i 2 * entry b 2 j + entry a i 3 * entry b 3 j.
Definition product (a b : mat4) : mat4 :=
  of_rows (dot_entry a b 0 0) (dot_entry a b 0 1) (dot_entry a b 0 2) (dot_entry a b 0 3)
          (dot_entry a b 1 0) (dot_entry a b 1 1) (dot_entry a b 1 2) (dot_entry a b 1 3)
          (dot_entry a b 2 0) (dot_entry a b 2 1) (dot_entry a b 2 2) (dot_entry a b 2 3)
          (dot_entry a b 3 0) (dot_entry a b 3 1) (dot_entry a b 3 2) (dot_entry a b 3 3).

Definition identity : mat4 :=
  of_rows 1 0 0 0
          0 1 0 0
          0 0 1 0
          0 0 0 1.

Definition scaling (s : vec3) : mat4 :=
  of_rows (v3x s) 0 0 0
          0 (v3y s) 0 0
          0 0 (v3z s) 0
          0 0 0 1.

(** The pure axis rotations by an angle in radians. *)
Definition rotationX (a : R) : mat4 :=
  of_rows 1 0 0 0
          0 (cos a) (- sin a) 0
          0 (sin a) (cos a) 0
          0 0 0 1.
Definition rotationY (a : R) : mat4 :=
  of_rows (cos a) 0 (sin a) 0
          0 1 0 0
          (- sin a) 0 (cos a) 0
          0 0 0 1.
Definition rotationZ (a : R) : mat4 :=
  of_rows (cos a) (- sin a) 0 0
          (sin a) (cos a) 0 0
          0 0 1 0
          0 0 0 1.

Definition translation (p : vec3) : mat4 :=
  of_rows 1 0 0 (v3x p)
          0 1 0 (v3y p)
          0 0 1 (v3z p)
          0 0 0 1.

Definition to_radians (degrees : R) : R := degrees * PI / 180.

(** [compose(scale, rotX, rotY, rotZ, position)]:
    translation · rotationZ · rotationY · rotationX · scale, the angles
    given in degrees. *)
Definition compose (scale : vec3) (rotX rotY rotZ : R) (position : vec3) : mat4 :=
  product (translation position)
    (product (rotationZ (to_radians rotZ))
       (product (rotationY (to_radians rotY))
          (product (rotationX (to_radians rotX)) (scaling scale)))).

(** The matrix applied to a column vector. *)
Definition apply (m : mat4) (v : vec4) : vec4 :=
  mkVec4 (entry m 0 0 * v4x v + entry m 0 1 * v4y v + entry m 0 2 * v4z v + entry m 0 3 * v4w v)
         (entry m 1 0 * v4x v + entry m 1 1 * v4y v + entry m 1 2 * v4z v + entry m 1 3 * v4w v)
         (entry m 2 0 * v4x v + entry m 2 1 * v4y v + entry m 2 2 * v4z v + entry m 2 3 * v4w v)
         (entry m 3 0 * v4x v + entry m 3 1 * v4y v + entry m 3 2 * v4z v + entry m 3 3 * v4w v).

(** The translation component of a model matrix: the first three entries of
    its last column. *)
Definition translation_of (m : mat4) : vec3 :=
  mkVec3 (entry m 0 3) (entry m 1 3) (entry m 2 3).
End Transform.

(** The three uniform writes of [SetShaderMaterial] for the value [m] of its
    local [material]. *)
Definition pushed_material (m : OBJECT_MATERIAL) (sh : ShaderManager) : ShaderManager :=
  setFloatValue "material.shininess" (shininess m)
    (setVec3Value "material.specularColor" (specularColor m)
       (setVec3Value "material.diffuseColor" (diffuseColor m) sh)).

(** The use-texture flag after a sequence of calls. *)
Definition flag_after (ops : list binder_op) (flag : option Uniform) : option Uniform :=
  fold_left flag_step ops flag.

(** A draw sequence used as a sample: a textured plane, then a flat-coloured
    box whose material tag is not in the catalogue. *)
Definition sample_ops : list binder_op :=
  [OpTransform (mkVec3 25 1 10) 0 0 0 (mkVec3 0 0 0);
   OpUVScale 1 1;
   OpTexture "steel";
   OpMaterial zero_material "tile";
   OpTransform (mkVec3 1 1 1) 90 0 0 (mkVec3 0 10 (-10));
   OpColor 1 0 0 1;
   OpMaterial zero_material "missing"].

(** ** Scene lights *)

Definition setBoolValue (name : string) (v : bool) (sh : ShaderManager) : ShaderManager :=
  <[name := UBool v]> sh.

(** The overload [setVec3Value(name, x, y, z)]. *)
Definition setVec3Value3 (name : string) (x y z : R) (sh : ShaderManager) : ShaderManager :=
  setVec3Value name (mkVec3 x y z) sh.

Definition g_UseLightingName : string := "bUseLighting".

(** [SetupSceneLights]: twenty writes through [m_pShaderManager], none of
    them behind a null check. *)
Definition SetupSceneLights : M World unit :=
  shader_call (setBoolValue g_UseLightingName true);;
  shader_call (setVec3Value3 "pointLights[0].position" 0 16 0);;
  shader_call (setVec3Value3 "pointLights[0].ambient" 0.05 0.05 0.05);;
  shader_call (setVec3Value3 "pointLights[0].diffuse" 0.6 0.6 0.6);;
  shader_call (setVec3Value3 "pointLights[0].specular" 0.75 0.75 0.75);;
  shader_call (setBoolValue "pointLights[0].bActive" true);;
  shader_call (setVec3Value3 "pointLights[1].position" 20 16 0);;
  shader_call (setVec3Value3 "pointLights[1].ambient" 0.05 0.05 0.05);;
  shader_call (setVec3Value3 "pointLights[1].diffuse" 0.6 0.6 0.6);;
  shader_call (setVec3Value3 "pointLights[1].specular" 0.75 0.75 0.75);;
  shader_call (setBoolValue "pointLights[1].bActive" true);;
  shader_call (setVec3Value3 "pointLights[2].position" (-20) 16 0);;
  shader_call (setVec3Value3 "pointLights[2].ambient" 0.05 0.05 0.05);;
  shader_call (setVec3Value3 "pointLights[2].diffuse" 0.6 0.6 0.6);;
  shader_call (setVec3Value3 "pointLights[2].specular" 0.75 0.75 0.75);;
  shader_call (setBoolValue "pointLights[2].bActive" true);;
  shader_call (setVec3Value3 "directionalLight.direction" 4 20 (-4));;
  shader_call (setVec3Value3 "directionLight.ambient" 0.05 0.05 0.05);;
  shader_call (setVec3Value3 "directionLight.diffuse" 0.6 0.6 0.6);;
  shader_call (setVec3Value3 "directionLight.specular" 0 0 0).

(** The uniform names [SetupSceneLights] writes. *)
Definition light_uniforms : list string :=
  [g_UseLightingName;
   "pointLights[0].position"; "pointLights[0].ambient"; "pointLights[0].diffuse";
   "pointLights[0].specular"; "pointLights[0].bActive";
   "pointLights[1].position"; "pointLights[1].ambient"; "pointLights[1].diffuse";
   "pointLights[1].specular"; "pointLights[1].bActive";
   "pointLights[2].position"; "pointLights[2].ambient"; "pointLights[2].diffuse";
   "pointLights[2].specular"; "pointLights[2].bActive";
   "directionalLight.direction"; "directionLight.ambient"; "directionLight.diffuse";
   "directionLight.specular"].

(** ** The mesh object and the whole program state *)

Inductive Mesh : Type :=
| PlaneMesh | BoxMesh | ConeMesh | CylinderMesh
| PrismMesh | TaperedCylinderMesh | SphereMesh | TorusMesh.

#[global] Instance Mesh_eq_dec : EqDecision Mesh.
Proof. solve_decision. Defined.

(** A draw call as the GPU sees it: the mesh and the uniform store at the
    time of the call ([None] under a null shader manager). *)
Record DrawCall : Type := mkDrawCall {
  dc_mesh : Mesh;
  dc_uniforms : option ShaderManager
}.

(** [ShapeMeshes] is the geometry module behind [m_basicMeshes].  It is seen
    through the calls made on it: the meshes loaded and the draws issued, in
    call order. *)
Record ShapeMeshes : Type := mkShapeMeshes {
  loaded_meshes : list Mesh;
  draw_calls : list DrawCall
}.

Record Program : Type := mkProgram {
  world : World;
  m_basicMeshes : ShapeMeshes
}.

(** A member function that does not touch [m_basicMeshes]. *)
Definition in_world {A} (m : M World A) : M Program A :=
  fun p => match m (world p) with
           | Ok (a, w) => Ok (a, mkProgram w (m_basicMeshes p))
           | Fault x => Fault x
           end.

(** [m_basicMeshes->Load...Mesh()]. *)
Definition LoadMesh (k : Mesh) : M Program unit :=
  modify (fun p => mkProgram (world p)
                     (mkShapeMeshes (loaded_meshes (m_basicMeshes p) ++ [k])
                                    (draw_calls (m_basicMeshes p)))).

(** [m_basicMeshes->Draw...Mesh()]. *)
Definition DrawMesh (k : Mesh) : M Program unit :=
  modify (fun p => mkProgram (world p)
                     (mkShapeMeshes (loaded_meshes (m_basicMeshes p))
                                    (draw_calls (m_basicMeshes p)
                                     ++ [mkDrawCall k (m_pShaderManager (scene (world p)))]))).

Definition PrepareScene (stbi_load : string → option Image) : M Program unit :=
  in_world (LoadSceneTextures stbi_load);;
  in_world DefineObjectMaterials;;
  in_world SetupSceneLights;;
  LoadMesh PlaneMesh;;
  LoadMesh BoxMesh;;
  LoadMesh ConeMesh;;
  LoadMesh CylinderMesh;;
  LoadMesh PrismMesh;;
  LoadMesh TaperedCylinderMesh;;
  LoadMesh SphereMesh;;
  LoadMesh TorusMesh.

(** ** RenderScene *)

(** The local variables of [RenderScene]. *)
Record Locals : Type := mkLocals {
  scaleXYZ : vec3;
  XrotationDegrees : R;
  YrotationDegrees : R;
  ZrotationDegrees : R;
  positionXYZ : vec3
}.

(** The statements [RenderScene] is made of. *)
Inductive Statement : Type :=
| AssignScale (v : vec3)
| AssignXrotation (d : R)
| AssignYrotation (d : R)
| AssignZrotation (d : R)
| AssignPosition (v : vec3)
| CallSetTransformations
| CallSetShaderColor (r g b a : R)
| CallSetTextureUVScale (u v : R)
| CallSetShaderTexture (textureTag : string)
| CallSetShaderMaterial (materialTag : string)
| Draw (k : Mesh).

(** One statement.  [indeterminate] is the content of the uninitialised local
    of [SetShaderMaterial] for this call. *)
Definition exec_statement (indeterminate : OBJECT_MATERIAL) (l : Locals) (s : Statement)
    : M Program Locals :=
  match s with
  | AssignScale v =>
      mret (mkLocals v (XrotationDegrees l) (YrotationDegrees l) (ZrotationDegrees l)
                     (positionXYZ l))
  | AssignXrotation d =>
      mret (mkLocals (scaleXYZ l) d (YrotationDegrees l) (ZrotationDegrees l)
                     (positionXYZ l))
  | AssignYrotation d =>
      mret (mkLocals (scaleXYZ l) (XrotationDegrees l) d (ZrotationDegrees l)
                     (positionXYZ l))
  | AssignZrotation d =>
      mret (mkLocals (scaleXYZ l) (XrotationDegrees l) (YrotationDegrees l) d
                     (positionXYZ l))
  | AssignPosition v =>
      mret (mkLocals (scaleXYZ l) (XrotationDegrees l) (YrotationDegrees l)
                     (ZrotationDegrees l) v)
  | CallSetTransformations =>
      in_world (SetTransformations (scaleXYZ l) (XrotationDegrees l) (YrotationDegrees l)
                                   (ZrotationDegrees l) (positionXYZ l));;
      mret l
  | CallSetShaderColor r g b a => in_world (SetShaderColor r g b a);; mret l
  | CallSetTextureUVScale u v => in_world (SetTextureUVScale u v);; mret l
  | CallSetShaderTexture t => in_world (SetShaderTexture t);; mret l
  | CallSetShaderMaterial t => in_world (SetShaderMaterial indeterminate t);; mret l
  | Draw k => DrawMesh k;; mret l
  end.

(** A statement sequence; [indeterminate n] serves the [n]-th statement. *)
Fixpoint exec_statements (indeterminate : nat → OBJECT_MATERIAL) (n : nat) (l : Locals)
    (body : list Statement) : M Program Locals :=
  match body with
  | [] => mret l
  | s :: body' =>
      l' ← exec_statement (indeterminate n) l s;
      exec_statements indeterminate (S n) l' body'
  end.

(** The body of [RenderScene], statement by statement in source order.  The
    braces of the source open plain blocks without declarations and are left
    out; the comments give the source line an object starts at. *)
Definition RenderScene_body : list Statement :=
  [
   (* line 599 *)
   AssignScale (mkVec3 25 1 10);
   AssignXrotation 0;
   AssignYrotation 0;
   AssignZrotation 0;
   AssignPosition (mkVec3 0 0 0);
   CallSetTransformations;
   CallSetTextureUVScale 1 1;
   CallSetShaderTexture "taupe";
   CallSetShaderMaterial "tile";
   Draw PlaneMesh;
   (* line 621 *)
   AssignScale (mkVec3 25 1 10);
   AssignXrotation 90;
   AssignYrotation 0;
   AssignZrotation 0;
   AssignPosition (mkVec3 0 10 (-10));
   CallSetTransformations;
   CallSetTextureUVScale 1 1;
   CallSetShaderTexture "white_wood";
   CallSetShaderMaterial "tile";
   Draw PlaneMesh;
   (* line 647 *)
   AssignScale (mkVec3 0.6 0.62 0.5);
   AssignXrotation 0;
   AssignYrotation 0;
   AssignZrotation 0;
   AssignPosition (mkVec3 21.9 0.6 (-8.6));
   CallSetTransformations;
   CallSetTextureUVScale 1 1;
   CallSetShaderTexture "black";
   CallSetShaderMaterial "wood";
   Draw SphereMesh;
   (* line 673 *)
   AssignScale (mkVec3 0.5 3 0.5);
   AssignXrotation 0;
   AssignYrotation 0;
   AssignZrotation 90;
   AssignPosition (mkVec3 22 0.5 (-8.6));
   CallSetTransformations;
   CallSetShaderColor 0.7 0.7 0.7 1;
   CallSetTextureUVScale 1 1;
   CallSetShaderTexture "black";
   CallSetShaderMaterial "wood";
   Draw TaperedCylinderMesh;
   (* line 699 *)
   AssignScale (mkVec3 0.5 3 0.35);
   AssignXrotation 0;
   AssignYrotation 0;
   AssignZrotation 90;
   AssignPosition (mkVec3 22 0.7 (-8.6));
   CallSetTransformations;
   CallSetTextureUVScale 1 1;
   CallSetShaderTexture "black";
   CallSetShaderMaterial "wood";
   Draw CylinderMesh;
   (* line 722 *)
   AssignScale (mkVec3 0.15 0.3 0.15);
   AssignXrotation 0;
   AssignYrotation 0;
   AssignZrotation 0;
   AssignPosition (mkVec3 19.9 1 (-8.6));
   CallSetTransformations;
   CallSetShaderColor 0 0 0 1;
   Draw SphereMesh;
   (* line 743 *)
   AssignScale (mkVec3 0.5 1 0.36);
   AssignXrotation 0;
   AssignYrotation 0;
   AssignZrotation 90;
   AssignPosition (mkVec3 19 0.7 (-8.6));
   CallSetTransformations;
   CallSetTextureUVScale 1 1;
   CallSetShaderTexture "black";
   CallSetShaderMaterial "wood";
   Draw TaperedCylinderMesh;
   (* line 766 *)
   AssignScale (mkVec3 0.2 5 0.2);
   AssignXrotation 0;
   AssignYrotation 0;
   AssignZrotation 90;
   AssignPosition (mkVec3 19 0.7 (-8.6));
   CallSetTransformations;
   CallSetTextureUVScale 1 1;
   CallSetShaderTexture "steel";
   CallSetShaderMaterial "glass";
   Draw CylinderMesh;
   (* line 790 *)
   AssignScale (mkVec3 0.3 0.3 0.3);
   AssignXrotation 0;
   AssignYrotation 0;
   AssignZrotation 270;
   AssignPosition (mkVec3 14 0.7 (-8.6));
   CallSetTransformations;
   CallSetTextureUVScale 1 1;
   CallSetShaderTexture "steel";
   CallSetShaderMaterial "glass";
   Draw TaperedCylinderMesh;
   (* line 813 *)
   AssignScale (mkVec3 0.3 1 0.3);
   AssignXrotation 0;
   AssignYrotation 0;
   AssignZrotation 90;
   AssignPosition (mkVec3 14 0.7 (-8.6));
   CallSetTransformations;
   CallSetShaderColor 0.7 0.7 0.7 1;
   CallSetTextureUVScale 1 1;
   CallSetShaderTexture "steel";
   CallSetShaderMaterial "glass";
   Draw CylinderMesh;
   (* line 841 *)
   AssignScale (mkVec3 3 5 3);
   AssignXrotation 0;
   AssignYrotation 0;
   AssignZrotation 0;
   AssignPosition (mkVec3 6 0.01 (-6.3));
   CallSetTransformations;
   CallSetShaderColor 0.7 0.7 0.7 1;
   CallSetTextureUVScale 3 3;
   CallSetShaderTexture "orange";
   CallSetShaderMaterial "glass";
   Draw CylinderMesh;
   (* line 868 *)
   AssignScale (mkVec3 3.3 1 3.3);
   AssignXrotation 0;
   AssignYrotation 0;
   AssignZrotation 0;
   AssignPosition (mkVec3 6 4.95 (-6.3));
   CallSetTransformations;
   CallSetShaderColor 0.7 0.7 0.7 1;
   CallSetTextureUVScale 1 1;
   CallSetShaderTexture "black";
   CallSetShaderMaterial "glass";
   Draw CylinderMesh;
   (* line 896 *)
   AssignScale (mkVec3 9 0.5 4);
   AssignXrotation 0;
   AssignYrotation 0;
   AssignZrotation 0;
   AssignPosition (mkVec3 (-3) 0.3 3.3);
   CallSetTransformations;
   CallSetShaderColor 0.7 0.7 0.7 1;
   CallSetTextureUVScale 3 3;
   CallSetShaderTexture "red_ceramic";
   CallSetShaderMaterial "ceramic";
   Draw BoxMesh;
   (* line 922 *)
   AssignScale (mkVec3 0.5 2.5 2.7);
   AssignXrotation 0;
   AssignYrotation 0;
   AssignZrotation 0;
   AssignPosition (mkVec3 0.5 1.8 3.3);
   CallSetTransformations;
   CallSetShaderColor 0.7 0.7 0.7 1;
   CallSetTextureUVScale 3 3;
   CallSetShaderTexture "red_ceramic";
   CallSetShaderMaterial "ceramic";
   Draw BoxMesh;
   (* line 948 *)
   AssignScale (mkVec3 0.5 2.5 2.7);
   AssignXrotation 0;
   AssignYrotation 0;
   AssignZrotation 0;
   AssignPosition (mkVec3 (-6.5) 1.8 3.3);
   CallSetTransformations;
   CallSetShaderColor 0.7 0.7 0.7 1;
   CallSetTextureUVScale 3 3;
   CallSetShaderTexture "red_ceramic";
   CallSetShaderMaterial "ceramic";
   Draw BoxMesh;
   (* line 974 *)
   AssignScale (mkVec3 0.5 2.5 7.45);
   AssignXrotation 0;
   AssignYrotation 90;
   AssignZrotation 0;
   AssignPosition (mkVec3 (-3) 1.8 4.4001);
   CallSetTransformations;
   CallSetShaderColor 0.7 0.7 0.7 1;
   CallSetTextureUVScale 3 3;
   CallSetShaderTexture "red_ceramic";
   CallSetShaderMaterial "ceramic";
   Draw BoxMesh;
   (* line 1000 *)
   AssignScale (mkVec3 0.5 2.5 7.45);
   AssignXrotation 0;
   AssignYrotation 90;
   AssignZrotation 0;
   AssignPosition (mkVec3 (-3) 1.8 2.1999);
   CallSetTransformations;
   CallSetShaderColor 0.7 0.7 0.7 1;
   CallSetTextureUVScale 3 3;
   CallSetShaderTexture "red_ceramic";
   CallSetShaderMaterial "ceramic";
   Draw BoxMesh;
   (* line 1026 *)
   AssignScale (mkVec3 7 0.5 2);
   AssignXrotation 0;
   AssignYrotation 0;
   AssignZrotation 0;
   AssignPosition (mkVec3 (-3) 2.8 3.3);
   CallSetTransformations;
   CallSetShaderColor 0.7 0.7 0.7 1;
   CallSetTextureUVScale 3 3;
   CallSetShaderTexture "red_ceramic";
   CallSetShaderMaterial "ceramic";
   Draw BoxMesh;
   (* line 1052 *)
   AssignScale (mkVec3 0.3 0.5 0.3);
   AssignXrotation 0;
   AssignYrotation 0;
   AssignZrotation 0;
   AssignPosition (mkVec3 (-3) 3.1 3.3);
   CallSetTransformations;
   CallSetShaderColor 0.7 0.7 0.7 1;
   CallSetTextureUVScale 3 3;
   CallSetShaderTexture "orange";
   CallSetShaderMaterial "cement";
   Draw TaperedCylinderMesh;
   (* line 1078 *)
   AssignScale (mkVec3 0.3 0.5 0.15);
   AssignXrotation 180;
   AssignYrotation 0;
   AssignZrotation 0;
   AssignPosition (mkVec3 (-3) 3.9 3.3);
   CallSetTransformations;
   CallSetShaderColor 0.7 0.7 0.7 1;
   CallSetTextureUVScale 3 3;
   CallSetShaderTexture "orange";
   CallSetShaderMaterial "cement";
   Draw TaperedCylinderMesh;
   (* line 1104 *)
   AssignScale (mkVec3 0.2 0.4 0.1);
   AssignXrotation 0;
   AssignYrotation 0;
   AssignZrotation 40;
   AssignPosition (mkVec3 (-3.11) 3.9 3.3);
   CallSetTransformations;
   CallSetShaderColor 0.7 0.7 0.7 1;
   CallSetTextureUVScale 3 3;
   CallSetShaderTexture "orange";
   CallSetShaderMaterial "cement";
   Draw ConeMesh;
   (* line 1130 *)
   AssignScale (mkVec3 0.2 0.6 0.1);
   AssignXrotation 0;
   AssignYrotation 0;
   AssignZrotation (-40);
   AssignPosition (mkVec3 (-3) 3.9 3.3);
   CallSetTransformations;
   CallSetShaderColor 0.7 0.7 0.7 1;
   CallSetTextureUVScale 3 3;
   CallSetShaderTexture "orange";
   CallSetShaderMaterial "cement";
   Draw ConeMesh;
   (* line 1156 *)
   AssignScale (mkVec3 0.05 0.05 0.05);
   AssignXrotation 0;
   AssignYrotation 0;
   AssignZrotation (-40);
   AssignPosition (mkVec3 (-2.65) 4.35 3.3);
   CallSetTransformations;
   CallSetShaderColor 0.7 0.7 0.7 1;
   CallSetTextureUVScale 3 3;
   CallSetShaderTexture "orange";
   CallSetShaderMaterial "cement";
   Draw SphereMesh;
   (* line 1185 *)
   AssignScale (mkVec3 12 0.4 17);
   AssignXrotation 0;
   AssignYrotation 0;
   AssignZrotation 0;
   AssignPosition (mkVec3 (-16) 0.3 (-0.8));
   CallSetTransformations;
   CallSetShaderColor 0.7 0.7 0.7 1;
   CallSetTextureUVScale 1 1;
   CallSetShaderTexture "wood_log";
   CallSetShaderMaterial "wood";
   Draw BoxMesh;
   (* line 1211 *)
   AssignScale (mkVec3 5 0.2 5);
   AssignXrotation 0;
   AssignYrotation 0;
   AssignZrotation 0;
   AssignPosition (mkVec3 (-18.5) 0.45 (-5.5));
   CallSetTransformations;
   CallSetShaderColor 0.7 0.7 0.7 1;
   CallSetTextureUVScale 1 1;
   CallSetShaderTexture "flower_tile";
   CallSetShaderMaterial "ceramic";
   Draw BoxMesh;
   (* line 1237 *)
   AssignScale (mkVec3 5 0.2 5);
   AssignXrotation 0;
   AssignYrotation 0;
   AssignZrotation 0;
   AssignPosition (mkVec3 (-13.5) 0.45 (-5.5));
   CallSetTransformations;
   CallSetShaderColor 0.7 0.7 0.7 1;
   CallSetTextureUVScale 1 1;
   CallSetShaderTexture "flower_tile";
   CallSetShaderMaterial "ceramic";
   Draw BoxMesh;
   (* line 1264 *)
   AssignScale (mkVec3 5 0.2 5);
   AssignXrotation 0;
   AssignYrotation 0;
   AssignZrotation 0;
   AssignPosition (mkVec3 (-18.5) 0.45 (-0.5));
   CallSetTransformations;
   CallSetShaderColor 0.7 0.7 0.7 1;
   CallSetTextureUVScale 1 1;
   CallSetShaderTexture "flower_tile";
   CallSetShaderMaterial "ceramic";
   Draw BoxMesh;
   (* line 1290 *)
   AssignScale (mkVec3 5 0.2 5);
   AssignXrotation 0;
   AssignYrotation 0;
   AssignZrotation 0;
   AssignPosition (mkVec3 (-13.5) 0.45 (-0.5));
   CallSetTransformations;
   CallSetShaderColor 0.7 0.7 0.7 1;
   CallSetTextureUVScale 1 1;
   CallSetShaderTexture "flower_tile";
   CallSetShaderMaterial "ceramic";
   Draw BoxMesh;
   (* line 1317 *)
   AssignScale (mkVec3 5 0.2 5);
   AssignXrotation 0;
   AssignYrotation 0;
   AssignZrotation 0;
   AssignPosition (mkVec3 (-18.5) 0.45 4.5);
   CallSetTransformations;
   CallSetShaderColor 0.7 0.7 0.7 1;
   CallSetTextureUVScale 1 1;
   CallSetShaderTexture "flower_tile";
   CallSetShaderMaterial "ceramic";
   Draw BoxMesh;
   (* line 1343 *)
   AssignScale (mkVec3 5 0.2 5);
   AssignXrotation 0;
   AssignYrotation 0;
   AssignZrotation 0;
   AssignPosition (mkVec3 (-13.5) 0.45 4.5);
   CallSetTransformations;
   CallSetShaderColor 0.7 0.7 0.7 1;
   CallSetTextureUVScale 1 1;
   CallSetShaderTexture "flower_tile";
   CallSetShaderMaterial "ceramic";
   Draw BoxMesh;
   (* line 1371 *)
   AssignScale (mkVec3 1.5 10.5001 13);
   AssignXrotation 0;
   AssignYrotation 0;
   AssignZrotation 0;
   AssignPosition (mkVec3 (-13) 5.8 (-0.8));
   CallSetTransformations;
   CallSetShaderColor 0.7 0.7 0.7 1;
   CallSetTextureUVScale 1 1;
   CallSetShaderTexture "white_plastic";
   CallSetShaderMaterial "cement";
   Draw BoxMesh;
   (* line 1397 *)
   AssignScale (mkVec3 1.5 10.50001 13);
   AssignXrotation 0;
   AssignYrotation 0;
   AssignZrotation 0;
   AssignPosition (mkVec3 (-19) 5.8 (-0.8));
   CallSetTransformations;
   CallSetShaderColor 0.7 0.7 0.7 1;
   CallSetTextureUVScale 1 1;
   CallSetShaderTexture "white_plastic";
   CallSetShaderMaterial "cement";
   Draw BoxMesh;
   (* line 1423 *)
   AssignScale (mkVec3 6.5 10.5 2.2);
   AssignXrotation 0;
   AssignYrotation 0;
   AssignZrotation 0;
   AssignPosition (mkVec3 (-16) 5.799 (-6.1999));
   CallSetTransformations;
   CallSetShaderColor 0.7 0.7 0.7 1;
   CallSetTextureUVScale 1 1;
   CallSetShaderTexture "white_plastic";
   CallSetShaderMaterial "cement";
   Draw BoxMesh;
   (* line 1450 *)
   AssignScale (mkVec3 6.8 4.5 13);
   AssignXrotation 0;
   AssignYrotation 0;
   AssignZrotation 0;
   AssignPosition (mkVec3 (-16) 2.8 (-0.8));
   CallSetTransformations;
   CallSetShaderColor 0.7 0.7 0.7 1;
   CallSetTextureUVScale 1 1;
   CallSetShaderTexture "white_plastic";
   CallSetShaderMaterial "cement";
   Draw BoxMesh;
   (* line 1476 *)
   AssignScale (mkVec3 4.5 10.5 0.5);
   AssignXrotation 0;
   AssignYrotation 0;
   AssignZrotation 0;
   AssignPosition (mkVec3 (-16) 6 (-4.8));
   CallSetTransformations;
   CallSetShaderColor 0.7 0.7 0.7 1;
   CallSetTextureUVScale 1 1;
   CallSetShaderTexture "steel";
   CallSetShaderMaterial "glass";
   Draw BoxMesh;
   (* line 1502 *)
   AssignScale (mkVec3 4.5 10.5 0.5);
   AssignXrotation 0;
   AssignYrotation 0;
   AssignZrotation 0;
   AssignPosition (mkVec3 (-16) 6 2.8);
   CallSetTransformations;
   CallSetShaderColor 0.7 0.7 0.7 1;
   CallSetTextureUVScale 1 1;
   CallSetShaderTexture "steel";
   CallSetShaderMaterial "glass";
   Draw BoxMesh;
   (* line 1527 *)
   AssignScale (mkVec3 0.5 10.5 7.6);
   AssignXrotation 0;
   AssignYrotation 0;
   AssignZrotation 0;
   AssignPosition (mkVec3 (-14) 6 (-0.8));
   CallSetTransformations;
   CallSetShaderColor 0.7 0.7 0.7 1;
   CallSetTextureUVScale 1 1;
   CallSetShaderTexture "steel";
   CallSetShaderMaterial "glass";
   Draw BoxMesh;
   (* line 1553 *)
   AssignScale (mkVec3 0.5 10.5 7.6);
   AssignXrotation 0;
   AssignYrotation 0;
   AssignZrotation 0;
   AssignPosition (mkVec3 (-18) 6 (-0.8));
   CallSetTransformations;
   CallSetShaderColor 0.7 0.7 0.7 1;
   CallSetTextureUVScale 1 1;
   CallSetShaderTexture "steel";
   CallSetShaderMaterial "glass";
   Draw BoxMesh;
   (* line 1579 *)
   AssignScale (mkVec3 0.3 10.5 7.6);
   AssignXrotation 0;
   AssignYrotation 0;
   AssignZrotation 0;
   AssignPosition (mkVec3 (-16) 5.9999 (-0.8));
   CallSetTransformations;
   CallSetShaderColor 0.7 0.7 0.7 1;
   CallSetTextureUVScale 1 1;
   CallSetShaderTexture "steel";
   CallSetShaderMaterial "glass";
   Draw BoxMesh;
   (* line 1605 *)
   AssignScale (mkVec3 0.3 7 2);
   AssignXrotation 0;
   AssignYrotation 0;
   AssignZrotation 0;
   AssignPosition (mkVec3 (-14.75) 7.55 4.6999);
   CallSetTransformations;
   CallSetShaderColor 0.7 0.7 0.7 1;
   CallSetTextureUVScale 1 1;
   CallSetShaderTexture "steel";
   CallSetShaderMaterial "glass";
   Draw BoxMesh;
   (* line 1631 *)
   AssignScale (mkVec3 0.3 7 2);
   AssignXrotation 0;
   AssignYrotation 0;
   AssignZrotation 0;
   AssignPosition (mkVec3 (-17.25) 7.55 4.6999);
   CallSetTransformations;
   CallSetShaderColor 0.7 0.7 0.7 1;
   CallSetTextureUVScale 1 1;
   CallSetShaderTexture "steel";
   CallSetShaderMaterial "glass";
   Draw BoxMesh;
   (* line 1657 *)
   AssignScale (mkVec3 0.3 7 2.5);
   AssignXrotation 0;
   AssignYrotation 90;
   AssignZrotation 0;
   AssignPosition (mkVec3 (-16) 7.55 3.85);
   CallSetTransformations;
   CallSetShaderColor 0.7 0.7 0.7 1;
   CallSetTextureUVScale 1 1;
   CallSetShaderTexture "steel";
   CallSetShaderMaterial "glass";
   Draw BoxMesh;
   (* line 1683 *)
   AssignScale (mkVec3 1.699 0.3 2.5);
   AssignXrotation 0;
   AssignYrotation 90;
   AssignZrotation 0;
   AssignPosition (mkVec3 (-16) 5.2 4.85);
   CallSetTransformations;
   CallSetShaderColor 0.7 0.7 0.7 1;
   CallSetTextureUVScale 1 1;
   CallSetShaderTexture "steel";
   CallSetShaderMaterial "glass";
   Draw BoxMesh;
   (* line 1709 *)
   AssignScale (mkVec3 6.5 10.5 1);
   AssignXrotation 0;
   AssignYrotation 0;
   AssignZrotation 0;
   AssignPosition (mkVec3 (-16) 5.799 3.1999);
   CallSetTransformations;
   CallSetShaderColor 0.7 0.7 0.7 1;
   CallSetTextureUVScale 1 1;
   CallSetShaderTexture "white_plastic";
   CallSetShaderMaterial "cement";
   Draw BoxMesh;
   (* line 1735 *)
   AssignScale (mkVec3 0.9 7 2);
   AssignXrotation 0;
   AssignYrotation 0;
   AssignZrotation 0;
   AssignPosition (mkVec3 (-14.15) 7.55 4.6999);
   CallSetTransformations;
   CallSetShaderColor 0.7 0.7 0.7 1;
   CallSetTextureUVScale 1 1;
   CallSetShaderTexture "white_plastic";
   CallSetShaderMaterial "cement";
   Draw BoxMesh;
   (* line 1761 *)
   AssignScale (mkVec3 0.9 7 2);
   AssignXrotation 0;
   AssignYrotation 0;
   AssignZrotation 0;
   AssignPosition (mkVec3 (-17.85) 7.55 4.6999);
   CallSetTransformations;
   CallSetShaderColor 0.7 0.7 0.7 1;
   CallSetTextureUVScale 1 1;
   CallSetShaderTexture "white_plastic";
   CallSetShaderMaterial "cement";
   Draw BoxMesh;
   (* line 1787 *)
   AssignScale (mkVec3 1 2 1);
   AssignXrotation 90;
   AssignYrotation 0;
   AssignZrotation 0;
   AssignPosition (mkVec3 (-16) 10 3.7);
   CallSetTransformations;
   CallSetShaderColor 0.7 0.7 0.7 1;
   CallSetTextureUVScale 1 1;
   CallSetShaderTexture "white_plastic";
   CallSetShaderMaterial "cement";
   Draw CylinderMesh;
   (* line 1813 *)
   AssignScale (mkVec3 2 1 2.4);
   AssignXrotation 0;
   AssignYrotation 0;
   AssignZrotation 0;
   AssignPosition (mkVec3 (-16) 9.5 4.499);
   CallSetTransformations;
   CallSetShaderColor 0.7 0.7 0.7 1;
   CallSetTextureUVScale 1 1;
   CallSetShaderTexture "white_plastic";
   CallSetShaderMaterial "cement";
   Draw BoxMesh;
   (* line 1839 *)
   AssignScale (mkVec3 1 0.75 1);
   AssignXrotation 90;
   AssignYrotation 0;
   AssignZrotation 0;
   AssignPosition (mkVec3 (-16) 3.5 5.499);
   CallSetTransformations;
   CallSetShaderColor 0.7 0.7 0.7 1;
   CallSetTextureUVScale 1 1;
   CallSetShaderTexture "white_plastic";
   CallSetShaderMaterial "cement";
   Draw TaperedCylinderMesh;
   (* line 1865 *)
   AssignScale (mkVec3 0.2 1 0.2);
   AssignXrotation 90;
   AssignYrotation 90;
   AssignZrotation 0;
   AssignPosition (mkVec3 (-14) 3.5 5.7);
   CallSetTransformations;
   CallSetShaderColor 0.7 0.7 0.7 1;
   CallSetTextureUVScale 1 1;
   CallSetShaderTexture "white_plastic";
   CallSetShaderMaterial "cement";
   Draw CylinderMesh;
   (* line 1891 *)
   AssignScale (mkVec3 0.2 1 0.2);
   AssignXrotation 90;
   AssignYrotation 90;
   AssignZrotation 0;
   AssignPosition (mkVec3 (-14) 4.3 5.7);
   CallSetTransformations;
   CallSetShaderColor 0.7 0.7 0.7 1;
   CallSetTextureUVScale 1 1;
   CallSetShaderTexture "white_plastic";
   CallSetShaderMaterial "cement";
   Draw CylinderMesh;
   (* line 1917 *)
   AssignScale (mkVec3 0.2 1 0.2);
   AssignXrotation 90;
   AssignYrotation 90;
   AssignZrotation 0;
   AssignPosition (mkVec3 (-14) 5.1 5.7);
   CallSetTransformations;
   CallSetShaderColor 0.7 0.7 0.7 1;
   CallSetTextureUVScale 1 1;
   CallSetShaderTexture "white_plastic";
   CallSetShaderMaterial "cement";
   Draw CylinderMesh
  ].

(** [RenderScene]: [scaleXYZ] and [positionXYZ] are declared without an
    initialiser ([scale0], [position0] stand for their content), the three
    angles start at 0. *)
Definition RenderScene (scale0 position0 : vec3) (indeterminate : nat → OBJECT_MATERIAL)
    : M Program unit :=
  exec_statements indeterminate 0 (mkLocals scale0 0 0 0 position0) RenderScene_body;;
  mret tt.

(** ** The member functions as a command language *)

Inductive MemberCall : Type :=
| DoCreateGLTexture (filename tag0 : string)
| DoBindGLTextures
| DoDestroyGLTextures
| DoLoadSceneTextures
| DoDefineObjectMaterials
| DoSetupSceneLights
| DoBinder (op : binder_op)
| DoPrepareScene
| DoRenderScene (scale0 position0 : vec3) (indeterminate : nat → OBJECT_MATERIAL).

Definition run_call (stbi_load : string → option Image) (c : MemberCall) : M Program unit :=
  match c with
  | DoCreateGLTexture f t => in_world (CreateGLTexture stbi_load f t);; mret tt
  | DoBindGLTextures => in_world BindGLTextures
  | DoDestroyGLTextures => in_world DestroyGLTextures
  | DoLoadSceneTextures => in_world (LoadSceneTextures stbi_load)
  | DoDefineObjectMaterials => in_world DefineObjectMaterials
  | DoSetupSceneLights => in_world SetupSceneLights
  | DoBinder op => in_world (run_op op)
  | DoPrepareScene => PrepareScene stbi_load
  | DoRenderScene s p i => RenderScene s p i
  end.

Fixpoint run_calls (stbi_load : string → option Image) (cs : list MemberCall)
    : M Program unit :=
  match cs with
  | [] => mret tt
  | c :: cs' => run_call stbi_load c;; run_calls stbi_load cs'
  end.

(** The handles of the registered textures are pairwise distinct names in use
    in the GL context, none of them 0. *)
Definition handles_ok (w : World) : Prop :=
  NoDup (ID <$> registered (scene w)) ∧
  ∀ id, id ∈ ID <$> registered (scene w) → id ≠ 0%N ∧ id ∈ gl_names (gl w).

(** What no member function undoes: [w'] has the registered tags of [w] in
    the same slots, the materials of [w] in the same places and the texture
    names of [w] still in use. *)
Definition extends (w w' : World) : Prop :=
  wf (scene w') ∧
  (tag <$> registered (scene w)) `prefix_of` (tag <$> registered (scene w')) ∧
  m_objectMaterials (scene w) `prefix_of` m_objectMaterials (scene w') ∧
  gl_names (gl w) ⊆ gl_names (gl w') ∧
  (is_Some (m_pShaderManager (scene w)) ↔ is_Some (m_pShaderManager (scene w'))) ∧
  (handles_ok w → handles_ok w').

Definition extends_program (p p' : Program) : Prop :=
  extends (world p) (world p') ∧
  loaded_meshes (m_basicMeshes p) `prefix_of` loaded_meshes (m_basicMeshes p') ∧
  draw_calls (m_basicMeshes p) `prefix_of` draw_calls (m_basicMeshes p').

(** A computation that only ever extends the state it starts from. *)
Definition steady {A} (m : M World A) : Prop :=
  ∀ w a w', wf (scene w) → m w = Ok (a, w') → extends w w'.

Definition steady_program {A} (m : M Program A) : Prop :=
  ∀ p a p', wf (scene (world p)) → m p = Ok (a, p') → extends_program p p'.

(** ** Texture lists *)

(** A file can be loaded: it decodes to a 3- or 4-channel image. *)
Definition loadable (stbi_load : string → option Image) (f : string) : bool :=
  match stbi_load f with
  | Some img => (colorChannels img =? 3) || (colorChannels img =? 4)
  | None => false
  end.

(** The loads of a list of (file, tag) pairs, results ignored. *)
Fixpoint load_pairs (stbi_load : string → option Image) (l : list (string * string))
    : M World unit :=
  match l with
  | [] => mret tt
  | (f, t) :: l' => CreateGLTexture stbi_load f t;; load_pairs stbi_load l'
  end.

(** The (file, tag) pairs of [LoadSceneTextures]. *)
Definition scene_textures : list (string * string) :=
  [("textures/steel.jpg", "steel");
   ("textures/obsidian.png", "obsidian");
   ("textures/orange.png", "orange");
   ("textures/black.jpg", "black");
   ("textures/tan.png", "tan");
   ("textures/taupe.jpg", "taupe");
   ("textures/white_wood.jpg", "white_wood");
   ("textures/redsq.png", "red_ceramic");
   ("textures/tileable_wood.jpg", "wood_log");
   ("textures/flower_tile.jpg", "flower_tile");
   ("textures/white_plastic.jpg", "white_plastic")].

(** The tags that end up registered: those of the pairs whose file can be
    loaded. *)
Definition loaded_tags (stbi_load : string → option Image) (l : list (string * string))
    : list string :=
  snd <$> filter (λ p, loadable stbi_load p.1 = true) l.

(** The materials pushed by [DefineObjectMaterials]. *)
Definition scene_materials : list OBJECT_MATERIAL :=
  [metalMaterial; cementMaterial; woodMaterial; tileMaterial;
   glassMaterial; clayMaterial; ceramicMaterial].

(** The meshes loaded by [PrepareScene]. *)
Definition scene_meshes : list Mesh :=
  [PlaneMesh; BoxMesh; ConeMesh; CylinderMesh;
   PrismMesh; TaperedCylinderMesh; SphereMesh; TorusMesh].

(** ** The uniform writes of a binder call *)

(** The (name, value) pairs a binder call writes, in order, on a scene
    manager with a shader manager attached. *)
Definition op_writes (s : SceneManager) (op : binder_op) : list (string * Uniform) :=
  match op with
  | OpTransform sc rx ry rz p => [(g_ModelName, UMat4 (modelView sc rx ry rz p))]
  | OpColor r g b a =>
      [(g_UseTextureName, UInt 0); (g_ColorValueName, UVec4 (mkVec4 r g b a))]
  | OpTexture t =>
      [(g_UseTextureName, UInt 1);
       (g_TextureValueName, USampler2D (slot_or_sentinel (findSlot (registered s) t)))]
  | OpUVScale u v => [("UVscale", UVec2 (mkVec2 u v))]
  | OpMaterial i t =>
      match m_objectMaterials s with
      | [] => []
      | _ =>
          let m := match lookup_material (m_objectMaterials s) t with
                   | Some e => copy_material e i
                   | None => i
                   end in
          [("material.diffuseColor", UVec3 (diffuseColor m));
           ("material.specularColor", UVec3 (specularColor m));
           ("material.shininess", UFloat (shininess m))]
      end
  end.

(** The uniform names a binder call can write. *)
Definition op_names (op : binder_op) : list string :=
  match op with
  | OpTransform _ _ _ _ _ => [g_ModelName]
  | OpColor _ _ _ _ => [g_UseTextureName; g_ColorValueName]
  | OpTexture _ => [g_UseTextureName; g_TextureValueName]
  | OpUVScale _ _ => ["UVscale"]
  | OpMaterial _ _ =>
      ["material.diffuseColor"; "material.specularColor"; "material.shininess"]
  end.

(** Two calls of one member function with the same arguments: they can
    differ in what the uninitialised local of [SetShaderMaterial] holds. *)
Definition same_call (a a' : binder_op) : Prop :=
  match a, a' with
  | OpMaterial _ t, OpMaterial _ t' => t = t'
  | _, _ => a = a'
  end.

(** The call writes nothing of an uninitialised local: it is not a
    [SetShaderMaterial] for a tag that a non-empty catalogue does not
    have. *)
Definition settled (s : SceneManager) (op : binder_op) : Prop :=
  match op with
  | OpMaterial _ t =>
      m_objectMaterials s = [] ∨ is_Some (lookup_material (m_objectMaterials s) t)
  | _ => True
  end.

Definition apply_writes (ws : list (string * Uniform)) (sh : ShaderManager) : ShaderManager :=
  fold_left (λ acc kv, <[kv.1 := kv.2]> acc) ws sh.

(** The scene manager with another uniform store behind its shader manager. *)
Definition with_store (sh : ShaderManager) (w : World) : World :=
  mkWorld (gl w) (set_shader (Some sh) (scene w)).

(** ** Sample programs *)

Definition empty_program (pShaderManager : option ShaderManager) : Program :=
  mkProgram (empty_world pShaderManager) (mkShapeMeshes [] []).

(** The program state a computation ends in, or [p] when it faults. *)
Definition program_after {A} (m : M Program A) (p : Program) : Program :=
  match m p with
  | Ok (_, p') => p'
  | Fault _ => p
  end.

(** A session that loads, binds, defines materials, sets up the lights,
    selects a texture, tears the registry down and loads again, one of the
    loads being refused for its channel count. *)
Definition sample_calls : list MemberCall :=
  [DoCreateGLTexture "x.png" "steel";
   DoBindGLTextures;
   DoDefineObjectMaterials;
   DoSetupSceneLights;
   DoBinder (OpTexture "steel");
   DoBinder (OpMaterial zero_material "glass");
   DoDestroyGLTextures;
   DoCreateGLTexture "gray.png" "bad";
   DoCreateGLTexture "rgba.png" "glass"].

Definition sample_program : Program :=
  program_after (run_calls sample_files sample_calls) (empty_program (Some ∅)).

(** The (name, value) pairs [SetupSceneLights] writes, in order. *)
Definition light_writes : list (string * Uniform) :=
  [(g_UseLightingName, UBool true);
   ("pointLights[0].position", UVec3 (mkVec3 0 16 0));
   ("pointLights[0].ambient", UVec3 (mkVec3 0.05 0.05 0.05));
   ("pointLights[0].diffuse", UVec3 (mkVec3 0.6 0.6 0.6));
   ("pointLights[0].specular", UVec3 (mkVec3 0.75 0.75 0.75));
   ("pointLights[0].bActive", UBool true);
   ("pointLights[1].position", UVec3 (mkVec3 20 16 0));
   ("pointLights[1].ambient", UVec3 (mkVec3 0.05 0.05 0.05));
   ("pointLights[1].diffuse", UVec3 (mkVec3 0.6 0.6 0.6));
   ("pointLights[1].specular", UVec3 (mkVec3 0.75 0.75 0.75));
   ("pointLights[1].bActive", UBool true);
   ("pointLights[2].position", UVec3 (mkVec3 (-20) 16 0));
   ("pointLights[2].ambient", UVec3 (mkVec3 0.05 0.05 0.05));
   ("pointLights[2].diffuse", UVec3 (mkVec3 0.6 0.6 0.6));
   ("pointLights[2].specular", UVec3 (mkVec3 0.75 0.75 0.75));
   ("pointLights[2].bActive", UBool true);
   ("directionalLight.direction", UVec3 (mkVec3 4 20 (-4)));
   ("directionLight.ambient", UVec3 (mkVec3 0.05 0.05 0.05));
   ("directionLight.diffuse", UVec3 (mkVec3 0.6 0.6 0.6));
   ("directionLight.specular", UVec3 (mkVec3 0 0 0))].

(** A file system in which every path decodes to a 1x1 RGB image. *)
Definition every_file_rgb (f : string) : option Image :=
  Some (mkImage 1 1 3 [Byte.xff; Byte.x80; Byte.x00]).

(** The program after one [PrepareScene] with every file readable. *)
Definition prepared_program : Program :=
  program_after (PrepareScene every_file_rgb) (empty_program (Some ∅)).

(** The program after [PrepareScene], given the world [w1] its texture loads
    end in and the uniform store [sh] behind the shader manager. *)
Definition prepared (p : Program) (w1 : World) (sh : ShaderManager) : Program :=
  mkProgram
    (with_store (apply_writes light_writes sh)
       (mkWorld (gl w1)
          (set_objectMaterials (m_objectMaterials (scene w1) ++ scene_materials)
                               (scene w1))))
    (mkShapeMeshes (loaded_meshes (m_basicMeshes p) ++ scene_meshes)
                   (draw_calls (m_basicMeshes p))).


(** ** What a draw call sees *)

Inductive DrawMode : Type :=
| Flat (color : vec4)      (* bUseTexture false, objectColor set *)
| Textured (slot : Z).     (* bUseTexture true, objectTexture set *)

(** The draw state the statements executed so far have set: the locals the
    last [SetTransformations] was called with, the mode chosen by the last of
    [SetShaderColor] and [SetShaderTexture], the last UV scale, and the
    catalogue entry the last [SetShaderMaterial] found.  [None] is a part
    that is not known to be set. *)
Record DrawState : Type := mkDrawState {
  ds_transform : option Locals;
  ds_mode : option DrawMode;
  ds_uv : option vec2;
  ds_material : option OBJECT_MATERIAL
}.

Definition no_draw_state : DrawState := mkDrawState None None None None.

(** The slot [FindTextureSlot] returns in a registry with the tags [tags]. *)
Definition slot_of_tag (tags : list string) (t : string) : Z :=
  slot_or_sentinel (fst <$> list_find (λ x, x = t) tags).

(** The draw state after one statement, in a scene manager whose registered
    tags are [tags] and whose catalogue is [catalog]. *)
Definition draw_state_step (tags : list string) (catalog : list OBJECT_MATERIAL)
    (l : Locals) (σ : DrawState) (s : Statement) : DrawState :=
  match s with
  | CallSetTransformations =>
      mkDrawState (Some l) (ds_mode σ) (ds_uv σ) (ds_material σ)
  | CallSetShaderColor r g b a =>
      mkDrawState (ds_transform σ) (Some (Flat (mkVec4 r g b a))) (ds_uv σ) (ds_material σ)
  | CallSetShaderTexture t =>
      mkDrawState (ds_transform σ) (Some (Textured (slot_of_tag tags t))) (ds_uv σ)
                  (ds_material σ)
  | CallSetTextureUVScale u v =>
      mkDrawState (ds_transform σ) (ds_mode σ) (Some (mkVec2 u v)) (ds_material σ)
  | CallSetShaderMaterial t =>
      match catalog with
      | [] => σ
      | _ => mkDrawState (ds_transform σ) (ds_mode σ) (ds_uv σ) (lookup_material catalog t)
      end
  | _ => σ
  end.

(** The locals after one statement. *)
Definition locals_step (l : Locals) (s : Statement) : Locals :=
  match s with
  | AssignScale v =>
      mkLocals v (XrotationDegrees l) (YrotationDegrees l) (ZrotationDegrees l) (positionXYZ l)
  | AssignXrotation d =>
      mkLocals (scaleXYZ l) d (YrotationDegrees l) (ZrotationDegrees l) (positionXYZ l)
  | AssignYrotation d =>
      mkLocals (scaleXYZ l) (XrotationDegrees l) d (ZrotationDegrees l) (positionXYZ l)
  | AssignZrotation d =>
      mkLocals (scaleXYZ l) (XrotationDegrees l) (YrotationDegrees l) d (positionXYZ l)
  | AssignPosition v =>
      mkLocals (scaleXYZ l) (XrotationDegrees l) (YrotationDegrees l) (ZrotationDegrees l) v
  | _ => l
  end.

(** The draws of a statement sequence, each with the draw state it is made
    in. *)
Fixpoint expected_draws (tags : list string) (catalog : list OBJECT_MATERIAL)
    (l : Locals) (σ : DrawState) (body : list Statement) : list (Mesh * DrawState) :=
  match body with
  | [] => []
  | Draw k :: body' => (k, σ) :: expected_draws tags catalog l σ body'
  | s :: body' =>
      expected_draws tags catalog (locals_step l s) (draw_state_step tags catalog l σ s) body'
  end.

(** The uniform store [sh] holds the draw state [σ]. *)
Definition describes (σ : DrawState) (sh : ShaderManager) : Prop :=
  (∀ l, ds_transform σ = Some l →
        sh !! g_ModelName
        = Some (UMat4 (modelView (scaleXYZ l) (XrotationDegrees l) (YrotationDegrees l)
                                 (ZrotationDegrees l) (positionXYZ l)))) ∧
  (∀ c, ds_mode σ = Some (Flat c) →
        sh !! g_UseTextureName = Some (UInt 0) ∧ sh !! g_ColorValueName = Some (UVec4 c)) ∧
  (∀ i, ds_mode σ = Some (Textured i) →
        sh !! g_UseTextureName = Some (UInt 1) ∧
        sh !! g_TextureValueName = Some (USampler2D i)) ∧
  (∀ uv, ds_uv σ = Some uv → sh !! "UVscale" = Some (UVec2 uv)) ∧
  (∀ e, ds_material σ = Some e →
        sh !! "material.diffuseColor" = Some (UVec3 (diffuseColor e)) ∧
        sh !! "material.specularColor" = Some (UVec3 (specularColor e)) ∧
        sh !! "material.shininess" = Some (UFloat (shininess e))).

(** A draw state is complete for a registry of [n] textures: the transform
    and the material are set, and the mode is flat colour or a texture in a
    slot of the registry. *)
Definition draw_ready (n : Z) (x : Mesh * DrawState) : bool :=
  bool_decide (x.1 ∈ scene_meshes) &&
  bool_decide (is_Some (ds_transform x.2)) &&
  match ds_mode x.2 with
  | Some (Flat _) => true
  | Some (Textured i) => (0 <=? i) && (i <? n)
  | None => false
  end &&
  match ds_material x.2 with
  | Some _ => true
  | None => false
  end.

Definition is_textured (x : Mesh * DrawState) : bool :=
  match ds_mode x.2 with
  | Some (Textured _) => true
  | _ => false
  end.

(** Every material tag used by the statements is in the catalogue. *)
Definition materials_found (catalog : list OBJECT_MATERIAL) (body : list Statement) : bool :=
  forallb (λ s, match s with
                | CallSetShaderMaterial t =>
                    match lookup_material catalog t with Some _ => true | None => false end
                | _ => true
                end) body.

(** A draw call made with its transform, its material and a valid mode in
    place, for a registry of [n] textures whose catalogue is [catalog]. *)
Definition good_draw (n : Z) (catalog : list OBJECT_MATERIAL) (d : DrawCall) : Prop :=
  dc_mesh d ∈ scene_meshes ∧
  ∃ sh,
    dc_uniforms d = Some sh ∧
    (∃ m, sh !! g_ModelName = Some (UMat4 m)) ∧
    ((sh !! g_UseTextureName = Some (UInt 1) ∧
      ∃ i, sh !! g_TextureValueName = Some (USampler2D i) ∧ 0 ≤ i < n) ∨
     (sh !! g_UseTextureName = Some (UInt 0) ∧
      ∃ c, sh !! g_ColorValueName = Some (UVec4 c))) ∧
    (∃ e, e ∈ catalog ∧
          sh !! "material.diffuseColor" = Some (UVec3 (diffuseColor e)) ∧
          sh !! "material.specularColor" = Some (UVec3 (specularColor e)) ∧
          sh !! "material.shininess" = Some (UFloat (shininess e))).

(** The meshes a statement sequence draws, in order. *)
Fixpoint draws_of (body : list Statement) : list Mesh :=
  match body with
  | [] => []
  | Draw k :: body' => k :: draws_of body'
  | _ :: body' => draws_of body'
  end.

Definition sets_material (s : Statement) : bool :=
  match s with
  | CallSetShaderMaterial _ => true
  | _ => false
  end.

(** The locals of [RenderScene] at its first statement. *)
Definition render_locals (scale0 position0 : vec3) : Locals :=
  mkLocals scale0 0 0 0 position0.

(** A draw issued under a null shader manager. *)
Definition blind_draw (k : Mesh) : DrawCall := mkDrawCall k None.

(** The value of [bUseTexture] at the draws of [RenderScene], in order: the
    sixth draw is the only one made in flat colour. *)
Definition render_flags : list bool :=
  (λ i, negb (Nat.eqb i 5)) <$> seq 0 52.

(** A program with the seven materials defined and no shader manager. *)
Definition unlit_program : Program :=
  program_after (in_world DefineObjectMaterials) (empty_program None).

(** * binary32 arithmetic *)

(** [float] in the source is IEEE binary32: results are rounded, and there
    are values that are not numbers.  The model above computes in the reals,
    which settles in which order [SetTransformations] composes its matrices;
    what the entries of the matrix are when a result is rounded, overflows
    or is not a number is settled in the model below. *)
Module Binary32.
Local Open Scope R_scope.

(** A binary32 value: a finite number, or one of the values that are not
    (the two infinities and the NaNs, which addition, subtraction and
    multiplication never lead out of).  The two zeros are one value here, so
    equality is the comparison [==] of the source language on finite
    values. *)
Inductive float : Type :=
| Finite (x : R)
| NotFinite.

(** The operations of binary32 on bit patterns, as IEEE 754 defines them
    (24 bits of precision, exponents below 128): the clauses of [fadd],
    [fsub] and [fmul] below for operands that are not finite, and for a zero
    operand, are checked against them. *)
Definition ieee_add : spec_float → spec_float → spec_float := SFadd 24 128.
Definition ieee_sub : spec_float → spec_float → spec_float := SFsub 24 128.
Definition ieee_mul : spec_float → spec_float → spec_float := SFmul 24 128.

Definition ieee_finite (x : spec_float) : bool :=
  match x with
  | S754_zero _ | S754_finite _ _ _ => true
  | S754_infinity _ | S754_nan => false
  end.

Definition ieee_zero (x : spec_float) : bool :=
  match x with
  | S754_zero _ => true
  | _ => false
  end.

(** What the platform supplies: the rounding of an exact result to binary32
    ([NotFinite] on overflow), [cos] and [sin] of the C library, and GLM's
    [inversesqrt]. *)
Class Arithmetic : Type := mkArithmetic {
  rnd : R → float;
  cosf : float → float;
  sinf : float → float;
  inversesqrt : float → float
}.

Record vec3 : Type := mkVec3 { v3x : float; v3y : float; v3z : float }.
Record vec4 : Type := mkVec4 { v4x : float; v4y : float; v4z : float; v4w : float }.
(** [glm::mat4] is column-major: four column vectors. *)
Record mat4 : Type := mkMat4 { col0 : vec4; col1 : vec4; col2 : vec4; col3 : vec4 }.

(** The 4x4 matrix uniforms of the shader manager. *)
Definition Mat4Uniforms : Type := gmap string mat4.

Section Operations.
Context {A : Arithmetic}.

(** [a + b], [a - b] and [a * b] on [float]. *)
Definition fadd (a b : float) : float :=
  match a, b with
  | Finite x, Finite y => rnd (x + y)
  | _, _ => NotFinite
  end.
Definition fsub (a b : float) : float :=
  match a, b with
  | Finite x, Finite y => rnd (x - y)
  | _, _ => NotFinite
  end.
Definition fmul (a b : float) : float :=
  match a, b with
  | Finite x, Finite y => rnd (x * y)
  | _, _ => NotFinite
  end.

Definition vec4_scale (v : vec4) (k : float) : vec4 :=
  mkVec4 (fmul (v4x v) k) (fmul (v4y v) k) (fmul (v4z v) k) (fmul (v4w v) k).
Definition vec4_add (a b : vec4) : vec4 :=
  mkVec4 (fadd (v4x a) (v4x b)) (fadd (v4y a) (v4y b))
         (fadd (v4z a) (v4z b)) (fadd (v4w a) (v4w b)).

(** [mat4(1.0f)]. *)
Definition mat4_1 : mat4 :=
  mkMat4 (mkVec4 (Finite 1) (Finite 0) (Finite 0) (Finite 0))
         (mkVec4 (Finite 0) (Finite 1) (Finite 0) (Finite 0))
         (mkVec4 (Finite 0) (Finite 0) (Finite 1) (Finite 0))
         (mkVec4 (Finite 0) (Finite 0) (Finite 0) (Finite 1)).

(** [m * v]. *)
Definition mul_vec (m : mat4) (v : vec4) : vec4 :=
  vec4_add (vec4_add (vec4_add (vec4_scale (col0 m) (v4x v))
                               (vec4_scale (col1 m) (v4y v)))
                     (vec4_scale (col2 m) (v4z v)))
           (vec4_scale (col3 m) (v4w v)).

(** [a * b] on [mat4]. *)
Definition mul (a b : mat4) : mat4 :=
  mkMat4 (mul_vec a (col0 b)) (mul_vec a (col1 b))
         (mul_vec a (col2 b)) (mul_vec a (col3 b)).

(** [glm::radians]: the product with the binary32 nearest to pi / 180,
    which is 9370165 / 2^29. *)
Definition radians (degrees : float) : float :=
  fmul degrees (Finite (9370165 / 536870912)).

(** [glm::normalize] on [vec3]: [v * inversesqrt(dot(v, v))]. *)
Definition normalize (v : vec3) : vec3 :=
  let k := inversesqrt (fadd (fadd (fmul (v3x v) (v3x v)) (fmul (v3y v) (v3y v)))
                             (fmul (v3z v) (v3z v))) in
  mkVec3 (fmul (v3x v) k) (fmul (v3y v) k) (fmul (v3z v) k).

(** [glm::scale(m, v)]. *)
Definition scale_m (m : mat4) (v : vec3) : mat4 :=
  mkMat4 (vec4_scale (col0 m) (v3x v)) (vec4_scale (col1 m) (v3y v))
         (vec4_scale (col2 m) (v3z v)) (col3 m).

(** [glm::translate(m, v)]. *)
Definition translate_m (m : mat4) (v : vec3) : mat4 :=
  mkMat4 (col0 m) (col1 m) (col2 m)
         (vec4_add (vec4_add (vec4_add (vec4_scale (col0 m) (v3x v))
                                       (vec4_scale (col1 m) (v3y v)))
                             (vec4_scale (col2 m) (v3z v)))
                   (col3 m)).

(** [glm::rotate(m, angle, v)]. *)
Definition rotate_m (m : mat4) (angle : float) (v : vec3) : mat4 :=
  let c := cosf angle in
  let s := sinf angle in
  let axis := normalize v in
  let temp := mkVec3 (fmul (fsub (Finite 1) c) (v3x axis))
                     (fmul (fsub (Finite 1) c) (v3y axis))
                     (fmul (fsub (Finite 1) c) (v3z axis)) in
  let r00 := fadd c (fmul (v3x temp) (v3x axis)) in
  let r01 := fadd (fmul (v3x temp) (v3y axis)) (fmul s (v3z axis)) in
  let r02 := fsub (fmul (v3x temp) (v3z axis)) (fmul s (v3y axis)) in
  let r10 := fsub (fmul (v3y temp) (v3x axis)) (fmul s (v3z axis)) in
  let r11 := fadd c (fmul (v3y temp) (v3y axis)) in
  let r12 := fadd (fmul (v3y temp) (v3z axis)) (fmul s (v3x axis)) in
  let r20 := fadd (fmul (v3z temp) (v3x axis)) (fmul s (v3y axis)) in
  let r21 := fsub (fmul (v3z temp) (v3y axis)) (fmul s (v3x axis)) in
  let r22 := fadd c (fmul (v3z temp) (v3z axis)) in
  mkMat4
    (vec4_add (vec4_add (vec4_scale (col0 m) r00) (vec4_scale (col1 m) r01))
              (vec4_scale (col2 m) r02))
    (vec4_add (vec4_add (vec4_scale (col0 m) r10) (vec4_scale (col1 m) r11))
              (vec4_scale (col2 m) r12))
    (vec4_add (vec4_add (vec4_scale (col0 m) r20) (vec4_scale (col1 m) r21))
              (vec4_scale (col2 m) r22))
    (col3 m).

(** The overloads of [glm/gtx/transform.hpp], which start from [mat4(1)]. *)
Definition scale (v : vec3) : mat4 := scale_m mat4_1 v.
Definition translate (v : vec3) : mat4 := translate_m mat4_1 v.
Definition rotate (angle : float) (v : vec3) : mat4 := rotate_m mat4_1 angle v.

(** [SetTransformations] on the shader manager [m_pShaderManager] points to
    ([None] for a null pointer); the result is the shader manager after the
    call. *)
Definition SetTransformations (scaleXYZ : vec3) (XrotationDegrees YrotationDegrees
    ZrotationDegrees : float) (positionXYZ : vec3)
    (m_pShaderManager : option Mat4Uniforms) : option Mat4Uniforms :=
  let scale := scale scaleXYZ in
  let rotationX :=
    rotate (radians XrotationDegrees) (mkVec3 (Finite 1) (Finite 0) (Finite 0)) in
  let rotationY :=
    rotate (radians YrotationDegrees) (mkVec3 (Finite 0) (Finite 1) (Finite 0)) in
  let rotationZ :=
    rotate (radians ZrotationDegrees) (mkVec3 (Finite 0) (Finite 0) (Finite 1)) in
  let translation := translate positionXYZ in
  let modelView := mul (mul (mul (mul translation rotationZ) rotationY) rotationX) scale in
  match m_pShaderManager with
  | Some sh => Some (<[g_ModelName := modelView]> sh)
  | None => None
  end.

(** [x] is a binary32 value: rounding leaves it as it is. *)
Definition representable (x : R) : Prop := rnd x = Finite x.

(** A finite binary32 value. *)
Definition number (a : float) : Prop := ∃ x, a = Finite x ∧ representable x.

(** A finite value of magnitude at most 2^n. *)
Definition bounded (n : nat) (a : float) : Prop :=
  ∃ x, a = Finite x ∧ Rabs x <= 2 ^ n.

(** A column of the linear part of an affine matrix: three entries of
    magnitude at most 2^n above a zero. *)
Definition direction (n : nat) (v : vec4) : Prop :=
  bounded n (v4x v) ∧ bounded n (v4y v) ∧ bounded n (v4z v) ∧ v4w v = Finite 0.

(** The last column of an affine matrix: three binary32 values above a
    one. *)
Definition point (v : vec4) : Prop :=
  ∃ x y z, v = mkVec4 (Finite x) (Finite y) (Finite z) (Finite 1) ∧
           representable x ∧ representable y ∧ representable z.

Definition affine (n : nat) (m : mat4) : Prop :=
  direction n (col0 m) ∧ direction n (col1 m) ∧ direction n (col2 m) ∧ point (col3 m).

(** An affine matrix that does not translate. *)
Definition linear (n : nat) (m : mat4) : Prop :=
  direction n (col0 m) ∧ direction n (col1 m) ∧ direction n (col2 m) ∧
  col3 m = col3 mat4_1.

End Operations.

(** The facts of IEEE 754 arithmetic and of the C library the proofs rest on:
    0 and 1 are binary32 values; a binary32 value is below 2^128; rounding
    does not lead over a power of two (these are binary32 values up to
    2^127, and rounding is monotone); [cos] and [sin] of a finite value lie
    in [-1, 1] and those of an infinity or a NaN are NaN; and 1 / sqrt(1)
    is 1. *)
Class IEEE (A : Arithmetic) : Prop := {
  representable_0 : representable 0;
  representable_1 : representable 1;
  representable_below : ∀ x : R, representable x → Rabs x <= 2 ^ 128;
  rnd_bounded : ∀ (n : nat) (x : R),
    (n ≤ 126)%nat → Rabs x <= 2 ^ n → ∃ y, rnd x = Finite y ∧ Rabs y <= 2 ^ n;
  cosf_finite : ∀ x : R, ∃ y, cosf (Finite x) = Finite y ∧ Rabs y <= 1;
  sinf_finite : ∀ x : R, ∃ y, sinf (Finite x) = Finite y ∧ Rabs y <= 1;
  cosf_not_finite : cosf NotFinite = NotFinite;
  sinf_not_finite : sinf NotFinite = NotFinite;
  inversesqrt_1 : inversesqrt (Finite 1) = Finite 1
}.

(** An arithmetic with these facts: results are rounded to the nearest
    multiple of 2^-20 and overflow above 2^127. *)
Definition grid_rnd (x : R) : float :=
  if Rle_dec (Rabs x) (2 ^ 127)
  then Finite (IZR (up (x * 2 ^ 20 - / 2)) / 2 ^ 20)
  else NotFinite.

Definition grid_fun (f : R → R) (a : float) : float :=
  match a with
  | Finite x => grid_rnd (f x)
  | NotFinite => NotFinite
  end.

Definition grid : Arithmetic :=
  mkArithmetic grid_rnd (grid_fun cos) (grid_fun sin) (grid_fun (λ x, 1 / sqrt x)).

(** The vector whose four components are not finite, and the zero vector. *)
Definition not_finite : vec4 := mkVec4 NotFinite NotFinite NotFinite NotFinite.
Definition zero4 : vec4 := mkVec4 (Finite 0) (Finite 0) (Finite 0) (Finite 0).

End Binary32.

(** * Proofs *)


(** ** Basic facts *)

Ltac unfold_monad :=
  unfold mbind, mret, M_bind, M_ret, get, modify, raise, reading, on_scene,
         gl_call, shader_call in *.

Lemma registered_length s : wf s → length (registered s) = Z.to_nat (m_loadedTextures s).
Proof.
  intros [Hl [H0 H1]]. unfold registered. rewrite length_take, Hl.
  unfold MAX_TEXTURES in *. lia.
Qed.

Lemma read_texture_Ok s i e :
  read_texture s i = Ok e →
  0 ≤ i < MAX_TEXTURES ∧ m_textureIDs s !! Z.to_nat i = Some e.
Proof.
  unfold read_texture, in_bounds. intros H.
  destruct (0 <=? i) eqn:E0; destruct (i <? MAX_TEXTURES) eqn:E1; simpl in H;
    try discriminate.
  destruct (m_textureIDs s !! Z.to_nat i) eqn:E; inversion H; subst.
  split; [lia | reflexivity].
Qed.

Lemma read_texture_wf s i :
  wf s → 0 ≤ i < MAX_TEXTURES →
  ∃ e, m_textureIDs s !! Z.to_nat i = Some e ∧ read_texture s i = Ok e.
Proof.
  intros [Hl _] Hi. unfold read_texture, in_bounds.
  destruct (lookup_lt_is_Some_2 (m_textureIDs s) (Z.to_nat i)) as [e He].
  { rewrite Hl. lia. }
  exists e. split; [exact He |].
  rewrite He.
  replace (0 <=? i) with true by (symmetry; apply Z.leb_le; lia).
  replace (i <? MAX_TEXTURES) with true by (symmetry; apply Z.ltb_lt; lia).
  reflexivity.
Qed.

Lemma read_registered s (k : nat) :
  wf s → Z.of_nat k < m_loadedTextures s →
  ∃ e, registered s !! k = Some e ∧ read_texture s (Z.of_nat k) = Ok e.
Proof.
  intros Hwf Hk. pose proof Hwf as [Hl [H0 H1]].
  destruct (read_texture_wf s (Z.of_nat k)) as [e [He Hr]]; [exact Hwf | lia |].
  exists e. split; [| exact Hr].
  unfold registered. rewrite lookup_take_lt by lia.
  rewrite Nat2Z.id in He. exact He.
Qed.

Lemma FindTextureSlot_loop_found fuel s t i slot :
  FindTextureSlot_loop fuel s t i true slot = Ok slot.
Proof. destruct fuel; simpl; rewrite andb_false_r; reflexivity. Qed.

(** The loop from index [k] on is the first-match search in the entries from
    [k] on. *)
Lemma FindTextureSlot_loop_spec s t :
  wf s →
  ∀ (n k fuel : nat) (slot : Z),
    Z.of_nat k + Z.of_nat n = m_loadedTextures s →
    (S n ≤ fuel)%nat →
    FindTextureSlot_loop fuel s t (Z.of_nat k) false slot =
    Ok (match list_find (λ e, tag e = t) (drop k (registered s)) with
        | Some (i, _) => Z.of_nat (k + i)
        | None => slot
        end).
Proof.
  intros Hwf. induction n as [| n IH]; intros k fuel slot Hk Hfuel.
  - destruct fuel; [lia |]. simpl.
    replace (Z.of_nat k <? m_loadedTextures s) with false
      by (symmetry; apply Z.ltb_ge; lia).
    simpl. rewrite drop_ge; [reflexivity |].
    rewrite registered_length by assumption. lia.
  - destruct fuel as [| fuel]; [lia |]. simpl.
    replace (Z.of_nat k <? m_loadedTextures s) with true
      by (symmetry; apply Z.ltb_lt; lia).
    simpl.
    destruct (read_registered s k Hwf) as [e [He Hr]]; [lia |].
    rewrite Hr. rewrite (drop_S _ _ _ He). simpl.
    destruct (String.eqb_spec (tag e) t) as [Heq | Hne].
    + rewrite FindTextureSlot_loop_found.
      rewrite decide_True by assumption. f_equal. lia.
    + rewrite decide_False by assumption.
      replace (Z.of_nat k + 1) with (Z.of_nat (S k)) by lia.
      rewrite IH by lia.
      destruct (list_find _ (drop (S k) (registered s))) as [[i x] |]; simpl;
        [f_equal; lia | reflexivity].
Qed.

Lemma FindTextureSlot_findSlot s t :
  wf s → FindTextureSlot s t = Ok (slot_or_sentinel (findSlot (registered s) t)).
Proof.
  intros Hwf. unfold FindTextureSlot, findSlot.
  pose proof Hwf as [_ [H0 _]].
  rewrite (FindTextureSlot_loop_spec s t Hwf (Z.to_nat (m_loadedTextures s)) 0)
    by lia.
  rewrite drop_0.
  destruct (list_find _ (registered s)) as [[i x] |]; reflexivity.
Qed.

Lemma FindTextureID_loop_found fuel s t i id :
  FindTextureID_loop fuel s t i true id = Ok id.
Proof. destruct fuel; simpl; rewrite andb_false_r; reflexivity. Qed.

Lemma FindTextureID_loop_spec s t :
  wf s →
  ∀ (n k fuel : nat) (id : Z),
    Z.of_nat k + Z.of_nat n = m_loadedTextures s →
    (S n ≤ fuel)%nat →
    FindTextureID_loop fuel s t (Z.of_nat k) false id =
    Ok (match list_find (λ e, tag e = t) (drop k (registered s)) with
        | Some (_, e) => int_of_GLuint (ID e)
        | None => id
        end).
Proof.
  intros Hwf. induction n as [| n IH]; intros k fuel id Hk Hfuel.
  - destruct fuel; [lia |]. simpl.
    replace (Z.of_nat k <? m_loadedTextures s) with false
      by (symmetry; apply Z.ltb_ge; lia).
    simpl. rewrite drop_ge; [reflexivity |].
    rewrite registered_length by assumption. lia.
  - destruct fuel as [| fuel]; [lia |]. simpl.
    replace (Z.of_nat k <? m_loadedTextures s) with true
      by (symmetry; apply Z.ltb_lt; lia).
    simpl.
    destruct (read_registered s k Hwf) as [e [He Hr]]; [lia |].
    rewrite Hr. rewrite (drop_S _ _ _ He). simpl.
    destruct (String.eqb_spec (tag e) t) as [Heq | Hne].
    + rewrite FindTextureID_loop_found.
      rewrite decide_True by assumption. reflexivity.
    + rewrite decide_False by assumption.
      replace (Z.of_nat k + 1) with (Z.of_nat (S k)) by lia.
      rewrite IH by lia.
      destruct (list_find _ (drop (S k) (registered s))) as [[i x] |];
        reflexivity.
Qed.

Lemma FindTextureID_findHandle s t :
  wf s → FindTextureID s t = Ok (handle_or_sentinel (findHandle (registered s) t)).
Proof.
  intros Hwf. unfold FindTextureID, findHandle.
  pose proof Hwf as [_ [H0 _]].
  rewrite (FindTextureID_loop_spec s t Hwf (Z.to_nat (m_loadedTextures s)) 0)
    by lia.
  rewrite drop_0.
  destruct (list_find _ (registered s)) as [[i x] |]; reflexivity.
Qed.

(** *** The material loop *)

Lemma FindMaterial_loop_found fuel ms t i m :
  FindMaterial_loop fuel ms t i true m = Ok m.
Proof. destruct fuel; simpl; rewrite andb_false_r; reflexivity. Qed.

Lemma FindMaterial_loop_spec ms t :
  ∀ (n k fuel : nat) (m : OBJECT_MATERIAL),
    (k + n = length ms)%nat →
    (S n ≤ fuel)%nat →
    FindMaterial_loop fuel ms t (Z.of_nat k) false m =
    Ok (match list_find (λ e, mtag e = t) (drop k ms) with
        | Some (_, e) => copy_material e m
        | None => m
        end).
Proof.
  induction n as [| n IH]; intros k fuel m Hk Hfuel.
  - destruct fuel; [lia |]. simpl.
    replace (Z.of_nat k <? Z.of_nat (length ms)) with false
      by (symmetry; apply Z.ltb_ge; lia).
    simpl. rewrite drop_ge by lia. reflexivity.
  - destruct fuel as [| fuel]; [lia |]. simpl.
    replace (Z.of_nat k <? Z.of_nat (length ms)) with true
      by (symmetry; apply Z.ltb_lt; lia).
    simpl. rewrite Nat2Z.id.
    destruct (lookup_lt_is_Some_2 ms k) as [e He]; [lia |].
    rewrite He. rewrite (drop_S _ _ _ He). simpl.
    destruct (String.eqb_spec (mtag e) t) as [Heq | Hne].
    + rewrite FindMaterial_loop_found.
      rewrite decide_True by assumption. reflexivity.
    + rewrite decide_False by assumption.
      replace (Z.of_nat k + 1) with (Z.of_nat (S k)) by lia.
      rewrite IH by lia.
      destruct (list_find _ (drop (S k) ms)) as [[i x] |]; reflexivity.
Qed.

(** [FindMaterial] never faults; its [bool] is the non-emptiness of the
    catalogue and [material] is overwritten by the first match, if any. *)
Lemma FindMaterial_lookup s t m :
  FindMaterial s t m =
  Ok (negb (bool_decide (m_objectMaterials s = [])),
      match lookup_material (m_objectMaterials s) t with
      | Some e => copy_material e m
      | None => m
      end).
Proof.
  unfold FindMaterial, lookup_material.
  destruct (m_objectMaterials s) as [| e ms] eqn:E.
  - reflexivity.
  - replace (Z.of_nat (length (e :: ms)) =? 0) with false
      by (symmetry; apply Z.eqb_neq; simpl; lia).
    rewrite (FindMaterial_loop_spec (e :: ms) t (length (e :: ms)) 0) by (simpl; lia).
    rewrite drop_0.
    destruct (list_find _ (e :: ms)) as [[i x] |]; reflexivity.
Qed.

(** *** Loading a texture *)

Lemma next_name_fresh g : next_name g ≠ 0%N ∧ next_name g ∉ gl_names g.
Proof.
  unfold next_name.
  pose proof (is_fresh ({[0%N]} ∪ gl_names g)) as H.
  split; set_solver.
Qed.

Lemma write_texture_wf i f w :
  wf (scene w) → 0 ≤ i < MAX_TEXTURES →
  ∃ e, m_textureIDs (scene w) !! Z.to_nat i = Some e ∧
       write_texture i f w =
       Ok (tt, mkWorld (gl w)
                 (set_textureIDs (<[Z.to_nat i := f e]> (m_textureIDs (scene w)))
                                 (scene w))).
Proof.
  intros Hwf Hi. destruct (read_texture_wf _ i Hwf Hi) as [e [He Hr]].
  exists e. split; [exact He |]. unfold write_texture. rewrite Hr. reflexivity.
Qed.

Lemma write_texture_fault i f w :
  ¬ (0 ≤ i < MAX_TEXTURES) → write_texture i f w = Fault OutOfBounds.
Proof.
  intros Hi. unfold write_texture, read_texture, in_bounds.
  destruct (0 <=? i) eqn:E0; destruct (i <? MAX_TEXTURES) eqn:E1; simpl;
    try reflexivity.
  exfalso. apply Hi. lia.
Qed.

Lemma wf_set_textureIDs_insert s i e :
  wf s → wf (set_textureIDs (<[i := e]> (m_textureIDs s)) s).
Proof.
  intros [Hl Hn]. split; simpl; [rewrite length_insert; exact Hl | exact Hn].
Qed.

Lemma register_texture_ok id t w :
  wf (scene w) → m_loadedTextures (scene w) < MAX_TEXTURES →
  register_texture id t w =
  Ok (true, mkWorld (glBindTexture 0%N (glGenerateMipmap (gl w)))
                    (registered_scene t id (scene w))).
Proof.
  intros Hwf Hn. pose proof Hwf as [Hl [H0 _]].
  unfold register_texture. unfold_monad. simpl.
  match goal with |- context [write_texture _ _ ?x] => set (w1 := x) end.
  destruct (write_texture_wf (m_loadedTextures (scene w)) (set_ID id) w1)
    as [e [He ->]]; [exact Hwf | simpl; lia |].
  match goal with |- context [write_texture _ _ ?x] => set (w2 := x) end.
  destruct (write_texture_wf (m_loadedTextures (scene w)) (set_tag t) w2)
    as [e' [He' ->]].
  { apply wf_set_textureIDs_insert. exact Hwf. }
  { lia. }
  subst w2 w1. simpl in *.
  rewrite list_lookup_insert_eq in He' by (rewrite Hl; unfold MAX_TEXTURES in *; lia).
  inversion He'; subst e'.
  rewrite list_insert_insert_eq. reflexivity.
Qed.

Lemma register_texture_fault id t w :
  ¬ (0 ≤ m_loadedTextures (scene w) < MAX_TEXTURES) →
  register_texture id t w = Fault OutOfBounds.
Proof.
  intros Hn. unfold register_texture. unfold_monad. simpl.
  rewrite write_texture_fault by exact Hn. reflexivity.
Qed.

Lemma gl_configured_names g : gl_names (gl_configured g) = {[next_name g]} ∪ gl_names g.
Proof. reflexivity. Qed.

Lemma gl_loaded_names fmt img g :
  gl_names (gl_loaded fmt img g) = {[next_name g]} ∪ gl_names g.
Proof. reflexivity. Qed.

Section Loading.
Variable stbi_load : string → option Image.

Lemma CreateGLTexture_unreadable f t w :
  stbi_load f = None → CreateGLTexture stbi_load f t w = Ok (false, w).
Proof. intros H. unfold CreateGLTexture. rewrite H. reflexivity. Qed.

Lemma CreateGLTexture_unsupported f t w img :
  stbi_load f = Some img → colorChannels img ≠ 3 → colorChannels img ≠ 4 →
  CreateGLTexture stbi_load f t w =
  Ok (false, mkWorld (gl_configured (gl w)) (scene w)).
Proof.
  intros H H3 H4. unfold CreateGLTexture. rewrite H.
  apply Z.eqb_neq in H3, H4.
  unfold_monad. unfold gl_gen. simpl. rewrite H3, H4. reflexivity.
Qed.

Lemma CreateGLTexture_supported f t w img :
  stbi_load f = Some img → colorChannels img = 3 ∨ colorChannels img = 4 →
  CreateGLTexture stbi_load f t w =
  register_texture (next_name (gl w)) t
    (mkWorld (glTexImage2D (format_of img) img (gl_configured (gl w))) (scene w)).
Proof.
  intros H Hc. unfold CreateGLTexture, format_of. rewrite H.
  unfold_monad. unfold gl_gen. simpl.
  destruct Hc as [-> | ->]; reflexivity.
Qed.

Lemma CreateGLTexture_registers f t w img :
  wf (scene w) → m_loadedTextures (scene w) < MAX_TEXTURES →
  stbi_load f = Some img → colorChannels img = 3 ∨ colorChannels img = 4 →
  CreateGLTexture stbi_load f t w =
  Ok (true, mkWorld (gl_loaded (format_of img) img (gl w))
                    (registered_scene t (next_name (gl w)) (scene w))).
Proof.
  intros Hwf Hn H Hc.
  rewrite (CreateGLTexture_supported f t w img H Hc).
  rewrite register_texture_ok by assumption. reflexivity.
Qed.

Lemma CreateGLTexture_overflow f t w img :
  ¬ (0 ≤ m_loadedTextures (scene w) < MAX_TEXTURES) →
  stbi_load f = Some img → colorChannels img = 3 ∨ colorChannels img = 4 →
  CreateGLTexture stbi_load f t w = Fault OutOfBounds.
Proof.
  intros Hn H Hc.
  rewrite (CreateGLTexture_supported f t w img H Hc).
  apply register_texture_fault. exact Hn.
Qed.

(** A load that returns [true] decoded a 3- or 4-channel image and found a
    free cell. *)
Lemma CreateGLTexture_true_inv f t w w' :
  wf (scene w) →
  CreateGLTexture stbi_load f t w = Ok (true, w') →
  ∃ img, stbi_load f = Some img ∧
         (colorChannels img = 3 ∨ colorChannels img = 4) ∧
         m_loadedTextures (scene w) < MAX_TEXTURES ∧
         w' = mkWorld (gl_loaded (format_of img) img (gl w))
                      (registered_scene t (next_name (gl w)) (scene w)).
Proof.
  intros Hwf H.
  destruct (stbi_load f) as [img |] eqn:E.
  2:{ rewrite CreateGLTexture_unreadable in H by assumption. discriminate. }
  exists img. split; [reflexivity |].
  destruct (decide (colorChannels img = 3)) as [H3 | H3];
    [| destruct (decide (colorChannels img = 4)) as [H4 | H4]].
  3:{ rewrite (CreateGLTexture_unsupported f t w img E H3 H4) in H. discriminate. }
  all: assert (Hc : colorChannels img = 3 ∨ colorChannels img = 4) by tauto.
  all: split; [exact Hc |].
  all: destruct (decide (m_loadedTextures (scene w) < MAX_TEXTURES)) as [Hn | Hn].
  all: try (rewrite (CreateGLTexture_registers f t w img Hwf Hn E Hc) in H;
            inversion H; subst; split; [exact Hn | reflexivity]).
  all: rewrite (CreateGLTexture_overflow f t w img) in H;
    [discriminate | lia | exact E | exact Hc].
Qed.

End Loading.

Lemma registered_scene_wf t id s :
  wf s → m_loadedTextures s < MAX_TEXTURES → wf (registered_scene t id s).
Proof.
  intros [Hl [H0 H1]] Hn. split; simpl.
  - rewrite length_insert. exact Hl.
  - lia.
Qed.

Lemma registered_scene_registered t id s :
  wf s → m_loadedTextures s < MAX_TEXTURES →
  registered (registered_scene t id s) = registered s ++ [mkTEXTURE_INFO t id].
Proof.
  intros [Hl [H0 H1]] Hn. unfold registered, registered_scene. simpl.
  replace (Z.to_nat (m_loadedTextures s + 1)) with (S (Z.to_nat (m_loadedTextures s)))
    by lia.
  set (n := Z.to_nat (m_loadedTextures s)).
  assert (Hlt : (n < length (m_textureIDs s))%nat)
    by (rewrite Hl; unfold MAX_TEXTURES in *; lia).
  erewrite take_S_r by (apply list_lookup_insert_eq; exact Hlt).
  rewrite take_insert_ge by lia. reflexivity.
Qed.

(** *** Binding *)

Lemma BindGLTextures_loop_spec :
  ∀ (n k fuel : nat) (w : World),
    wf (scene w) →
    Z.of_nat k + Z.of_nat n = m_loadedTextures (scene w) →
    (n ≤ fuel)%nat →
    ∃ g, BindGLTextures_loop fuel (Z.of_nat k) w = Ok (tt, mkWorld g (scene w)) ∧
         gl_names g = gl_names (gl w) ∧
         gl_objects g = gl_objects (gl w) ∧
         (∀ (j : nat) e, (k ≤ j)%nat → registered (scene w) !! j = Some e →
                         gl_bound g !! N.of_nat j = Some (ID e)) ∧
         (∀ j : nat, (j < k)%nat →
                     gl_bound g !! N.of_nat j = gl_bound (gl w) !! N.of_nat j).
Proof.
  induction n as [| n IH]; intros k fuel w Hwf Hk Hfuel.
  - exists (gl w). destruct fuel; simpl; unfold_monad;
      (replace (Z.of_nat k <? m_loadedTextures (scene w)) with false
        by (symmetry; apply Z.ltb_ge; lia)).
    all: split; [destruct w; reflexivity |].
    all: split; [reflexivity |]; split; [reflexivity |]; split; [| reflexivity].
    all: intros j e Hj He; apply lookup_lt_Some in He;
      rewrite registered_length in He by assumption; lia.
  - destruct fuel as [| fuel]; [lia |]. simpl. unfold_monad.
    replace (Z.of_nat k <? m_loadedTextures (scene w)) with true
      by (symmetry; apply Z.ltb_lt; lia).
    destruct (read_registered (scene w) k Hwf) as [e [He Hr]]; [lia |].
    rewrite Hr. simpl.
    replace (Z.of_nat k + 1) with (Z.of_nat (S k)) by lia.
    match goal with |- context [BindGLTextures_loop _ _ ?x] => set (w1 := x) end.
    destruct (IH (S k) fuel w1) as [g [Hrun [Hnames [Hobjs [Hhi Hlo]]]]];
      [exact Hwf | simpl; lia | lia |].
    exists g. split; [exact Hrun |].
    split; [exact Hnames |]. split; [exact Hobjs |]. split.
    + intros j e' Hj He'. destruct (decide (j = k)) as [-> | Hne].
      * rewrite Hlo by lia. subst w1. simpl.
        replace (Z.to_N (Z.of_nat k)) with (N.of_nat k) by lia.
        rewrite lookup_insert_eq. congruence.
      * apply Hhi; [lia | exact He'].
    + intros j Hj. rewrite Hlo by lia. subst w1. simpl.
      replace (Z.to_N (Z.of_nat k)) with (N.of_nat k) by lia.
      apply lookup_insert_ne. lia.
Qed.

(** [BindGLTextures] binds the [i]-th registered texture on unit [i] and
    changes nothing else. *)
Lemma BindGLTextures_spec w :
  wf (scene w) →
  ∃ g, BindGLTextures w = Ok (tt, mkWorld g (scene w)) ∧
       gl_names g = gl_names (gl w) ∧
       ∀ (j : nat) e, registered (scene w) !! j = Some e →
                      gl_bound g !! N.of_nat j = Some (ID e).
Proof.
  intros Hwf. pose proof Hwf as [_ [H0 _]].
  destruct (BindGLTextures_loop_spec (Z.to_nat (m_loadedTextures (scene w))) 0
              (Z.to_nat (m_loadedTextures (scene w))) w Hwf)
    as [g [Hrun [Hnames [_ [Hhi _]]]]]; [lia | lia |].
  exists g. split; [exact Hrun |]. split; [exact Hnames |].
  intros j e He. apply Hhi; [lia | exact He].
Qed.

(** *** Teardown *)

Lemma DestroyGLTextures_loop_spec :
  ∀ (n k fuel : nat) (w : World),
    wf (scene w) →
    Z.of_nat k + Z.of_nat n = m_loadedTextures (scene w) →
    (n ≤ fuel)%nat →
    ∃ w', DestroyGLTextures_loop fuel (Z.of_nat k) w = Ok (tt, w') ∧
          wf (scene w') ∧
          m_loadedTextures (scene w') = m_loadedTextures (scene w) ∧
          tag <$> m_textureIDs (scene w') = tag <$> m_textureIDs (scene w) ∧
          m_pShaderManager (scene w') = m_pShaderManager (scene w) ∧
          m_objectMaterials (scene w') = m_objectMaterials (scene w) ∧
          gl_names (gl w) ⊆ gl_names (gl w') ∧
          size (gl_names (gl w')) = (size (gl_names (gl w)) + n)%nat.
Proof.
  induction n as [| n IH]; intros k fuel w Hwf Hk Hfuel.
  - exists w. destruct fuel; simpl; unfold_monad;
      (replace (Z.of_nat k <? m_loadedTextures (scene w)) with false
        by (symmetry; apply Z.ltb_ge; lia)).
    all: repeat split; try reflexivity; try apply Hwf; lia.
  - destruct fuel as [| fuel]; [lia |]. simpl. unfold_monad.
    replace (Z.of_nat k <? m_loadedTextures (scene w)) with true
      by (symmetry; apply Z.ltb_lt; lia).
    unfold gl_gen. simpl.
    match goal with |- context [write_texture _ _ ?x] => set (w1 := x) end.
    pose proof Hwf as [Hl [H0 H1]].
    destruct (write_texture_wf (Z.of_nat k) (set_ID (next_name (gl w))) w1)
      as [e [He Hw]]; [exact Hwf | lia |].
    fold (next_name (gl w)). rewrite Hw.
    replace (Z.of_nat k + 1) with (Z.of_nat (S k)) by lia.
    match goal with |- context [DestroyGLTextures_loop _ _ ?x] => set (w2 := x) end.
    destruct (IH (S k) fuel w2)
      as [w' [Hrun [Hwf' [Hcount [Htags [Hsh [Hmat [Hsub Hsize]]]]]]]].
    { subst w2 w1. simpl. apply wf_set_textureIDs_insert. exact Hwf. }
    { subst w2 w1. simpl. lia. }
    { lia. }
    exists w'. split; [exact Hrun |]. split; [exact Hwf' |].
    destruct (next_name_fresh (gl w)) as [_ Hfresh].
    subst w2 w1; simpl in *.
    split; [exact Hcount |]. split.
    { rewrite Htags. rewrite list_fmap_insert. simpl.
      apply list_insert_id. rewrite list_lookup_fmap, He. reflexivity. }
    split; [exact Hsh |]. split; [exact Hmat |]. split.
    { set_solver. }
    rewrite Hsize. rewrite size_union by set_solver.
    rewrite size_singleton. lia.
Qed.

Lemma DestroyGLTextures_spec w :
  wf (scene w) →
  ∃ w', DestroyGLTextures w = Ok (tt, w') ∧
        wf (scene w') ∧
        m_loadedTextures (scene w') = m_loadedTextures (scene w) ∧
        tag <$> m_textureIDs (scene w') = tag <$> m_textureIDs (scene w) ∧
        gl_names (gl w) ⊆ gl_names (gl w') ∧
        size (gl_names (gl w')) =
          (size (gl_names (gl w)) + Z.to_nat (m_loadedTextures (scene w)))%nat.
Proof.
  intros Hwf. pose proof Hwf as [_ [H0 _]].
  destruct (DestroyGLTextures_loop_spec (Z.to_nat (m_loadedTextures (scene w))) 0
              (Z.to_nat (m_loadedTextures (scene w))) w Hwf)
    as [w' [Hrun [Hwf' [Hcount [Htags [_ [_ [Hsub Hsize]]]]]]]]; [lia | lia |].
  exists w'. split; [exact Hrun | tauto].
Qed.

(** The lookups depend on the tags of the registered entries only. *)
Lemma findSlot_tags reg reg' t :
  tag <$> reg = tag <$> reg' → findSlot reg t = findSlot reg' t.
Proof.
  intros H. unfold findSlot.
  assert (E : ∀ l, fst <$> list_find (λ e, tag e = t) l
                 = fst <$> list_find (λ x, x = t) (tag <$> l)).
  { intros l. rewrite list_find_fmap.
    destruct (list_find _ l) as [[i x] |]; reflexivity. }
  rewrite !E, H. reflexivity.
Qed.

Lemma registered_tags s s' :
  m_loadedTextures s' = m_loadedTextures s →
  tag <$> m_textureIDs s' = tag <$> m_textureIDs s →
  tag <$> registered s' = tag <$> registered s.
Proof.
  intros Hn Ht. unfold registered. rewrite !fmap_take, Hn, Ht. reflexivity.
Qed.

(** *** The binder on a well-formed scene with a shader manager *)

Lemma SetShaderTexture_spec t w sh :
  wf (scene w) → m_pShaderManager (scene w) = Some sh →
  SetShaderTexture t w =
  Ok (tt, mkWorld (gl w)
            (set_shader
               (Some (setSampler2DValue g_TextureValueName
                        (slot_or_sentinel (findSlot (registered (scene w)) t))
                        (setIntValue g_UseTextureName 1 sh)))
               (scene w))).
Proof.
  intros Hwf Hsh. unfold SetShaderTexture, has_shader. unfold_monad.
  rewrite Hsh. cbn [scene m_pShaderManager set_shader].
  rewrite Hsh.
  rewrite FindTextureSlot_findSlot by exact Hwf. reflexivity.
Qed.

Lemma SetShaderTexture_null t w :
  m_pShaderManager (scene w) = None → SetShaderTexture t w = Ok (tt, w).
Proof.
  intros H. unfold SetShaderTexture, has_shader. unfold_monad. rewrite H. reflexivity.
Qed.

Lemma SetShaderColor_spec r g b a w sh :
  m_pShaderManager (scene w) = Some sh →
  SetShaderColor r g b a w =
  Ok (tt, mkWorld (gl w)
            (set_shader
               (Some (setVec4Value g_ColorValueName (mkVec4 r g b a)
                        (setIntValue g_UseTextureName 0 sh)))
               (scene w))).
Proof.
  intros Hsh. unfold SetShaderColor, has_shader. unfold_monad.
  rewrite !Hsh. reflexivity.
Qed.

Lemma SetShaderColor_null r g b a w :
  m_pShaderManager (scene w) = None → SetShaderColor r g b a w = Ok (tt, w).
Proof.
  intros H. unfold SetShaderColor, has_shader. unfold_monad. rewrite H. reflexivity.
Qed.

Lemma findSlot_singleton_eq t id : findSlot [mkTEXTURE_INFO t id] t = Some 0%nat.
Proof. unfold findSlot. simpl. rewrite decide_True by reflexivity. reflexivity. Qed.

Lemma findSlot_singleton_ne t t' id :
  t' ≠ t → findSlot [mkTEXTURE_INFO t id] t' = None.
Proof.
  intros H. unfold findSlot. simpl. rewrite decide_False by congruence. reflexivity.
Qed.

Lemma registered_empty s : m_loadedTextures s = 0 → registered s = [].
Proof. intros H. unfold registered. rewrite H. reflexivity. Qed.

(** *** First match *)

Lemma findSlot_Some reg t i :
  findSlot reg t = Some i ↔
  ∃ e, reg !! i = Some e ∧ tag e = t ∧
       ∀ j e', (j < i)%nat → reg !! j = Some e' → tag e' ≠ t.
Proof.
  unfold findSlot. split.
  - intros H. apply fmap_Some in H as [[i' e] [Hf Hi]]. simpl in Hi. subst i'.
    apply list_find_Some in Hf as [He [Ht Hfirst]].
    exists e. split; [exact He |]. split; [exact Ht |].
    intros j e' Hj He'. exact (Hfirst j e' He' Hj).
  - intros [e [He [Ht Hfirst]]]. apply fmap_Some. exists (i, e).
    split; [| reflexivity]. apply list_find_Some.
    split; [exact He |]. split; [exact Ht |].
    intros j e' He' Hj. exact (Hfirst j e' Hj He').
Qed.

Lemma findSlot_None reg t :
  findSlot reg t = None ↔ ∀ e, e ∈ reg → tag e ≠ t.
Proof.
  unfold findSlot. rewrite fmap_None, list_find_None, Forall_forall. reflexivity.
Qed.

Lemma findSlot_app_l reg reg' t i :
  findSlot reg t = Some i → findSlot (reg ++ reg') t = Some i.
Proof.
  rewrite !findSlot_Some. intros [e [He [Ht Hfirst]]].
  exists e. split; [apply lookup_app_l_Some; exact He |]. split; [exact Ht |].
  intros j e' Hj He'. apply (Hfirst j e' Hj).
  rewrite lookup_app_l in He'; [exact He' |].
  apply lookup_lt_Some in He. lia.
Qed.

Lemma findSlot_app_r reg t id reg' :
  findSlot reg t = None →
  findSlot (reg ++ mkTEXTURE_INFO t id :: reg') t = Some (length reg).
Proof.
  rewrite findSlot_None, findSlot_Some. intros Hnone.
  exists (mkTEXTURE_INFO t id). split; [apply list_lookup_middle; reflexivity |].
  split; [reflexivity |].
  intros j e' Hj He'. apply Hnone.
  rewrite lookup_app_l in He' by exact Hj.
  apply list_elem_of_lookup. exists j. exact He'.
Qed.

(** [FindTextureSlot] returns the index of the first registered entry with
    the tag, and -1 exactly when no registered entry has it. *)
Lemma FindTextureSlot_first_match s t :
  wf s →
  (∀ i : nat,
      FindTextureSlot s t = Ok (Z.of_nat i) ↔
      ∃ e, registered s !! i = Some e ∧ tag e = t ∧
           ∀ j e', (j < i)%nat → registered s !! j = Some e' → tag e' ≠ t) ∧
  (FindTextureSlot s t = Ok (-1) ↔ ∀ e, e ∈ registered s → tag e ≠ t).
Proof.
  intros Hwf. rewrite FindTextureSlot_findSlot by exact Hwf. split.
  - intros i. rewrite <- findSlot_Some.
    destruct (findSlot (registered s) t) as [k |]; simpl; split; intros H;
      inversion H; try (f_equal; lia); try lia.
  - rewrite <- findSlot_None.
    destruct (findSlot (registered s) t) as [k |]; simpl; split; intros H;
      inversion H; try lia; reflexivity.
Qed.

(** *** GLM against the textbook matrices *)

Section GlmFacts.
Local Open Scope R_scope.

Lemma normalize_x : glm.normalize (mkVec3 1 0 0) = mkVec3 1 0 0.
Proof.
  unfold glm.normalize. simpl.
  replace (1 * 1 + 0 * 0 + 0 * 0) with 1 by ring.
  rewrite sqrt_1. f_equal; field.
Qed.

Lemma normalize_y : glm.normalize (mkVec3 0 1 0) = mkVec3 0 1 0.
Proof.
  unfold glm.normalize. simpl.
  replace (0 * 0 + 1 * 1 + 0 * 0) with 1 by ring.
  rewrite sqrt_1. f_equal; field.
Qed.

Lemma normalize_z : glm.normalize (mkVec3 0 0 1) = mkVec3 0 0 1.
Proof.
  unfold glm.normalize. simpl.
  replace (0 * 0 + 0 * 0 + 1 * 1) with 1 by ring.
  rewrite sqrt_1. f_equal; field.
Qed.

Lemma vec4_eq a b c d a' b' c' d' :
  a = a' → b = b' → c = c' → d = d' → mkVec4 a b c d = mkVec4 a' b' c' d'.
Proof. intros -> -> -> ->. reflexivity. Qed.

Lemma mat4_eq a b c d a' b' c' d' :
  a = a' → b = b' → c = c' → d = d' → mkMat4 a b c d = mkMat4 a' b' c' d'.
Proof. intros -> -> -> ->. reflexivity. Qed.

Ltac mat4_unfold :=
  cbv beta iota zeta delta
    [glm.scale glm.scale_m glm.translate glm.translate_m glm.rotate glm.rotate_m
     glm.mat4_1 glm.vec4_scale glm.vec4_add glm.mul glm.mul_vec
     Transform.of_rows Transform.row Transform.column Transform.entry
     Transform.dot_entry Transform.product Transform.identity Transform.scaling
     Transform.rotationX Transform.rotationY Transform.rotationZ
     Transform.translation Transform.apply Transform.translation_of
     v4x v4y v4z v4w v3x v3y v3z col0 col1 col2 col3].

Ltac mat4_ring := mat4_unfold; apply mat4_eq; apply vec4_eq; ring.

Lemma glm_scale_scaling v : glm.scale v = Transform.scaling v.
Proof. unfold glm.scale, glm.scale_m, Transform.scaling. mat4_ring. Qed.

Lemma glm_translate_translation v : glm.translate v = Transform.translation v.
Proof. unfold glm.translate, glm.translate_m, Transform.translation. mat4_ring. Qed.

Lemma glm_rotate_x a : glm.rotate a (mkVec3 1 0 0) = Transform.rotationX a.
Proof.
  unfold glm.rotate, glm.rotate_m. rewrite normalize_x.
  unfold Transform.rotationX. mat4_ring.
Qed.

Lemma glm_rotate_y a : glm.rotate a (mkVec3 0 1 0) = Transform.rotationY a.
Proof.
  unfold glm.rotate, glm.rotate_m. rewrite normalize_y.
  unfold Transform.rotationY. mat4_ring.
Qed.

Lemma glm_rotate_z a : glm.rotate a (mkVec3 0 0 1) = Transform.rotationZ a.
Proof.
  unfold glm.rotate, glm.rotate_m. rewrite normalize_z.
  unfold Transform.rotationZ. mat4_ring.
Qed.

Lemma glm_mul_product a b : glm.mul a b = Transform.product a b.
Proof.
  destruct a as [[? ? ? ?] [? ? ? ?] [? ? ? ?] [? ? ? ?]].
  destruct b as [[? ? ? ?] [? ? ? ?] [? ? ? ?] [? ? ? ?]].
  unfold glm.mul, glm.mul_vec, Transform.product, Transform.dot_entry. mat4_ring.
Qed.

Lemma glm_radians d : glm.radians d = Transform.to_radians d.
Proof. unfold glm.radians, Transform.to_radians. field. Qed.

Lemma product_assoc a b c :
  Transform.product (Transform.product a b) c
  = Transform.product a (Transform.product b c).
Proof.
  destruct a as [[? ? ? ?] [? ? ? ?] [? ? ? ?] [? ? ? ?]].
  destruct b as [[? ? ? ?] [? ? ? ?] [? ? ? ?] [? ? ? ?]].
  destruct c as [[? ? ? ?] [? ? ? ?] [? ? ? ?] [? ? ? ?]].
  unfold Transform.product, Transform.dot_entry. mat4_ring.
Qed.

Lemma apply_product a b v :
  Transform.apply (Transform.product a b) v
  = Transform.apply a (Transform.apply b v).
Proof.
  destruct a as [[? ? ? ?] [? ? ? ?] [? ? ? ?] [? ? ? ?]].
  destruct b as [[? ? ? ?] [? ? ? ?] [? ? ? ?] [? ? ? ?]].
  destruct v as [? ? ? ?].
  mat4_unfold. apply vec4_eq; ring.
Qed.

Lemma modelView_compose s rx ry rz p :
  modelView s rx ry rz p = Transform.compose s rx ry rz p.
Proof.
  unfold modelView, Transform.compose.
  rewrite glm_scale_scaling, glm_translate_translation, glm_rotate_x,
    glm_rotate_y, glm_rotate_z, !glm_radians, !glm_mul_product.
  rewrite !product_assoc. reflexivity.
Qed.

Lemma compose_identity :
  Transform.compose (mkVec3 1 1 1) 0 0 0 (mkVec3 0 0 0) = Transform.identity.
Proof.
  unfold Transform.compose, Transform.to_radians.
  replace (0 * PI / 180) with 0 by field.
  unfold Transform.rotationX, Transform.rotationY, Transform.rotationZ.
  rewrite cos_0, sin_0.
  mat4_ring.
Qed.

Lemma compose_translation s rx ry rz p :
  Transform.translation_of (Transform.compose s rx ry rz p) = p.
Proof.
  destruct p as [px py pz].
  unfold Transform.compose, Transform.translation_of.
  mat4_unfold. f_equal; ring.
Qed.

Lemma compose_last_column s rx ry rz p :
  col3 (Transform.compose s rx ry rz p) = mkVec4 (v3x p) (v3y p) (v3z p) 1.
Proof.
  unfold Transform.compose. mat4_unfold. apply vec4_eq; ring.
Qed.
End GlmFacts.

(** *** The material and transform calls of the binder *)

Lemma SetShaderMaterial_empty g t w :
  m_objectMaterials (scene w) = [] → SetShaderMaterial g t w = Ok (tt, w).
Proof.
  intros H. unfold SetShaderMaterial. unfold_monad. rewrite H. reflexivity.
Qed.

Lemma SetShaderMaterial_spec g t w sh :
  m_pShaderManager (scene w) = Some sh →
  m_objectMaterials (scene w) ≠ [] →
  SetShaderMaterial g t w =
  Ok (tt, mkWorld (gl w)
            (set_shader
               (Some (pushed_material
                        (match lookup_material (m_objectMaterials (scene w)) t with
                         | Some e => copy_material e g
                         | None => g
                         end) sh))
               (scene w))).
Proof.
  intros Hsh Hne. unfold SetShaderMaterial. unfold_monad.
  replace (0 <? Z.of_nat (length (m_objectMaterials (scene w)))) with true.
  2:{ symmetry. apply Z.ltb_lt.
      destruct (m_objectMaterials (scene w)); [congruence | simpl; lia]. }
  rewrite FindMaterial_lookup.
  rewrite bool_decide_eq_false_2 by exact Hne.
  cbn [negb scene m_pShaderManager set_shader gl]. rewrite Hsh.
  cbn [scene m_pShaderManager set_shader gl]. reflexivity.
Qed.

Lemma SetTransformations_spec s rx ry rz p w sh :
  m_pShaderManager (scene w) = Some sh →
  SetTransformations s rx ry rz p w =
  Ok (tt, mkWorld (gl w)
            (set_shader (Some (setMat4Value g_ModelName (modelView s rx ry rz p) sh))
                        (scene w))).
Proof.
  intros Hsh. unfold SetTransformations, has_shader. unfold_monad.
  rewrite !Hsh. reflexivity.
Qed.

Lemma SetTextureUVScale_spec u v w sh :
  m_pShaderManager (scene w) = Some sh →
  SetTextureUVScale u v w =
  Ok (tt, mkWorld (gl w)
            (set_shader (Some (setVec2Value "UVscale" (mkVec2 u v) sh)) (scene w))).
Proof.
  intros Hsh. unfold SetTextureUVScale, has_shader. unfold_monad.
  rewrite !Hsh. reflexivity.
Qed.

Lemma lookup_material_None catalog t :
  lookup_material catalog t = None ↔ ∀ e, e ∈ catalog → mtag e ≠ t.
Proof.
  unfold lookup_material. rewrite fmap_None, list_find_None, Forall_forall.
  reflexivity.
Qed.

Lemma lookup_material_Some catalog t e :
  lookup_material catalog t = Some e ↔
  ∃ i, catalog !! i = Some e ∧ mtag e = t ∧
       ∀ j e', (j < i)%nat → catalog !! j = Some e' → mtag e' ≠ t.
Proof.
  unfold lookup_material. split.
  - intros H. apply fmap_Some in H as [[i e0] [Hf He]]. simpl in He. subst e0.
    apply list_find_Some in Hf as [He [Ht Hfirst]].
    exists i. split; [exact He |]. split; [exact Ht |].
    intros j e' Hj He'. exact (Hfirst j e' He' Hj).
  - intros [i [He [Ht Hfirst]]]. apply fmap_Some. exists (i, e).
    split; [| reflexivity]. apply list_find_Some.
    split; [exact He |]. split; [exact Ht |].
    intros j e' He' Hj. exact (Hfirst j e' Hj He').
Qed.

Lemma lookup_material_once l1 e l2 t :
  mtag e = t → (∀ e', e' ∈ l1 ++ l2 → mtag e' ≠ t) →
  lookup_material (l1 ++ e :: l2) t = Some e.
Proof.
  intros Ht Hother. apply lookup_material_Some. exists (length l1).
  split; [apply list_lookup_middle; reflexivity |]. split; [exact Ht |].
  intros j e' Hj He'. apply Hother. apply elem_of_app. left.
  rewrite lookup_app_l in He' by exact Hj.
  apply list_elem_of_lookup. exists j. exact He'.
Qed.

(** One call of the binder on a scene with a shader manager: it completes,
    touches the shader store only, and moves the use-texture flag by
    [flag_step]. *)
Lemma run_op_spec op w sh :
  wf (scene w) → m_pShaderManager (scene w) = Some sh →
  ∃ sh', run_op op w = Ok (tt, mkWorld (gl w) (set_shader (Some sh') (scene w))) ∧
         sh' !! g_UseTextureName = flag_step (sh !! g_UseTextureName) op.
Proof.
  intros Hwf Hsh. destruct op as [s rx ry rz p | r g b a | t | u v | i t]; cbn [run_op].
  - eexists. split; [apply (SetTransformations_spec s rx ry rz p w sh Hsh) |].
    unfold setMat4Value. apply lookup_insert_ne. discriminate.
  - eexists. split; [apply (SetShaderColor_spec r g b a w sh Hsh) |].
    unfold setVec4Value, setIntValue.
    rewrite lookup_insert_ne by discriminate. apply lookup_insert_eq.
  - eexists. split; [apply (SetShaderTexture_spec t w sh Hwf Hsh) |].
    unfold setSampler2DValue, setIntValue.
    rewrite lookup_insert_ne by discriminate. apply lookup_insert_eq.
  - eexists. split; [apply (SetTextureUVScale_spec u v w sh Hsh) |].
    unfold setVec2Value. apply lookup_insert_ne. discriminate.
  - destruct (m_objectMaterials (scene w)) as [| e ms] eqn:E.
    + exists sh. split; [| reflexivity].
      rewrite SetShaderMaterial_empty by exact E.
      destruct w as [g [psh n arr mats]]. simpl in *. subst. reflexivity.
    + eexists. split.
      * apply (SetShaderMaterial_spec i t w sh Hsh). rewrite E. discriminate.
      * unfold pushed_material, setFloatValue, setVec3Value.
        rewrite !lookup_insert_ne by discriminate. reflexivity.
Qed.

Lemma run_ops_spec ops :
  ∀ w sh,
    wf (scene w) → m_pShaderManager (scene w) = Some sh →
    ∃ sh', run_ops ops w = Ok (tt, mkWorld (gl w) (set_shader (Some sh') (scene w))) ∧
           sh' !! g_UseTextureName = flag_after ops (sh !! g_UseTextureName).
Proof.
  induction ops as [| op ops IH]; intros w sh Hwf Hsh.
  - exists sh. split; [| reflexivity].
    destruct w as [g [psh n arr mats]]. simpl in *. subst. reflexivity.
  - destruct (run_op_spec op w sh Hwf Hsh) as [sh1 [Hrun1 Hflag1]].
    destruct (IH (mkWorld (gl w) (set_shader (Some sh1) (scene w))) sh1)
      as [sh2 [Hrun2 Hflag2]]; [exact Hwf | reflexivity |].
    exists sh2. split.
    + simpl. unfold mbind, M_bind. rewrite Hrun1. rewrite Hrun2. reflexivity.
    + rewrite Hflag2. unfold flag_after. simpl. rewrite Hflag1. reflexivity.
Qed.

Lemma flag_after_keeps ops flag :
  Forall keeps_mode ops → flag_after ops flag = flag.
Proof.
  intros H. revert flag. induction H as [| op ops Hop _ IH]; intros flag.
  - reflexivity.
  - unfold flag_after in *. simpl. rewrite IH.
    destruct op; simpl in *; try reflexivity; contradiction.
Qed.

Lemma flag_after_app ops1 ops2 flag :
  flag_after (ops1 ++ ops2) flag = flag_after ops2 (flag_after ops1 flag).
Proof. unfold flag_after. apply fold_left_app. Qed.

(** ** binary32: the operations on values that are not finite and on zero *)

Section Binary32Bits.
Import Binary32.

(** An infinity or a NaN as an operand leaves an infinity or a NaN. *)
Lemma ieee_not_finite_absorbing x y :
  ieee_finite x = false ∨ ieee_finite y = false →
  ieee_finite (ieee_mul x y) = false ∧
  ieee_finite (ieee_add x y) = false ∧
  ieee_finite (ieee_sub x y) = false.
Proof.
  destruct x as [sx | [] | | sx mx ex], y as [sy | [] | | sy my ey];
    intros [H | H]; try discriminate H; repeat split; try reflexivity;
    destruct sx; try destruct sy; reflexivity.
Qed.

(** The product of a finite value and a zero is a zero, and so is the sum of
    two zeros. *)
Lemma ieee_mul_zero x y :
  ieee_finite x = true → ieee_zero y = true →
  ieee_zero (ieee_mul x y) = true ∧ ieee_zero (ieee_mul y x) = true.
Proof.
  destruct x, y; intros Hx Hy; try discriminate; split; reflexivity.
Qed.

Lemma ieee_add_zero x y :
  ieee_zero x = true → ieee_zero y = true → ieee_zero (ieee_add x y) = true.
Proof.
  destruct x as [sx | | |], y as [sy | | |]; intros Hx Hy; try discriminate.
  destruct sx, sy; reflexivity.
Qed.

(** The sum of a finite value that is not a zero and a zero is that value. *)
Lemma ieee_add_zero_r s m e s' :
  ieee_add (S754_finite s m e) (S754_zero s') = S754_finite s m e ∧
  ieee_add (S754_zero s') (S754_finite s m e) = S754_finite s m e.
Proof. split; reflexivity. Qed.

End Binary32Bits.

(** ** binary32: what survives rounding and values that are not numbers *)

Section Binary32Facts.
Import Binary32.
Local Open Scope R_scope.
Context {A : Arithmetic} {HA : IEEE A}.

Lemma fmul_0_r x : fmul (Finite x) (Finite 0) = Finite 0.
Proof. cbn [fmul]. rewrite Rmult_0_r. apply representable_0. Qed.

Lemma fmul_0_l x : fmul (Finite 0) (Finite x) = Finite 0.
Proof. cbn [fmul]. rewrite Rmult_0_l. apply representable_0. Qed.

Lemma fmul_1_r x : representable x → fmul (Finite x) (Finite 1) = Finite x.
Proof. intros Hx. cbn [fmul]. rewrite Rmult_1_r. exact Hx. Qed.

Lemma fmul_1_l x : representable x → fmul (Finite 1) (Finite x) = Finite x.
Proof. intros Hx. cbn [fmul]. rewrite Rmult_1_l. exact Hx. Qed.

Lemma fadd_0_r x : representable x → fadd (Finite x) (Finite 0) = Finite x.
Proof. intros Hx. cbn [fadd]. rewrite Rplus_0_r. exact Hx. Qed.

Lemma fadd_0_l x : representable x → fadd (Finite 0) (Finite x) = Finite x.
Proof. intros Hx. cbn [fadd]. rewrite Rplus_0_l. exact Hx. Qed.

Lemma fmul_not_finite_r a : fmul a NotFinite = NotFinite.
Proof. destruct a; reflexivity. Qed.

Lemma fadd_not_finite_r a : fadd a NotFinite = NotFinite.
Proof. destruct a; reflexivity. Qed.

Lemma fsub_not_finite_r a : fsub a NotFinite = NotFinite.
Proof. destruct a; reflexivity. Qed.

Lemma bounded_0 n : bounded n (Finite 0).
Proof.
  exists 0. split; [reflexivity |]. rewrite Rabs_R0. apply pow_le. lra.
Qed.

Lemma bounded_1 n : bounded n (Finite 1).
Proof.
  exists 1. split; [reflexivity |]. rewrite Rabs_R1. apply pow_R1_Rle. lra.
Qed.

Lemma bounded_weaken n m a : (n ≤ m)%nat → bounded n a → bounded m a.
Proof.
  intros Hnm (x & -> & Hx). exists x. split; [reflexivity |].
  apply Rle_trans with (2 ^ n); [exact Hx |]. apply Rle_pow; [lra | exact Hnm].
Qed.

Lemma bounded_finite n a : bounded n a → ∃ x, a = Finite x.
Proof. intros (x & -> & _). exists x. reflexivity. Qed.

Lemma bounded_mul n m a b :
  (n + m ≤ 126)%nat → bounded n a → bounded m b → bounded (n + m) (fmul a b).
Proof.
  intros Hnm (x & -> & Hx) (y & -> & Hy). cbn [fmul].
  destruct (rnd_bounded (n + m) (x * y) Hnm) as (z & Hz & Hb).
  - rewrite Rabs_mult, pow_add.
    apply Rmult_le_compat; [apply Rabs_pos | apply Rabs_pos | exact Hx | exact Hy].
  - exists z. split; [exact Hz | exact Hb].
Qed.

Lemma bounded_add n a b :
  (S n ≤ 126)%nat → bounded n a → bounded n b → bounded (S n) (fadd a b).
Proof.
  intros Hn (x & -> & Hx) (y & -> & Hy). cbn [fadd].
  destruct (rnd_bounded (S n) (x + y) Hn) as (z & Hz & Hb).
  - apply Rle_trans with (Rabs x + Rabs y); [apply Rabs_triang |].
    cbn [pow]. lra.
  - exists z. split; [exact Hz | exact Hb].
Qed.

Lemma bounded_sub n a b :
  (S n ≤ 126)%nat → bounded n a → bounded n b → bounded (S n) (fsub a b).
Proof.
  intros Hn (x & -> & Hx) (y & -> & Hy). cbn [fsub].
  destruct (rnd_bounded (S n) (x - y) Hn) as (z & Hz & Hb).
  - unfold Rminus. apply Rle_trans with (Rabs x + Rabs (- y)); [apply Rabs_triang |].
    rewrite Rabs_Ropp. cbn [pow]. lra.
  - exists z. split; [exact Hz | exact Hb].
Qed.

Lemma bounded_add_0 n a : (n ≤ 126)%nat → bounded n a → bounded n (fadd a (Finite 0)).
Proof.
  intros Hn (x & -> & Hx). cbn [fadd]. rewrite Rplus_0_r.
  destruct (rnd_bounded n x Hn Hx) as (z & Hz & Hb).
  exists z. split; [exact Hz | exact Hb].
Qed.

Lemma bounded_mul_0 n a m : bounded n a → bounded m (fmul a (Finite 0)).
Proof. intros (x & -> & _). rewrite fmul_0_r. apply bounded_0. Qed.

Lemma fmul_finite_0 n a : bounded n a → fmul a (Finite 0) = Finite 0.
Proof. intros (x & -> & _). apply fmul_0_r. Qed.

Lemma fmul_0_finite n a : bounded n a → fmul (Finite 0) a = Finite 0.
Proof. intros (x & -> & _). apply fmul_0_l. Qed.

Lemma fadd_0_0 : fadd (Finite 0) (Finite 0) = Finite 0.
Proof. apply fadd_0_l, representable_0. Qed.

End Binary32Facts.

Section Binary32Matrices.
Import Binary32.
Local Open Scope R_scope.
Context {A : Arithmetic} {HA : IEEE A}.

(** One component of [m * v] for a column [v] of a linear part. *)
Lemma combination_bounded n m a0 a1 a2 a3 vx vy vz :
  (n + m + 2 ≤ 126)%nat →
  bounded n a0 → bounded n a1 → bounded n a2 → (∃ x, a3 = Finite x) →
  bounded m vx → bounded m vy → bounded m vz →
  bounded (n + m + 2)
    (fadd (fadd (fadd (fmul a0 vx) (fmul a1 vy)) (fmul a2 vz)) (fmul a3 (Finite 0))).
Proof.
  intros Hnm H0 H1 H2 [x ->] Hx Hy Hz. rewrite fmul_0_r.
  replace (n + m + 2)%nat with (S (S (n + m))) by lia.
  apply bounded_add_0; [lia |].
  apply bounded_add; [lia | |].
  - apply bounded_add; [lia | |]; apply bounded_mul; assumption || lia.
  - apply bounded_weaken with (n + m)%nat; [lia |]. apply bounded_mul; assumption || lia.
Qed.

Lemma combination_zero m a3 vx vy vz :
  (∃ x, a3 = Finite x) → bounded m vx → bounded m vy → bounded m vz →
  fadd (fadd (fadd (fmul (Finite 0) vx) (fmul (Finite 0) vy)) (fmul (Finite 0) vz))
       (fmul a3 (Finite 0)) = Finite 0.
Proof.
  intros [x ->] Hx Hy Hz.
  rewrite !(fmul_0_finite m) by assumption. rewrite fmul_0_r, !fadd_0_0. reflexivity.
Qed.

Lemma point_finite v : point v →
  (∃ x, v4x v = Finite x) ∧ (∃ x, v4y v = Finite x) ∧
  (∃ x, v4z v = Finite x) ∧ v4w v = Finite 1.
Proof.
  intros (x & y & z & -> & _). cbn. repeat split; eexists; reflexivity.
Qed.

Lemma mul_vec_direction n m a v :
  (n + m + 2 ≤ 126)%nat → affine n a → direction m v →
  direction (n + m + 2) (mul_vec a v).
Proof.
  intros Hnm (H0 & H1 & H2 & H3) (Hx & Hy & Hz & Hw).
  destruct H0 as (H0x & H0y & H0z & H0w), H1 as (H1x & H1y & H1z & H1w),
           H2 as (H2x & H2y & H2z & H2w).
  destruct (point_finite _ H3) as (H3x & H3y & H3z & H3w).
  unfold direction, mul_vec, vec4_add, vec4_scale. cbn [v4x v4y v4z v4w].
  rewrite Hw, H0w, H1w, H2w, H3w.
  split; [apply combination_bounded; assumption |].
  split; [apply combination_bounded; assumption |].
  split; [apply combination_bounded; assumption |].
  apply (combination_zero m); [eexists; reflexivity | assumption ..].
Qed.

Lemma direction_finite n v : direction n v →
  ∃ x y z, v = mkVec4 (Finite x) (Finite y) (Finite z) (Finite 0).
Proof.
  destruct v as [a b c d]. intros ((x & Hx & _) & (y & Hy & _) & (z & Hz & _) & Hw).
  cbn in *. subst. exists x, y, z. reflexivity.
Qed.

(** [m * (0, 0, 0, 1)] is the last column of [m]. *)
Lemma mul_vec_point n a :
  affine n a → mul_vec a (col3 mat4_1) = col3 a.
Proof.
  intros (H0 & H1 & H2 & H3).
  destruct (direction_finite _ _ H0) as (x0 & y0 & z0 & E0).
  destruct (direction_finite _ _ H1) as (x1 & y1 & z1 & E1).
  destruct (direction_finite _ _ H2) as (x2 & y2 & z2 & E2).
  destruct H3 as (x & y & z & E3 & Hx & Hy & Hz).
  unfold mul_vec, vec4_add, vec4_scale. rewrite E0, E1, E2, E3.
  cbn [v4x v4y v4z v4w col3 mat4_1].
  rewrite !fmul_0_r, !fadd_0_0.
  rewrite !fmul_1_r by (assumption || apply representable_1).
  rewrite !fadd_0_l by (assumption || apply representable_1).
  reflexivity.
Qed.

Lemma mul_affine n m a b :
  (n + m + 2 ≤ 126)%nat → affine n a → linear m b →
  affine (n + m + 2) (mul a b) ∧ col3 (mul a b) = col3 a.
Proof.
  intros Hnm Ha (H0 & H1 & H2 & H3).
  assert (E : col3 (mul a b) = col3 a).
  { cbn [mul col3]. rewrite H3. apply (mul_vec_point n). exact Ha. }
  split; [| exact E].
  split; [apply mul_vec_direction; assumption |].
  split; [apply mul_vec_direction; assumption |].
  split; [apply mul_vec_direction; assumption |].
  rewrite E. apply Ha.
Qed.

Lemma mul_last_column n a b :
  affine n a → col3 b = col3 mat4_1 → col3 (mul a b) = col3 a.
Proof. intros Ha Hb. cbn [mul col3]. rewrite Hb. apply (mul_vec_point n). exact Ha. Qed.

(** The translation matrix. *)
Lemma translate_affine x y z :
  representable x → representable y → representable z →
  affine 0 (translate (mkVec3 (Finite x) (Finite y) (Finite z))) ∧
  col3 (translate (mkVec3 (Finite x) (Finite y) (Finite z)))
  = mkVec4 (Finite x) (Finite y) (Finite z) (Finite 1).
Proof.
  intros Hx Hy Hz.
  assert (E : col3 (translate (mkVec3 (Finite x) (Finite y) (Finite z)))
              = mkVec4 (Finite x) (Finite y) (Finite z) (Finite 1)).
  { unfold translate, translate_m, vec4_add, vec4_scale.
    cbn [v4x v4y v4z v4w v3x v3y v3z col0 col1 col2 col3 mat4_1].
    rewrite !fmul_0_l.
    rewrite !fmul_1_l by assumption.
    rewrite !fadd_0_0.
    rewrite !fadd_0_r by assumption.
    rewrite !fadd_0_l by (assumption || apply representable_1).
    rewrite !fadd_0_r by assumption.
    reflexivity. }
  split; [| exact E].
  unfold affine. rewrite E.
  unfold translate, translate_m, direction. cbn [col0 col1 col2 mat4_1 v4x v4y v4z v4w].
  repeat split; try apply bounded_0; try apply bounded_1.
  exists x, y, z. repeat split; assumption.
Qed.

(** The angle in radians of a binary32 angle in degrees is finite. *)
Lemma radians_finite x : representable x → ∃ y, radians (Finite x) = Finite y.
Proof.
  intros Hx. apply representable_below in Hx.
  destruct (rnd_bounded 123 (x * (9370165 / 536870912))) as (y & Hy & _); [lia | |].
  - rewrite Rabs_mult. rewrite (Rabs_pos_eq (9370165 / 536870912)) by lra.
    change 128%nat with (123 + 5)%nat in Hx. rewrite pow_add in Hx.
    assert (H5 : 2 ^ 5 = 32) by (cbn [pow]; lra). rewrite H5 in Hx.
    assert (Hp : 0 <= 2 ^ 123) by (apply pow_le; lra).
    assert (Ha : 0 <= Rabs x) by apply Rabs_pos.
    nra.
  - exists y. exact Hy.
Qed.

(** The three unit axes are left as they are by [normalize]. *)
Lemma normalize_unit_x :
  normalize (mkVec3 (Finite 1) (Finite 0) (Finite 0)) = mkVec3 (Finite 1) (Finite 0) (Finite 0).
Proof.
  unfold normalize. cbn [v3x v3y v3z].
  rewrite !fmul_0_l, fmul_1_l by apply representable_1.
  rewrite !fadd_0_r by apply representable_1.
  rewrite inversesqrt_1, fmul_0_l, fmul_1_l by apply representable_1. reflexivity.
Qed.

Lemma normalize_unit_y :
  normalize (mkVec3 (Finite 0) (Finite 1) (Finite 0)) = mkVec3 (Finite 0) (Finite 1) (Finite 0).
Proof.
  unfold normalize. cbn [v3x v3y v3z].
  rewrite !fmul_0_l, fmul_1_l by apply representable_1.
  rewrite fadd_0_l, fadd_0_r by apply representable_1.
  rewrite inversesqrt_1, fmul_0_l, fmul_1_l by apply representable_1. reflexivity.
Qed.

Lemma normalize_unit_z :
  normalize (mkVec3 (Finite 0) (Finite 0) (Finite 1)) = mkVec3 (Finite 0) (Finite 0) (Finite 1).
Proof.
  unfold normalize. cbn [v3x v3y v3z].
  rewrite !fmul_0_l, fmul_1_l by apply representable_1.
  rewrite fadd_0_0, fadd_0_l by apply representable_1.
  rewrite inversesqrt_1, fmul_0_l, fmul_1_l by apply representable_1. reflexivity.
Qed.

Lemma rotation_entry_bounded m0 m1 m2 r0 r1 r2 :
  bounded 0 m0 → bounded 0 m1 → bounded 0 m2 →
  bounded 2 r0 → bounded 2 r1 → bounded 2 r2 →
  bounded 4 (fadd (fadd (fmul m0 r0) (fmul m1 r1)) (fmul m2 r2)).
Proof.
  intros H0 H1 H2 Hr0 Hr1 Hr2.
  apply bounded_add; [lia | |].
  - apply bounded_add; [lia | |]; apply (bounded_mul 0 2); assumption || lia.
  - apply bounded_weaken with 2%nat; [lia |]. apply (bounded_mul 0 2); assumption || lia.
Qed.

Lemma rotation_entry_zero r0 r1 r2 :
  bounded 2 r0 → bounded 2 r1 → bounded 2 r2 →
  fadd (fadd (fmul (Finite 0) r0) (fmul (Finite 0) r1)) (fmul (Finite 0) r2) = Finite 0.
Proof.
  intros H0 H1 H2. rewrite !(fmul_0_finite 2) by assumption.
  rewrite !fadd_0_0. reflexivity.
Qed.

(** A rotation by a finite angle about an axis [normalize] leaves as it is,
    with components 0 or 1. *)
Lemma rotate_linear x axis :
  normalize axis = axis →
  bounded 0 (v3x axis) → bounded 0 (v3y axis) → bounded 0 (v3z axis) →
  linear 4 (rotate (Finite x) axis).
Proof.
  intros Hn Hax Hay Haz.
  unfold rotate, rotate_m. rewrite Hn.
  destruct (cosf_finite x) as (c & -> & Hc), (sinf_finite x) as (s & -> & Hs).
  assert (Bc : bounded 0 (Finite c)) by (exists c; split; [reflexivity | cbn [pow]; lra]).
  assert (Bs : bounded 0 (Finite s)) by (exists s; split; [reflexivity | cbn [pow]; lra]).
  assert (Bt : bounded 1 (fsub (Finite 1) (Finite c)))
    by (apply bounded_sub; [lia | apply bounded_1 | exact Bc]).
  set (t := fsub (Finite 1) (Finite c)) in *.
  assert (Btemp : ∀ a, bounded 0 a → bounded 1 (fmul t a))
    by (intros a Ha; apply (bounded_mul 1 0); assumption || lia).
  assert (Bta : ∀ a b, bounded 0 a → bounded 0 b → bounded 1 (fmul (fmul t a) b))
    by (intros a b Ha Hb; apply (bounded_mul 1 0); [lia | apply Btemp; exact Ha | exact Hb]).
  assert (Bsa : ∀ a, bounded 0 a → bounded 1 (fmul (Finite s) a))
    by (intros a Ha; apply bounded_weaken with 0%nat; [lia |];
        apply (bounded_mul 0 0); assumption || lia).
  assert (Bc1 : bounded 1 (Finite c)) by (apply bounded_weaken with 0%nat; [lia | exact Bc]).
  cbv zeta. cbn [v3x v3y v3z].
  unfold linear, direction, vec4_add, vec4_scale.
  cbn [col0 col1 col2 col3 mat4_1 v4x v4y v4z v4w].
  repeat split;
    try (apply rotation_entry_bounded;
         try apply bounded_0; try apply bounded_1;
         first [ apply bounded_add; [lia | |] | apply bounded_sub; [lia | |] ];
         auto);
    apply rotation_entry_zero;
    first [ apply bounded_add; [lia | |] | apply bounded_sub; [lia | |] ];
    auto.
Qed.

End Binary32Matrices.

Section Binary32NotFinite.
Import Binary32.
Context {A : Arithmetic}.

Lemma vec4_scale_not_finite v : vec4_scale v NotFinite = not_finite.
Proof. unfold vec4_scale, not_finite. rewrite !fmul_not_finite_r. reflexivity. Qed.

Lemma vec4_add_not_finite_r v : vec4_add v not_finite = not_finite.
Proof.
  unfold vec4_add, not_finite. cbn [v4x v4y v4z v4w].
  rewrite !fadd_not_finite_r. reflexivity.
Qed.

Lemma mul_vec_not_finite m v :
  col0 m = not_finite → mul_vec m v = not_finite.
Proof. intros H. unfold mul_vec. rewrite H. reflexivity. Qed.

(** A matrix with a column that is not finite spoils every column of its
    product with another matrix on the right. *)
Lemma mul_not_finite_l a b :
  col0 a = not_finite →
  col0 (mul a b) = not_finite ∧ col3 (mul a b) = not_finite.
Proof. intros H. cbn [mul col0 col3]. rewrite !mul_vec_not_finite by exact H. split; reflexivity. Qed.

Lemma mul_not_finite_r a b :
  col0 b = not_finite → col0 (mul a b) = not_finite.
Proof.
  intros H. cbn [mul col0]. rewrite H. unfold mul_vec. cbn [not_finite v4x v4y v4z v4w].
  rewrite !vec4_scale_not_finite. reflexivity.
Qed.

(** A rotation by an angle that is not finite. *)
Lemma rotate_not_finite axis :
  cosf NotFinite = NotFinite → sinf NotFinite = NotFinite →
  col0 (rotate (radians NotFinite) axis) = not_finite.
Proof.
  intros Hc Hs. unfold rotate, rotate_m, radians. cbn [fmul]. rewrite Hc, Hs.
  cbv zeta. cbn [col0 v3x v3y v3z fadd fsub fmul].
  rewrite ?fmul_not_finite_r, ?fadd_not_finite_r, ?fsub_not_finite_r.
  rewrite !vec4_scale_not_finite. reflexivity.
Qed.

(** A translation by a position with a component that is not finite. *)
Lemma translate_not_finite p :
  v3x p = NotFinite ∨ v3y p = NotFinite ∨ v3z p = NotFinite →
  col3 (translate p) = not_finite.
Proof.
  intros H. unfold translate, translate_m. cbn [col3].
  destruct H as [H | [H | H]]; rewrite H, vec4_scale_not_finite;
    rewrite ?vec4_add_not_finite_r; reflexivity.
Qed.

Lemma mul_vec_last_not_finite m v :
  col3 m = not_finite → v4w v = Finite 1%R → mul_vec m v = not_finite.
Proof.
  intros H Hw. unfold mul_vec. rewrite H.
  replace (vec4_scale not_finite (v4w v)) with not_finite by reflexivity.
  apply vec4_add_not_finite_r.
Qed.

Lemma mul_last_not_finite a b :
  col3 a = not_finite → v4w (col3 b) = Finite 1%R → col3 (mul a b) = not_finite.
Proof. intros Ha Hb. cbn [mul col3]. apply mul_vec_last_not_finite; assumption. Qed.

End Binary32NotFinite.

Section Binary32Model.
Import Binary32.
Local Open Scope R_scope.
Context {A : Arithmetic} {HA : IEEE A}.

Lemma rotate_radians_linear a axis :
  number a → normalize axis = axis →
  bounded 0 (v3x axis) → bounded 0 (v3y axis) → bounded 0 (v3z axis) →
  linear 4 (rotate (radians a) axis).
Proof.
  intros (x & -> & Hx) Hn H0 H1 H2.
  destruct (radians_finite x Hx) as [y ->].
  apply rotate_linear; assumption.
Qed.

(** The product of the translation and the three rotations, for finite
    angles and a finite position. *)
Lemma rotations_affine rx ry rz p :
  number rx → number ry → number rz →
  number (v3x p) → number (v3y p) → number (v3z p) →
  let m := mul (mul (mul (translate p)
                         (rotate (radians rz) (mkVec3 (Finite 0) (Finite 0) (Finite 1))))
                    (rotate (radians ry) (mkVec3 (Finite 0) (Finite 1) (Finite 0))))
               (rotate (radians rx) (mkVec3 (Finite 1) (Finite 0) (Finite 0))) in
  affine 18 m ∧ col3 m = mkVec4 (v3x p) (v3y p) (v3z p) (Finite 1).
Proof.
  intros Hrx Hry Hrz Hpx Hpy Hpz.
  destruct p as [a b c]. cbn [v3x v3y v3z] in *.
  destruct Hpx as (x & -> & Hx), Hpy as (y & -> & Hy), Hpz as (z & -> & Hz).
  destruct (translate_affine x y z Hx Hy Hz) as [HT ET].
  assert (HZ := rotate_radians_linear rz _ Hrz normalize_unit_z
                  (bounded_0 0) (bounded_0 0) (bounded_1 0)).
  assert (HY := rotate_radians_linear ry _ Hry normalize_unit_y
                  (bounded_0 0) (bounded_1 0) (bounded_0 0)).
  assert (HX := rotate_radians_linear rx _ Hrx normalize_unit_x
                  (bounded_1 0) (bounded_0 0) (bounded_0 0)).
  destruct (mul_affine 0 4 _ _ ltac:(lia) HT HZ) as [H1 E1].
  destruct (mul_affine 6 4 _ _ ltac:(lia) H1 HY) as [H2 E2].
  destruct (mul_affine 12 4 _ _ ltac:(lia) H2 HX) as [H3 E3].
  cbv zeta. split; [exact H3 |].
  rewrite E3, E2, E1. exact ET.
Qed.

Lemma scale_last_column s : col3 (scale s) = col3 mat4_1.
Proof. reflexivity. Qed.

(** The column of [m * scale] for an axis, by the scale on that axis. *)
Lemma scaled_column n m (unit : vec4) k :
  affine n m →
  unit = col0 mat4_1 ∨ unit = col1 mat4_1 ∨ unit = col2 mat4_1 →
  (number k → v4w (mul_vec m (vec4_scale unit k)) = Finite 0) ∧
  (k = Finite 0 → mul_vec m (vec4_scale unit k) = zero4) ∧
  (k = NotFinite → mul_vec m (vec4_scale unit k) = not_finite).
Proof.
  intros (H0 & H1 & H2 & H3) Hunit.
  destruct (direction_finite _ _ H0) as (x0 & y0 & z0 & E0).
  destruct (direction_finite _ _ H1) as (x1 & y1 & z1 & E1).
  destruct (direction_finite _ _ H2) as (x2 & y2 & z2 & E2).
  destruct H3 as (x & y & z & E3 & _).
  unfold mul_vec. rewrite E0, E1, E2, E3.
  split; [| split].
  - intros (v & -> & Hv).
    destruct Hunit as [-> | [-> | ->]];
      unfold vec4_add, vec4_scale; cbn [v4x v4y v4z v4w col0 col1 col2 mat4_1];
      rewrite ?(fmul_1_l v Hv);
      repeat first [rewrite fmul_0_l | rewrite fmul_0_r | rewrite fadd_0_0]; reflexivity.
  - intros ->.
    destruct Hunit as [-> | [-> | ->]];
      unfold vec4_add, vec4_scale, zero4; cbn [v4x v4y v4z v4w col0 col1 col2 mat4_1];
      repeat first [rewrite fmul_0_l | rewrite fmul_0_r | rewrite fadd_0_0]; reflexivity.
  - intros ->. rewrite vec4_scale_not_finite. reflexivity.
Qed.

End Binary32Model.

(** The rounding to the grid. *)
Section Grid.
Import Binary32.
Local Open Scope R_scope.

Lemma grid_rnd_integer (k : Z) :
  Rabs (IZR k) <= 2 ^ 127 → grid_rnd (IZR k) = Finite (IZR k).
Proof.
  intros Hk. unfold grid_rnd. destruct (Rle_dec _ _) as [_ | Hn]; [| contradiction].
  f_equal.
  assert (E : up (IZR k * 2 ^ 20 - / 2) = (k * 2 ^ 20)%Z).
  { symmetry. apply tech_up.
    - rewrite mult_IZR. change (2 ^ 20)%Z with (2 ^ Z.of_nat 20)%Z.
      rewrite <- pow_IZR. lra.
    - rewrite mult_IZR. change (2 ^ 20)%Z with (2 ^ Z.of_nat 20)%Z.
      rewrite <- pow_IZR. lra. }
  rewrite E, mult_IZR. change (2 ^ 20)%Z with (2 ^ Z.of_nat 20)%Z.
  rewrite <- pow_IZR. field.
Qed.

Lemma grid_rnd_bounded (n : nat) (x : R) :
  (n ≤ 126)%nat → Rabs x <= 2 ^ n →
  ∃ y, grid_rnd x = Finite y ∧ Rabs y <= 2 ^ n.
Proof.
  intros Hn Hx. unfold grid_rnd.
  destruct (Rle_dec _ _) as [_ | Hbig].
  2:{ exfalso. apply Hbig. apply Rle_trans with (2 ^ n); [exact Hx |].
      apply Rle_pow; [lra | lia]. }
  eexists. split; [reflexivity |].
  set (z := up (x * 2 ^ 20 - / 2)).
  destruct (archimed (x * 2 ^ 20 - / 2)) as [Hlo Hhi]. fold z in Hlo, Hhi.
  assert (Hp : 0 < 2 ^ 20) by (apply pow_lt; lra).
  assert (HN : 2 ^ n * 2 ^ 20 = IZR (2 ^ Z.of_nat (n + 20)))
    by (rewrite <- pow_IZR, pow_add; reflexivity).
  assert (Hx' : - 2 ^ n <= x <= 2 ^ n).
  { pose proof (Rle_abs x) as Hu. pose proof (Rle_abs (- x)) as Hl.
    rewrite Rabs_Ropp in Hl. lra. }
  assert (Hz : (- 2 ^ Z.of_nat (n + 20) ≤ z ≤ 2 ^ Z.of_nat (n + 20))%Z).
  { split.
    - apply Z.lt_succ_r, Z.lt_pred_lt_succ. apply lt_IZR.
      unfold Z.pred. rewrite plus_IZR, opp_IZR, <- HN. nra.
    - apply Z.lt_succ_r. apply lt_IZR. unfold Z.succ.
      rewrite plus_IZR, <- HN. nra. }
  apply Rabs_le.
  destruct Hz as [Hz1 Hz2]. apply IZR_le in Hz1, Hz2.
  rewrite opp_IZR, <- HN in Hz1. rewrite <- HN in Hz2.
  split.
  - apply Rmult_le_reg_r with (2 ^ 20); [exact Hp |].
    unfold Rdiv. rewrite Rmult_assoc, Rinv_l by lra. lra.
  - apply Rmult_le_reg_r with (2 ^ 20); [exact Hp |].
    unfold Rdiv. rewrite Rmult_assoc, Rinv_l by lra. lra.
Qed.

Lemma grid_IEEE : IEEE grid.
Proof.
  assert (H1 : Rabs 1 <= 2 ^ 127) by (rewrite Rabs_R1; apply pow_R1_Rle; lra).
  assert (H0 : Rabs 0 <= 2 ^ 127) by (rewrite Rabs_R0; apply pow_le; lra).
  constructor.
  - exact (grid_rnd_integer 0 H0).
  - exact (grid_rnd_integer 1 H1).
  - intros x Hx. unfold representable in Hx. cbn [rnd grid] in Hx. unfold grid_rnd in Hx.
    destruct (Rle_dec _ _) as [Hle | _]; [| discriminate].
    apply Rle_trans with (2 ^ 127); [exact Hle |]. apply Rle_pow; [lra | lia].
  - exact grid_rnd_bounded.
  - intros x. cbn [cosf grid grid_fun].
    apply (grid_rnd_bounded 0); [lia |]. cbn [pow]. apply Rabs_le.
    destruct (COS_bound x). lra.
  - intros x. cbn [sinf grid grid_fun].
    apply (grid_rnd_bounded 0); [lia |]. cbn [pow]. apply Rabs_le.
    destruct (SIN_bound x). lra.
  - reflexivity.
  - reflexivity.
  - cbn [inversesqrt grid grid_fun]. rewrite sqrt_1.
    replace (1 / 1) with 1 by field. exact (grid_rnd_integer 1 H1).
Qed.

Lemma grid_number (k : Z) :
  (Z.abs k ≤ 1000)%Z → number (A := grid) (Finite (IZR k)).
Proof.
  intros Hk. exists (IZR k). split; [reflexivity |].
  apply grid_rnd_integer. rewrite <- abs_IZR.
  apply Rle_trans with 1000; [apply IZR_le in Hk; exact Hk |].
  apply Rle_trans with (2 ^ 10); [cbn [pow]; lra |]. apply Rle_pow; [lra | lia].
Qed.

End Grid.

(** * The claims *)

(** C1 (the code departs from it). With a non-empty catalogue and a tag that
    no entry carries, [FindMaterial] returns [true] and leaves its reference
    parameter as it was, and [SetShaderMaterial] writes the value of its
    uninitialised local to the three material uniforms.  For a tag carried by
    exactly one entry, [FindMaterial] returns [true] with that entry's
    diffuse colour, specular colour and shininess, and [SetShaderMaterial]
    writes these. *)
Theorem C1_material_lookup :
  (∀ (w : World) (sh : ShaderManager) (g : OBJECT_MATERIAL) (t : string),
      m_pShaderManager (scene w) = Some sh →
      m_objectMaterials (scene w) ≠ [] →
      (∀ e, e ∈ m_objectMaterials (scene w) → mtag e ≠ t) →
      FindMaterial (scene w) t g = Ok (true, g) ∧
      SetShaderMaterial g t w =
      Ok (tt, mkWorld (gl w) (set_shader (Some (pushed_material g sh)) (scene w)))) ∧
  (∀ (w : World) (sh : ShaderManager) (g e : OBJECT_MATERIAL) (t : string)
     (l1 l2 : list OBJECT_MATERIAL),
      m_pShaderManager (scene w) = Some sh →
      m_objectMaterials (scene w) = l1 ++ e :: l2 →
      mtag e = t →
      (∀ e', e' ∈ l1 ++ l2 → mtag e' ≠ t) →
      (∃ m, FindMaterial (scene w) t g = Ok (true, m) ∧
            diffuseColor m = diffuseColor e ∧
            specularColor m = specularColor e ∧
            shininess m = shininess e) ∧
      SetShaderMaterial g t w =
      Ok (tt, mkWorld (gl w) (set_shader (Some (pushed_material e sh)) (scene w)))).
Proof.
  split.
  - intros w sh g t Hsh Hne Habs.
    apply lookup_material_None in Habs.
    split.
    + rewrite FindMaterial_lookup, Habs.
      rewrite bool_decide_eq_false_2 by exact Hne. reflexivity.
    + rewrite (SetShaderMaterial_spec g t w sh Hsh Hne), Habs. reflexivity.
  - intros w sh g e t l1 l2 Hsh Hcat Ht Hother.
    pose proof (lookup_material_once l1 e l2 t Ht Hother) as Hfound.
    rewrite <- Hcat in Hfound.
    assert (Hne : m_objectMaterials (scene w) ≠ [])
      by (rewrite Hcat; destruct l1; discriminate).
    split.
    + exists (copy_material e g). rewrite FindMaterial_lookup, Hfound.
      rewrite bool_decide_eq_false_2 by exact Hne. repeat split.
    + rewrite (SetShaderMaterial_spec g t w sh Hsh Hne), Hfound. reflexivity.
Qed.

Lemma C1_material_lookup_witness :
  FindMaterial (scene catalog_world) "missing" zero_material = Ok (true, zero_material) ∧
  SetShaderMaterial zero_material "missing" catalog_world =
  Ok (tt, mkWorld (gl catalog_world)
            (set_shader (Some (pushed_material zero_material ∅)) (scene catalog_world))).
Proof.
  refine (proj1 C1_material_lookup catalog_world ∅ zero_material "missing" _ _ _).
  - reflexivity.
  - discriminate.
  - intros e He.
    change (e ∈ [metalMaterial; cementMaterial; woodMaterial; tileMaterial;
                 glassMaterial; clayMaterial; ceramicMaterial]) in He.
    repeat (apply elem_of_cons in He as [-> | He]; [discriminate |]).
    apply elem_of_nil in He. contradiction.
Defined.

(** C2 (as amended). After a successful load of "steel" into an empty
    registry and [BindGLTextures], texture unit 0 holds the texture of
    "steel", and [SetShaderTexture "steel"] sets the sampler uniform to slot 0
    with texture sampling switched on.  For every other tag,
    [FindTextureSlot] returns -1 and [SetShaderTexture] completes normally
    with -1 written to the sampler uniform and texture sampling switched on:
    there is no error path. *)
Theorem C2_steel_slot_missing_sentinel :
  ∀ (stbi_load : string → option Image) (f : string) (img : Image)
    (sh : ShaderManager) (w : World),
    wf (scene w) →
    m_loadedTextures (scene w) = 0 →
    m_pShaderManager (scene w) = Some sh →
    stbi_load f = Some img →
    colorChannels img = 3 ∨ colorChannels img = 4 →
    ∃ w1 w2,
      CreateGLTexture stbi_load f "steel" w = Ok (true, w1) ∧
      BindGLTextures w1 = Ok (tt, w2) ∧
      gl_bound (gl w2) !! 0%N = Some (next_name (gl w)) ∧
      FindTextureSlot (scene w2) "steel" = Ok 0 ∧
      (∃ w3, SetShaderTexture "steel" w2 = Ok (tt, w3) ∧
             uniform w3 g_TextureValueName = Some (USampler2D 0) ∧
             uniform w3 g_UseTextureName = Some (UInt 1)) ∧
      (∀ t, t ≠ "steel" →
            FindTextureSlot (scene w2) t = Ok (-1) ∧
            ∃ w3, SetShaderTexture t w2 = Ok (tt, w3) ∧
                  uniform w3 g_TextureValueName = Some (USampler2D (-1)) ∧
                  uniform w3 g_UseTextureName = Some (UInt 1)).
Proof.
  intros ld f img sh w Hwf H0 Hsh Hf Hc.
  assert (Hn : m_loadedTextures (scene w) < MAX_TEXTURES)
    by (rewrite H0; reflexivity).
  pose proof (CreateGLTexture_registers ld f "steel" w img Hwf Hn Hf Hc) as Hload.
  set (s1 := registered_scene "steel" (next_name (gl w)) (scene w)) in *.
  assert (Hwf1 : wf s1) by (apply registered_scene_wf; assumption).
  assert (Hreg : registered s1 = [mkTEXTURE_INFO "steel" (next_name (gl w))]).
  { unfold s1. rewrite registered_scene_registered by assumption.
    rewrite registered_empty by exact H0. reflexivity. }
  set (w1 := mkWorld _ s1) in Hload.
  destruct (BindGLTextures_spec w1 Hwf1) as [g [Hbind [_ Hunits]]].
  exists w1, (mkWorld g s1). split; [exact Hload |]. split; [exact Hbind |].
  assert (Hsh1 : m_pShaderManager s1 = Some sh) by exact Hsh.
  split; [| split; [| split]].
  - apply (Hunits 0%nat (mkTEXTURE_INFO "steel" (next_name (gl w)))).
    simpl. rewrite Hreg. reflexivity.
  - simpl. rewrite FindTextureSlot_findSlot by exact Hwf1.
    rewrite Hreg, findSlot_singleton_eq. reflexivity.
  - eexists. split.
    + apply (SetShaderTexture_spec "steel" (mkWorld g s1) sh Hwf1 Hsh1).
    + simpl. rewrite Hreg, findSlot_singleton_eq. unfold uniform. simpl.
      unfold setSampler2DValue, setIntValue. split.
      * apply lookup_insert_eq.
      * rewrite lookup_insert_ne by discriminate. apply lookup_insert_eq.
  - intros t Ht. split.
    + simpl. rewrite FindTextureSlot_findSlot by exact Hwf1.
      rewrite Hreg, findSlot_singleton_ne by exact Ht. reflexivity.
    + eexists. split.
      * apply (SetShaderTexture_spec t (mkWorld g s1) sh Hwf1 Hsh1).
      * simpl. rewrite Hreg, findSlot_singleton_ne by exact Ht.
        unfold uniform. simpl. unfold setSampler2DValue, setIntValue. split.
        -- apply lookup_insert_eq.
        -- rewrite lookup_insert_ne by discriminate. apply lookup_insert_eq.
Qed.

Lemma C2_steel_slot_missing_sentinel_witness :
  ∃ w1 w2,
    CreateGLTexture sample_files "x.png" "steel" (empty_world (Some ∅)) = Ok (true, w1) ∧
    BindGLTextures w1 = Ok (tt, w2) ∧
    gl_bound (gl w2) !! 0%N = Some (next_name (gl (empty_world (Some ∅)))) ∧
    FindTextureSlot (scene w2) "steel" = Ok 0 ∧
    (∃ w3, SetShaderTexture "steel" w2 = Ok (tt, w3) ∧
           uniform w3 g_TextureValueName = Some (USampler2D 0) ∧
           uniform w3 g_UseTextureName = Some (UInt 1)) ∧
    (∀ t, t ≠ "steel" →
          FindTextureSlot (scene w2) t = Ok (-1) ∧
          ∃ w3, SetShaderTexture t w2 = Ok (tt, w3) ∧
                uniform w3 g_TextureValueName = Some (USampler2D (-1)) ∧
                uniform w3 g_UseTextureName = Some (UInt 1)).
Proof.
  apply (C2_steel_slot_missing_sentinel sample_files "x.png"
           (mkImage 1 1 3 [Byte.xff; Byte.x80; Byte.x00]) ∅ (empty_world (Some ∅))).
  - split; [reflexivity | split; discriminate].
  - reflexivity.
  - reflexivity.
  - reflexivity.
  - left. reflexivity.
Defined.

(** C2 (as stated) fails: after the load of "steel" and [BindGLTextures],
    [SetShaderTexture "missing"] returns normally and the sampler uniform
    holds -1. *)
Lemma C2_missing_tag_pushes_sentinel :
  ∃ w, (CreateGLTexture sample_files "x.png" "steel";;
        BindGLTextures;;
        SetShaderTexture "missing") (empty_world (Some ∅)) = Ok (tt, w) ∧
       uniform w g_TextureValueName = Some (USampler2D (-1)) ∧
       uniform w g_UseTextureName = Some (UInt 1).
Proof.
  eexists. split; [vm_compute; reflexivity |]. split; reflexivity.
Qed.

(** C3 (the code departs from it). [DestroyGLTextures] completes, and after
    it the registry is what it was: the count of loaded textures is
    unchanged, every tag resolves through [FindTextureSlot] to the slot it
    had, a tag has a handle after teardown exactly when it had one before,
    and no texture name has been released; the GL context holds one more
    name per registered texture. *)
Theorem C3_teardown_keeps_registry :
  ∀ w : World,
    wf (scene w) →
    ∃ w',
      DestroyGLTextures w = Ok (tt, w') ∧
      m_loadedTextures (scene w') = m_loadedTextures (scene w) ∧
      (∀ t, FindTextureSlot (scene w') t = FindTextureSlot (scene w) t) ∧
      (∀ t, FindTextureID (scene w') t
            = Ok (handle_or_sentinel (findHandle (registered (scene w')) t)) ∧
            (is_Some (findHandle (registered (scene w')) t) ↔
             is_Some (findHandle (registered (scene w)) t))) ∧
      gl_names (gl w) ⊆ gl_names (gl w') ∧
      size (gl_names (gl w')) =
        (size (gl_names (gl w)) + Z.to_nat (m_loadedTextures (scene w)))%nat.
Proof.
  intros w Hwf.
  destruct (DestroyGLTextures_spec w Hwf)
    as [w' [Hrun [Hwf' [Hcount [Htags [Hsub Hsize]]]]]].
  exists w'. split; [exact Hrun |]. split; [exact Hcount |].
  pose proof (registered_tags _ _ Hcount Htags) as Hreg.
  assert (Hslot : ∀ t, findSlot (registered (scene w')) t
                       = findSlot (registered (scene w)) t)
    by (intros t; apply findSlot_tags; exact Hreg).
  split; [| split; [| split; assumption]].
  - intros t. rewrite !FindTextureSlot_findSlot by assumption. rewrite Hslot.
    reflexivity.
  - intros t. split; [apply FindTextureID_findHandle; exact Hwf' |].
    specialize (Hslot t). unfold findSlot, findHandle in *.
    destruct (list_find _ (registered (scene w'))) as [[i x] |];
      destruct (list_find _ (registered (scene w))) as [[j y] |];
      simpl in *; try discriminate; split; intros; eauto.
Qed.

Lemma C3_teardown_keeps_registry_witness :
  ∃ w',
    DestroyGLTextures steel_world = Ok (tt, w') ∧
    m_loadedTextures (scene w') = m_loadedTextures (scene steel_world) ∧
    (∀ t, FindTextureSlot (scene w') t = FindTextureSlot (scene steel_world) t) ∧
    (∀ t, FindTextureID (scene w') t
          = Ok (handle_or_sentinel (findHandle (registered (scene w')) t)) ∧
          (is_Some (findHandle (registered (scene w')) t) ↔
           is_Some (findHandle (registered (scene steel_world)) t))) ∧
    gl_names (gl steel_world) ⊆ gl_names (gl w') ∧
    size (gl_names (gl w')) =
      (size (gl_names (gl steel_world))
       + Z.to_nat (m_loadedTextures (scene steel_world)))%nat.
Proof.
  apply (C3_teardown_keeps_registry steel_world).
  split; [reflexivity | split; discriminate].
Defined.

(** The failing input of C3, evaluated: "steel" is loaded, the registry is
    torn down, and "steel" still resolves to slot 0 and to a handle, while the
    GL context holds two texture names instead of none. *)
Lemma C3_steel_resolves_after_teardown :
  ∃ w', DestroyGLTextures steel_world = Ok (tt, w') ∧
        m_loadedTextures (scene w') = 1 ∧
        FindTextureSlot (scene w') "steel" = Ok 0 ∧
        FindTextureID (scene w') "steel" = Ok 2 ∧
        elements (gl_names (gl steel_world)) = [1%N] ∧
        size (gl_names (gl w')) = 2%nat.
Proof.
  eexists. split; [vm_compute; reflexivity |]. repeat split; reflexivity.
Qed.

(** C4 (the code departs from it). A load of a readable 3- or 4-channel
    image into a registry that holds [MAX_TEXTURES] entries does not return
    a failure: it writes past the last cell of [m_textureIDs].  Below the
    limit the same load returns [true] and the pair (tag, handle) is the
    entry at the next free slot. *)
Theorem C4_load_at_capacity :
  ∀ (stbi_load : string → option Image) (f t : string) (img : Image) (w : World),
    wf (scene w) →
    stbi_load f = Some img →
    colorChannels img = 3 ∨ colorChannels img = 4 →
    (m_loadedTextures (scene w) = MAX_TEXTURES →
     CreateGLTexture stbi_load f t w = Fault OutOfBounds) ∧
    (m_loadedTextures (scene w) < MAX_TEXTURES →
     ∃ w', CreateGLTexture stbi_load f t w = Ok (true, w') ∧
           m_loadedTextures (scene w') = m_loadedTextures (scene w) + 1 ∧
           m_textureIDs (scene w') !! Z.to_nat (m_loadedTextures (scene w))
             = Some (mkTEXTURE_INFO t (next_name (gl w))) ∧
           registered (scene w')
             = registered (scene w) ++ [mkTEXTURE_INFO t (next_name (gl w))]).
Proof.
  intros ld f t img w Hwf Hf Hc. split.
  - intros Hfull. apply (CreateGLTexture_overflow ld f t w img); [lia | exact Hf | exact Hc].
  - intros Hn. eexists. split.
    + apply (CreateGLTexture_registers ld f t w img Hwf Hn Hf Hc).
    + simpl. split; [reflexivity |]. split.
      * apply list_lookup_insert_eq. destruct Hwf as [Hl [H0 H1]].
        rewrite Hl. unfold MAX_TEXTURES in *. lia.
      * apply registered_scene_registered; assumption.
Qed.

Lemma C4_load_at_capacity_witness :
  m_loadedTextures (scene full_world) = MAX_TEXTURES ∧
  CreateGLTexture sample_files "x.png" "one_more" full_world = Fault OutOfBounds.
Proof.
  split; [vm_compute; reflexivity |].
  refine (proj1 (C4_load_at_capacity sample_files "x.png" "one_more"
                   (mkImage 1 1 3 [Byte.xff; Byte.x80; Byte.x00]) full_world _ _ _) _).
  - split; [vm_compute; reflexivity | split; vm_compute; discriminate].
  - reflexivity.
  - left. reflexivity.
  - vm_compute. reflexivity.
Defined.

(** C5 (as amended). A load of a readable image whose channel count is
    neither 3 nor 4 returns [false] and leaves the scene manager, hence the
    registry and its size, as it was.  A load of a readable 3- or 4-channel
    image into a registry that holds fewer than [MAX_TEXTURES] entries returns
    [true] and appends exactly one entry. *)
Theorem C5_channel_count :
  (∀ (stbi_load : string → option Image) (f t : string) (img : Image) (w : World),
      stbi_load f = Some img →
      colorChannels img ≠ 3 → colorChannels img ≠ 4 →
      ∃ w', CreateGLTexture stbi_load f t w = Ok (false, w') ∧
            scene w' = scene w ∧
            registered (scene w') = registered (scene w)) ∧
  (∀ (stbi_load : string → option Image) (f t : string) (img : Image) (w : World),
      wf (scene w) →
      m_loadedTextures (scene w) < MAX_TEXTURES →
      stbi_load f = Some img →
      colorChannels img = 3 ∨ colorChannels img = 4 →
      ∃ w', CreateGLTexture stbi_load f t w = Ok (true, w') ∧
            wf (scene w') ∧
            m_loadedTextures (scene w') = m_loadedTextures (scene w) + 1 ∧
            registered (scene w')
              = registered (scene w) ++ [mkTEXTURE_INFO t (next_name (gl w))]).
Proof.
  split.
  - intros ld f t img w Hf H3 H4. eexists. split.
    + apply (CreateGLTexture_unsupported ld f t w img Hf H3 H4).
    + split; reflexivity.
  - intros ld f t img w Hwf Hn Hf Hc. eexists. split.
    + apply (CreateGLTexture_registers ld f t w img Hwf Hn Hf Hc).
    + simpl. split; [apply registered_scene_wf; assumption |].
      split; [reflexivity |]. apply registered_scene_registered; assumption.
Qed.

Lemma C5_channel_count_witness :
  (∃ w', CreateGLTexture sample_files "gray.png" "steel" steel_world = Ok (false, w') ∧
         scene w' = scene steel_world ∧
         registered (scene w') = registered (scene steel_world)) ∧
  (∃ w', CreateGLTexture sample_files "rgba.png" "glass" steel_world = Ok (true, w') ∧
         wf (scene w') ∧
         m_loadedTextures (scene w') = m_loadedTextures (scene steel_world) + 1 ∧
         registered (scene w')
           = registered (scene steel_world)
             ++ [mkTEXTURE_INFO "glass" (next_name (gl steel_world))]).
Proof.
  split.
  - apply (proj1 C5_channel_count sample_files "gray.png" "steel"
             (mkImage 1 1 1 [Byte.x7f]) steel_world).
    + reflexivity.
    + discriminate.
    + discriminate.
  - apply (proj2 C5_channel_count sample_files "rgba.png" "glass"
             (mkImage 1 1 4 [Byte.xff; Byte.x80; Byte.x00; Byte.xff]) steel_world).
    + split; [reflexivity | split; discriminate].
    + reflexivity.
    + reflexivity.
    + right. reflexivity.
Defined.

(** C5 (as stated) fails: with sixteen textures registered, the load of a
    readable 4-channel image does not succeed and append an entry; the write
    of the seventeenth entry is out of bounds. *)
Lemma C5_valid_image_full_registry :
  (∃ img, sample_files "rgba.png" = Some img ∧ colorChannels img = 4) ∧
  m_loadedTextures (scene full_world) = 16 ∧
  CreateGLTexture sample_files "rgba.png" "glass" full_world = Fault OutOfBounds.
Proof.
  split; [eexists; split; reflexivity |]. split; reflexivity.
Qed.

(** C6. The model matrix built by [SetTransformations] is
    translation · rotationZ · rotationY · rotationX · scale, the rotations
    being the pure axis rotations by the given angles converted from degrees
    to radians: applied to a vector it scales first, then rotates about X,
    about Y and about Z, and translates last.  With scale (1,1,1), rotations
    0 and position (0,0,0) it is the identity matrix.  With a shader manager
    attached, this matrix is what the call writes to the "model" uniform. *)
Theorem C6_model_matrix_composition :
  ∀ (scaleXYZ : vec3) (rx ry rz : R) (positionXYZ : vec3),
    modelView scaleXYZ rx ry rz positionXYZ
    = Transform.compose scaleXYZ rx ry rz positionXYZ ∧
    (∀ v,
        Transform.apply (modelView scaleXYZ rx ry rz positionXYZ) v
        = Transform.apply (Transform.translation positionXYZ)
            (Transform.apply (Transform.rotationZ (Transform.to_radians rz))
               (Transform.apply (Transform.rotationY (Transform.to_radians ry))
                  (Transform.apply (Transform.rotationX (Transform.to_radians rx))
                     (Transform.apply (Transform.scaling scaleXYZ) v))))) ∧
    modelView (mkVec3 1 1 1) 0 0 0 (mkVec3 0 0 0) = Transform.identity ∧
    (∀ (w : World) (sh : ShaderManager),
        m_pShaderManager (scene w) = Some sh →
        ∃ w', SetTransformations scaleXYZ rx ry rz positionXYZ w = Ok (tt, w') ∧
              uniform w' g_ModelName
              = Some (UMat4 (Transform.compose scaleXYZ rx ry rz positionXYZ))).
Proof.
  intros s rx ry rz p.
  split; [apply modelView_compose |]. split; [| split].
  - intros v. rewrite modelView_compose. unfold Transform.compose.
    rewrite !apply_product. reflexivity.
  - rewrite modelView_compose. apply compose_identity.
  - intros w sh Hsh. eexists.
    split; [apply (SetTransformations_spec s rx ry rz p w sh Hsh) |].
    unfold uniform. simpl. unfold setMat4Value.
    rewrite lookup_insert_eq, modelView_compose. reflexivity.
Qed.

Lemma C6_model_matrix_composition_witness :
  ∃ w', SetTransformations (mkVec3 1 1 1) 0 0 0 (mkVec3 0 0 0) steel_world = Ok (tt, w') ∧
        uniform w' g_ModelName
        = Some (UMat4 (Transform.compose (mkVec3 1 1 1) 0 0 0 (mkVec3 0 0 0))).
Proof.
  refine (proj2 (proj2 (proj2
            (C6_model_matrix_composition (mkVec3 1 1 1) 0 0 0 (mkVec3 0 0 0))))
            steel_world ∅ _).
  vm_compute. reflexivity.
Defined.

Section C7.
Import Binary32.
Local Open Scope R_scope.

(** C7 (as amended).  In binary32, for every scale, finite or not: when the
    three angles and the three components of the position are finite, the
    last column of the matrix [SetTransformations] writes to "model" is
    (position, 1), whatever rounding does to the other columns; when an
    angle or a component of the position is an infinity or a NaN, no
    component of that column is finite. *)
Theorem C7_translation_of_finite_inputs :
  ∀ (A : Arithmetic),
    IEEE A →
    ∀ (scaleXYZ : vec3) (XrotationDegrees YrotationDegrees ZrotationDegrees : float)
      (positionXYZ : vec3) (sh : Mat4Uniforms),
      ∃ modelView,
        SetTransformations scaleXYZ XrotationDegrees YrotationDegrees ZrotationDegrees
                           positionXYZ (Some sh)
        = Some (<[g_ModelName := modelView]> sh) ∧
        (number XrotationDegrees → number YrotationDegrees → number ZrotationDegrees →
         number (v3x positionXYZ) → number (v3y positionXYZ) → number (v3z positionXYZ) →
         col3 modelView
         = mkVec4 (v3x positionXYZ) (v3y positionXYZ) (v3z positionXYZ) (Finite 1)) ∧
        (XrotationDegrees = NotFinite ∨ YrotationDegrees = NotFinite ∨
         ZrotationDegrees = NotFinite ∨ v3x positionXYZ = NotFinite ∨
         v3y positionXYZ = NotFinite ∨ v3z positionXYZ = NotFinite →
         col3 modelView = not_finite).
Proof.
  intros A HA s rx ry rz p sh. eexists. split; [reflexivity |]. split.
  - intros Hrx Hry Hrz Hpx Hpy Hpz.
    destruct (rotations_affine rx ry rz p Hrx Hry Hrz Hpx Hpy Hpz) as [Haff Hcol].
    cbv zeta in Haff, Hcol.
    rewrite (mul_last_column 18 _ (scale s) Haff (scale_last_column s)). exact Hcol.
  - intros Hnf.
    assert (Hc := @cosf_not_finite A HA). assert (Hs := @sinf_not_finite A HA).
    destruct Hnf as [-> | [-> | [-> | Hp]]].
    + apply mul_not_finite_l. apply mul_not_finite_r. apply rotate_not_finite; assumption.
    + apply mul_not_finite_l. apply mul_not_finite_l. apply mul_not_finite_r.
      apply rotate_not_finite; assumption.
    + apply mul_not_finite_l. apply mul_not_finite_l. apply mul_not_finite_l.
      apply mul_not_finite_r. apply rotate_not_finite; assumption.
    + repeat (apply mul_last_not_finite; [| reflexivity]).
      apply translate_not_finite.
      destruct Hp as [Hp | [Hp | Hp]]; auto.
Qed.

Lemma C7_translation_of_finite_inputs_witness :
  ∃ modelView,
    SetTransformations (A := grid) (mkVec3 NotFinite (Finite 2) (Finite 0))
      (Finite 90) (Finite 0) (Finite 45) (mkVec3 (Finite 1) (Finite 0) (Finite (-1)))
      (Some ∅)
    = Some (<[g_ModelName := modelView]> ∅) ∧
    col3 modelView = mkVec4 (Finite 1) (Finite 0) (Finite (-1)) (Finite 1).
Proof.
  destruct (C7_translation_of_finite_inputs grid grid_IEEE
              (mkVec3 NotFinite (Finite 2) (Finite 0)) (Finite 90) (Finite 0) (Finite 45)
              (mkVec3 (Finite 1) (Finite 0) (Finite (-1))) ∅)
    as (m & Hrun & Hfinite & _).
  exists m. split; [exact Hrun |].
  apply Hfinite; apply grid_number; vm_compute; discriminate.
Defined.

(** C7 (as stated) fails: with a rotation angle that is not finite about the
    X axis, scale (1, 1, 1) and position (0, 0, 0), no component of the last
    column of the matrix written to "model" is finite, so it is not the
    position. *)
Lemma C7_angle_not_finite :
  ∃ modelView,
    SetTransformations (A := grid) (mkVec3 (Finite 1) (Finite 1) (Finite 1))
      NotFinite (Finite 0) (Finite 0) (mkVec3 (Finite 0) (Finite 0) (Finite 0)) (Some ∅)
    = Some (<[g_ModelName := modelView]> ∅) ∧
    col3 modelView = not_finite ∧
    col3 modelView ≠ mkVec4 (Finite 0) (Finite 0) (Finite 0) (Finite 1).
Proof.
  eexists. split; [reflexivity |].
  match goal with
  | |- ?c = _ ∧ _ => assert (E : c = not_finite)
  end.
  { apply mul_not_finite_l. apply mul_not_finite_r. apply rotate_not_finite; reflexivity. }
  split; [exact E |]. rewrite E. discriminate.
Qed.

End C7.

(** C8. Two successful loads of one tag leave two registry entries with that
    tag, at consecutive slots and with distinct handles; [FindTextureSlot]
    for the tag returns the slot of the earliest entry with the tag, which is
    the first of the two new entries when the tag was not registered before
    and an older slot otherwise.  On every well-formed registry
    [FindTextureSlot] is the first-match lookup [findSlot]: it returns the
    least registration index whose entry has the tag, and -1 when there is
    none. *)
Theorem C8_duplicate_tags_first_match :
  ∀ (stbi_load : string → option Image) (f1 f2 t : string) (w w1 w2 : World),
    wf (scene w) →
    CreateGLTexture stbi_load f1 t w = Ok (true, w1) →
    CreateGLTexture stbi_load f2 t w1 = Ok (true, w2) →
    (∃ id1 id2,
        id1 ≠ id2 ∧
        registered (scene w2)
          = registered (scene w) ++ [mkTEXTURE_INFO t id1; mkTEXTURE_INFO t id2]) ∧
    m_loadedTextures (scene w2) = m_loadedTextures (scene w) + 2 ∧
    (∃ i : nat,
        FindTextureSlot (scene w2) t = Ok (Z.of_nat i) ∧
        Z.of_nat i ≤ m_loadedTextures (scene w) ∧
        (findSlot (registered (scene w)) t = None →
         Z.of_nat i = m_loadedTextures (scene w)) ∧
        (∀ k, findSlot (registered (scene w)) t = Some k → i = k)) ∧
    (∀ s t', wf s →
        FindTextureSlot s t' = Ok (slot_or_sentinel (findSlot (registered s) t')) ∧
        (∀ i : nat,
            FindTextureSlot s t' = Ok (Z.of_nat i) ↔
            ∃ e, registered s !! i = Some e ∧ tag e = t' ∧
                 ∀ j e', (j < i)%nat → registered s !! j = Some e' → tag e' ≠ t') ∧
        (FindTextureSlot s t' = Ok (-1) ↔ ∀ e, e ∈ registered s → tag e ≠ t')).
Proof.
  intros ld f1 f2 t w w1 w2 Hwf H1 H2.
  destruct (CreateGLTexture_true_inv ld f1 t w w1 Hwf H1)
    as [img1 [Hf1 [Hc1 [Hn1 ->]]]].
  set (s1 := registered_scene t (next_name (gl w)) (scene w)) in *.
  assert (Hwf1 : wf s1) by (apply registered_scene_wf; assumption).
  destruct (CreateGLTexture_true_inv ld f2 t
              (mkWorld (gl_loaded (format_of img1) img1 (gl w)) s1) w2 Hwf1 H2)
    as [img2 [Hf2 [Hc2 [Hn2 ->]]]].
  simpl in *.
  set (id1 := next_name (gl w)) in *.
  set (id2 := next_name (gl_loaded (format_of img1) img1 (gl w))).
  assert (Hreg : registered (registered_scene t id2 s1)
                 = registered (scene w) ++ [mkTEXTURE_INFO t id1; mkTEXTURE_INFO t id2]).
  { rewrite registered_scene_registered by assumption.
    unfold s1. rewrite registered_scene_registered by assumption.
    rewrite <- app_assoc. reflexivity. }
  assert (Hwf2 : wf (registered_scene t id2 s1))
    by (apply registered_scene_wf; assumption).
  split; [| split; [| split]].
  - exists id1, id2. split; [| exact Hreg].
    destruct (next_name_fresh (gl_loaded (format_of img1) img1 (gl w))) as [_ Hfresh].
    rewrite gl_loaded_names in Hfresh. fold id1 id2 in Hfresh.
    intros E. apply Hfresh. rewrite E.
    apply elem_of_union_l, elem_of_singleton. reflexivity.
  - unfold s1. simpl. lia.
  - pose proof (registered_length (scene w) Hwf) as Hlen.
    pose proof Hwf as [_ [H0 _]].
    destruct (findSlot (registered (scene w)) t) as [k |] eqn:Ek.
    + exists k. split; [| split; [| split]].
      * rewrite FindTextureSlot_findSlot by exact Hwf2.
        rewrite Hreg, (findSlot_app_l _ _ _ k Ek). reflexivity.
      * apply findSlot_Some in Ek as [e [He _]]. apply lookup_lt_Some in He. lia.
      * discriminate.
      * intros k' E. congruence.
    + exists (length (registered (scene w))). split; [| split; [| split]].
      * rewrite FindTextureSlot_findSlot by exact Hwf2.
        rewrite Hreg, (findSlot_app_r _ _ _ _ Ek). reflexivity.
      * lia.
      * intros _. lia.
      * discriminate.
  - intros s t' Hs. split; [apply FindTextureSlot_findSlot; exact Hs |].
    apply FindTextureSlot_first_match. exact Hs.
Qed.

Lemma C8_duplicate_tags_first_match_witness :
  (∃ id1 id2,
      id1 ≠ id2 ∧
      registered (scene thrice_world)
        = registered (scene steel_world)
          ++ [mkTEXTURE_INFO "steel" id1; mkTEXTURE_INFO "steel" id2]) ∧
  m_loadedTextures (scene thrice_world) = m_loadedTextures (scene steel_world) + 2 ∧
  (∃ i : nat,
      FindTextureSlot (scene thrice_world) "steel" = Ok (Z.of_nat i) ∧
      Z.of_nat i ≤ m_loadedTextures (scene steel_world) ∧
      (findSlot (registered (scene steel_world)) "steel" = None →
       Z.of_nat i = m_loadedTextures (scene steel_world)) ∧
      (∀ k, findSlot (registered (scene steel_world)) "steel" = Some k → i = k)).
Proof.
  pose proof (C8_duplicate_tags_first_match sample_files "x.png" "rgba.png" "steel"
                steel_world twice_world thrice_world) as H.
  destruct H as [Hentries [Hcount [Hslot _]]].
  - split; [vm_compute; reflexivity | split; vm_compute; discriminate].
  - vm_compute. reflexivity.
  - vm_compute. reflexivity.
  - split; [exact Hentries |]. split; [exact Hcount | exact Hslot].
Defined.

(** C9. On a scene manager with a shader manager attached, [SetShaderColor]
    writes the RGBA colour and sets the use-texture flag to false (0), and
    [SetShaderTexture] sets the flag to true (1).  Every sequence of binder
    calls completes, and the flag after it is the one set by the last
    [SetShaderColor] or [SetShaderTexture] of the sequence; the calls that
    are neither of the two leave the flag as it was. *)
Theorem C9_texture_or_color_last_call_wins :
  ∀ (w : World) (sh : ShaderManager),
    wf (scene w) →
    m_pShaderManager (scene w) = Some sh →
    (∀ r g b a,
        ∃ w', SetShaderColor r g b a w = Ok (tt, w') ∧
              uniform w' g_UseTextureName = Some (UInt (int_of_bool false)) ∧
              uniform w' g_ColorValueName = Some (UVec4 (mkVec4 r g b a))) ∧
    (∀ t,
        ∃ w', SetShaderTexture t w = Ok (tt, w') ∧
              uniform w' g_UseTextureName = Some (UInt (int_of_bool true))) ∧
    (∀ ops,
        ∃ w', run_ops ops w = Ok (tt, w') ∧
              uniform w' g_UseTextureName = flag_after ops (uniform w g_UseTextureName)) ∧
    (∀ before after r g b a,
        Forall keeps_mode after →
        ∃ w', run_ops (before ++ OpColor r g b a :: after) w = Ok (tt, w') ∧
              uniform w' g_UseTextureName = Some (UInt 0)) ∧
    (∀ before after t,
        Forall keeps_mode after →
        ∃ w', run_ops (before ++ OpTexture t :: after) w = Ok (tt, w') ∧
              uniform w' g_UseTextureName = Some (UInt 1)) ∧
    (∀ ops,
        Forall keeps_mode ops →
        ∃ w', run_ops ops w = Ok (tt, w') ∧
              uniform w' g_UseTextureName = uniform w g_UseTextureName).
Proof.
  intros w sh Hwf Hsh.
  assert (Hflag : uniform w g_UseTextureName = sh !! g_UseTextureName)
    by (unfold uniform; rewrite Hsh; reflexivity).
  assert (Hseq : ∀ ops,
             ∃ w', run_ops ops w = Ok (tt, w') ∧
                   uniform w' g_UseTextureName
                   = flag_after ops (uniform w g_UseTextureName)).
  { intros ops. destruct (run_ops_spec ops w sh Hwf Hsh) as [sh' [Hrun Hf]].
    eexists. split; [exact Hrun |]. rewrite Hflag. exact Hf. }
  split; [| split; [| split; [| split; [| split]]]].
  - intros r g b a. eexists. split; [apply (SetShaderColor_spec r g b a w sh Hsh) |].
    unfold uniform. simpl. unfold setVec4Value, setIntValue. split.
    + rewrite lookup_insert_ne by discriminate. apply lookup_insert_eq.
    + apply lookup_insert_eq.
  - intros t. eexists. split; [apply (SetShaderTexture_spec t w sh Hwf Hsh) |].
    unfold uniform. simpl. unfold setSampler2DValue, setIntValue.
    rewrite lookup_insert_ne by discriminate. apply lookup_insert_eq.
  - exact Hseq.
  - intros before after r g b a Hafter.
    destruct (Hseq (before ++ OpColor r g b a :: after)) as [w' [Hrun Hf]].
    exists w'. split; [exact Hrun |]. rewrite Hf.
    rewrite flag_after_app.
    change (OpColor r g b a :: after) with ([OpColor r g b a] ++ after).
    rewrite flag_after_app. apply flag_after_keeps. exact Hafter.
  - intros before after t Hafter.
    destruct (Hseq (before ++ OpTexture t :: after)) as [w' [Hrun Hf]].
    exists w'. split; [exact Hrun |]. rewrite Hf.
    rewrite flag_after_app.
    change (OpTexture t :: after) with ([OpTexture t] ++ after).
    rewrite flag_after_app. apply flag_after_keeps. exact Hafter.
  - intros ops Hops. destruct (Hseq ops) as [w' [Hrun Hf]].
    exists w'. split; [exact Hrun |]. rewrite Hf. apply flag_after_keeps. exact Hops.
Qed.

Lemma C9_texture_or_color_last_call_wins_witness :
  ∃ w', run_ops sample_ops steel_world = Ok (tt, w') ∧
        uniform w' g_UseTextureName = Some (UInt 0).
Proof.
  destruct (C9_texture_or_color_last_call_wins steel_world ∅)
    as [_ [_ [_ [Hcolor _]]]].
  - split; [vm_compute; reflexivity | split; vm_compute; discriminate].
  - vm_compute. reflexivity.
  - refine (Hcolor
              [OpTransform (mkVec3 25 1 10) 0 0 0 (mkVec3 0 0 0);
               OpUVScale 1 1;
               OpTexture "steel";
               OpMaterial zero_material "tile";
               OpTransform (mkVec3 1 1 1) 90 0 0 (mkVec3 0 10 (-10))]
              [OpMaterial zero_material "missing"] 1%R 0%R 0%R 1%R _).
    repeat constructor.
Defined.

(** C10. [FindMaterial] always returns; its result is [false] exactly when
    the catalogue is empty and [true] for every tag once the catalogue holds
    an entry.  The reference parameter is left as it was when no entry
    carries the tag; when an entry does, the diffuse colour, specular colour
    and shininess of the first such entry are copied into it. *)
Theorem C10_FindMaterial_result :
  ∀ (s : SceneManager) (t : string) (m : OBJECT_MATERIAL),
    ∃ (b : bool) (m' : OBJECT_MATERIAL),
      FindMaterial s t m = Ok (b, m') ∧
      (b = false ↔ m_objectMaterials s = []) ∧
      (b = true ↔ m_objectMaterials s ≠ []) ∧
      ((∀ e, e ∈ m_objectMaterials s → mtag e ≠ t) → m' = m) ∧
      (∀ i e, m_objectMaterials s !! i = Some e → mtag e = t →
              (∀ j e', (j < i)%nat → m_objectMaterials s !! j = Some e' → mtag e' ≠ t) →
              m' = copy_material e m ∧
              diffuseColor m' = diffuseColor e ∧
              specularColor m' = specularColor e ∧
              shininess m' = shininess e ∧
              mtag m' = mtag m).
Proof.
  intros s t m. eexists. eexists. split; [apply FindMaterial_lookup |].
  split; [| split; [| split]].
  - destruct (m_objectMaterials s); simpl; split; intros H; congruence.
  - destruct (m_objectMaterials s); simpl; split; intros H; congruence.
  - intros Habs. apply lookup_material_None in Habs. rewrite Habs. reflexivity.
  - intros i e He Ht Hfirst.
    assert (Hfound : lookup_material (m_objectMaterials s) t = Some e)
      by (apply lookup_material_Some; eauto).
    rewrite Hfound. repeat split.
Qed.

Lemma C10_FindMaterial_result_witness :
  ∃ (b : bool) (m' : OBJECT_MATERIAL),
    FindMaterial (scene catalog_world) "missing" zero_material = Ok (b, m') ∧
    b = true ∧ m' = zero_material.
Proof.
  destruct (C10_FindMaterial_result (scene catalog_world) "missing" zero_material)
    as [b [m' [Hrun [_ [Htrue [Habs _]]]]]].
  exists b, m'. split; [exact Hrun |]. split.
  - apply Htrue. discriminate.
  - apply Habs. intros e He.
    change (e ∈ [metalMaterial; cementMaterial; woodMaterial; tileMaterial;
                 glassMaterial; clayMaterial; ceramicMaterial]) in He.
    repeat (apply elem_of_cons in He as [-> | He]; [discriminate |]).
    apply elem_of_nil in He. contradiction.
Defined.

(** * Further properties *)

(** ** What the member functions never undo *)

Lemma extends_refl w : wf (scene w) → extends w w.
Proof.
  intros H. split; [exact H |]. split; [reflexivity |]. split; [reflexivity |].
  split; [reflexivity |]. split; [reflexivity | auto].
Qed.

Lemma extends_trans w1 w2 w3 : extends w1 w2 → extends w2 w3 → extends w1 w3.
Proof.
  intros (Hwf2 & Ht2 & Hm2 & Hn2 & Hs2 & Hh2) (Hwf3 & Ht3 & Hm3 & Hn3 & Hs3 & Hh3).
  split; [exact Hwf3 |]. split; [etrans; eassumption |].
  split; [etrans; eassumption |]. split; [etrans; eassumption |].
  split; [rewrite Hs2; exact Hs3 | auto].
Qed.

(** A step that leaves the registry alone. *)
Lemma extends_same_registry w w' :
  wf (scene w) →
  m_loadedTextures (scene w') = m_loadedTextures (scene w) →
  m_textureIDs (scene w') = m_textureIDs (scene w) →
  m_objectMaterials (scene w) `prefix_of` m_objectMaterials (scene w') →
  gl_names (gl w) ⊆ gl_names (gl w') →
  (is_Some (m_pShaderManager (scene w)) ↔ is_Some (m_pShaderManager (scene w'))) →
  extends w w'.
Proof.
  intros Hwf Hn Ha Hm Hg Hs.
  assert (Hreg : registered (scene w') = registered (scene w))
    by (unfold registered; rewrite Hn, Ha; reflexivity).
  split; [unfold wf; rewrite Hn, Ha; exact Hwf |].
  split; [rewrite Hreg; reflexivity |]. split; [exact Hm |].
  split; [exact Hg |]. split; [exact Hs |].
  unfold handles_ok. rewrite Hreg. intros [Hnd Hin]. split; [exact Hnd |].
  intros id Hid. destruct (Hin id Hid) as [H0 H1]. split; [exact H0 | exact (Hg id H1)].
Qed.

Lemma steady_ret {A} (a : A) : steady (mret a).
Proof.
  intros w a' w' Hwf H. inversion H; subst. apply extends_refl. exact Hwf.
Qed.

Lemma steady_bind {A B} (m : M World A) (k : A → M World B) :
  steady m → (∀ a, steady (k a)) → steady (m ≫= k).
Proof.
  intros Hm Hk w b w' Hwf H. unfold mbind, M_bind in H.
  destruct (m w) as [[a w1] | x] eqn:E; [| discriminate].
  pose proof (Hm w a w1 Hwf E) as H1.
  apply (extends_trans w w1 w'); [exact H1 |].
  apply (Hk a w1 b w'); [apply H1 | exact H].
Qed.

Lemma steady_get : steady (get (S := World)).
Proof.
  intros w a w' Hwf H. inversion H; subst. apply extends_refl. exact Hwf.
Qed.

Lemma steady_raise {A} x : steady (raise (A := A) x).
Proof. intros w a w' _ H. discriminate. Qed.

Lemma steady_reading {A} (f : SceneManager → result A) : steady (reading f).
Proof.
  intros w a w' Hwf H. unfold reading in H.
  destruct (f (scene w)); inversion H; subst. apply extends_refl. exact Hwf.
Qed.

Lemma steady_shader_call f : steady (shader_call f).
Proof.
  intros w a w' Hwf H. unfold shader_call in H.
  destruct (m_pShaderManager (scene w)) as [sh |] eqn:E; inversion H; subst.
  apply extends_same_registry; simpl; try done.
Qed.

Lemma steady_gl_call f :
  (∀ g, gl_names g ⊆ gl_names (f g)) → steady (gl_call f).
Proof.
  intros Hf w a w' Hwf H. unfold gl_call, modify in H. inversion H; subst.
  apply extends_same_registry; simpl; try done.
Qed.

Lemma steady_gl_gen : steady gl_gen.
Proof.
  intros w a w' Hwf H. unfold gl_gen in H. simpl in H. inversion H; subst.
  apply extends_same_registry; simpl; try done.
  apply union_subseteq_r.
Qed.

Lemma steady_push_back m : steady (push_back m).
Proof.
  intros w a w' Hwf H. unfold push_back, on_scene, modify in H. inversion H; subst.
  apply extends_same_registry; simpl; try done.
  apply prefix_app_r. reflexivity.
Qed.

Lemma NoDup_insert_fresh {A} (l : list A) (k : nat) (x : A) :
  NoDup l → x ∉ l → NoDup (<[k := x]> l).
Proof.
  intros Hnd Hx. destruct (decide (k < length l)%nat) as [Hk | Hk].
  2:{ rewrite list_insert_ge by lia. exact Hnd. }
  destruct (lookup_lt_is_Some_2 l k Hk) as [y Hy].
  rewrite insert_take_drop by exact Hk.
  rewrite <- (take_drop_middle l k y Hy) in Hnd, Hx.
  apply NoDup_app in Hnd as (Hl & Hdisj & Hr).
  apply NoDup_cons in Hr as [Hy' Hr].
  apply NoDup_app. split; [exact Hl |]. split.
  - intros z Hz Hz'. apply elem_of_cons in Hz' as [-> | Hz'].
    + apply Hx. apply elem_of_app. left. exact Hz.
    + apply (Hdisj z Hz). apply elem_of_cons. right. exact Hz'.
  - apply NoDup_cons. split; [| exact Hr].
    intros Hin. apply Hx. apply elem_of_app. right. apply elem_of_cons. right. exact Hin.
Qed.

Lemma registered_scene_extends t id w g :
  wf (scene w) → m_loadedTextures (scene w) < MAX_TEXTURES →
  id = next_name (gl w) →
  gl_names g = {[id]} ∪ gl_names (gl w) →
  extends w (mkWorld g (registered_scene t id (scene w))).
Proof.
  intros Hwf Hn Hid Hg.
  assert (Hreg := registered_scene_registered t id (scene w) Hwf Hn).
  split; [apply registered_scene_wf; assumption |]. simpl.
  split; [rewrite Hreg, fmap_app; apply prefix_app_r; reflexivity |].
  split; [reflexivity |]. split; [rewrite Hg; apply union_subseteq_r |].
  split; [reflexivity |].
  unfold handles_ok. simpl. rewrite Hreg, fmap_app. simpl.
  intros [Hnd Hin].
  destruct (next_name_fresh (gl w)) as [H0 Hfresh]. rewrite <- Hid in H0, Hfresh.
  split.
  - apply NoDup_app. split; [exact Hnd |]. split; [| apply NoDup_singleton].
    intros x Hx Hx'. apply list_elem_of_singleton in Hx'. subst x.
    apply Hfresh. apply (Hin id Hx).
  - intros x Hx. rewrite Hg. apply elem_of_app in Hx as [Hx | Hx].
    + destruct (Hin x Hx). split; [assumption | apply elem_of_union_r; assumption].
    + apply list_elem_of_singleton in Hx. subst x.
      split; [exact H0 | apply elem_of_union_l, elem_of_singleton; reflexivity].
Qed.

Lemma steady_CreateGLTexture ld f t : steady (CreateGLTexture ld f t).
Proof.
  intros w b w' Hwf H.
  destruct (ld f) as [img |] eqn:E.
  2:{ rewrite CreateGLTexture_unreadable in H by exact E. inversion H; subst.
      apply extends_refl. exact Hwf. }
  destruct (decide (colorChannels img = 3 ∨ colorChannels img = 4)) as [Hc | Hc].
  - destruct (decide (m_loadedTextures (scene w) < MAX_TEXTURES)) as [Hn | Hn].
    + rewrite (CreateGLTexture_registers ld f t w img Hwf Hn E Hc) in H.
      inversion H; subst.
      apply registered_scene_extends; try done.
    + rewrite (CreateGLTexture_overflow ld f t w img) in H; [discriminate | lia | done | done].
  - rewrite (CreateGLTexture_unsupported ld f t w img E) in H by tauto.
    inversion H; subst.
    apply extends_same_registry; simpl; try done.
    apply union_subseteq_r.
Qed.

Lemma steady_BindGLTextures : steady BindGLTextures.
Proof.
  intros w a w' Hwf H.
  destruct (BindGLTextures_spec w Hwf) as [g [Hrun [Hnames _]]].
  rewrite Hrun in H. inversion H; subst.
  apply extends_same_registry; simpl; try done. rewrite Hnames. reflexivity.
Qed.

(** One round of the loop of [DestroyGLTextures]. *)
Lemma destroy_round_extends (k : nat) w :
  wf (scene w) → Z.of_nat k < m_loadedTextures (scene w) →
  ∃ e, m_textureIDs (scene w) !! k = Some e ∧
       (id ← gl_gen; write_texture (Z.of_nat k) (set_ID id)) w =
       Ok (tt, mkWorld (glGenTextures (gl w)).2
                 (set_textureIDs
                    (<[k := set_ID (next_name (gl w)) e]> (m_textureIDs (scene w)))
                    (scene w))) ∧
       extends w (mkWorld (glGenTextures (gl w)).2
                    (set_textureIDs
                       (<[k := set_ID (next_name (gl w)) e]> (m_textureIDs (scene w)))
                       (scene w))).
Proof.
  intros Hwf Hk. pose proof Hwf as [Hl [H0 H1]].
  set (w1 := set_gl (glGenTextures (gl w)).2 w).
  destruct (write_texture_wf (Z.of_nat k) (set_ID (next_name (gl w))) w1)
    as [e [He Hw]]; [exact Hwf | lia |].
  rewrite Nat2Z.id in He, Hw. subst w1. simpl in He, Hw.
  exists e. split; [exact He |]. split.
  { unfold mbind, M_bind, gl_gen. simpl. exact Hw. }
  assert (Hkl : (k < length (m_textureIDs (scene w)))%nat)
    by (apply lookup_lt_Some in He; exact He).
  assert (Hreg : registered
                   (set_textureIDs
                      (<[k := set_ID (next_name (gl w)) e]> (m_textureIDs (scene w)))
                      (scene w))
                 = <[k := set_ID (next_name (gl w)) e]> (registered (scene w))).
  { unfold registered. simpl. rewrite take_insert_lt by lia. reflexivity. }
  split; [apply wf_set_textureIDs_insert; exact Hwf |]. simpl.
  split.
  { rewrite Hreg, list_fmap_insert. simpl.
    rewrite list_insert_id; [reflexivity |].
    rewrite list_lookup_fmap. unfold registered.
    rewrite lookup_take_lt by lia. rewrite He. reflexivity. }
  split; [reflexivity |]. split; [apply union_subseteq_r |]. split; [reflexivity |].
  unfold handles_ok. simpl. rewrite Hreg, list_fmap_insert. simpl.
  intros [Hnd Hin].
  destruct (next_name_fresh (gl w)) as [Hnz Hfresh].
  split.
  - apply NoDup_insert_fresh; [exact Hnd |].
    intros Hx. apply Hfresh. apply (Hin _ Hx).
  - intros x Hx.
    fold (next_name (gl w)).
    apply list_elem_of_lookup in Hx as [j Hj].
    destruct (decide (j = k)) as [-> | Hne].
    + rewrite list_lookup_insert_eq in Hj.
      * inversion Hj; subst x.
        split; [exact Hnz | apply elem_of_union_l, elem_of_singleton; reflexivity].
      * rewrite length_fmap, registered_length by exact Hwf. lia.
    + rewrite list_lookup_insert_ne in Hj by congruence.
      destruct (Hin x) as [Hx0 Hx1]; [apply list_elem_of_lookup; eauto |].
      split; [exact Hx0 | apply elem_of_union_r; exact Hx1].
Qed.

Lemma steady_DestroyGLTextures_loop :
  ∀ (fuel k : nat), steady (DestroyGLTextures_loop fuel (Z.of_nat k)).
Proof.
  induction fuel as [| fuel IH]; intros k w a w' Hwf H; simpl in H;
    unfold mbind, M_bind, get in H;
    destruct (Z.of_nat k <? m_loadedTextures (scene w)) eqn:E.
  - discriminate.
  - inversion H; subst. apply extends_refl. exact Hwf.
  - apply Z.ltb_lt in E.
    destruct (destroy_round_extends k w Hwf E) as [e [He [Hrun Hext]]].
    unfold mbind, M_bind in Hrun.
    destruct (gl_gen w) as [[id w1] | x] eqn:Eg; [| discriminate].
    rewrite Hrun in H.
    replace (Z.of_nat k + 1) with (Z.of_nat (S k)) in H by lia.
    eapply extends_trans; [exact Hext |].
    eapply IH; [apply Hext | exact H].
  - inversion H; subst. apply extends_refl. exact Hwf.
Qed.

Lemma steady_DestroyGLTextures : steady DestroyGLTextures.
Proof.
  intros w a w' Hwf H. unfold DestroyGLTextures, mbind, M_bind, get in H.
  exact (steady_DestroyGLTextures_loop _ 0 w a w' Hwf H).
Qed.

Ltac steady_step :=
  lazymatch goal with
  | |- steady (mret _) => apply steady_ret
  | |- steady get => apply steady_get
  | |- steady (reading _) => apply steady_reading
  | |- steady (shader_call _) => apply steady_shader_call
  | |- steady (push_back _) => apply steady_push_back
  | |- steady (CreateGLTexture _ _ _) => apply steady_CreateGLTexture
  | |- steady BindGLTextures => apply steady_BindGLTextures
  | |- steady DestroyGLTextures => apply steady_DestroyGLTextures
  | |- steady (_ ≫= _) => apply steady_bind; [| intros ?]
  end.

Lemma steady_SetTransformations s rx ry rz p : steady (SetTransformations s rx ry rz p).
Proof.
  unfold SetTransformations. apply steady_bind; [apply steady_get | intros w].
  destruct (has_shader w); repeat steady_step.
Qed.

Lemma steady_SetShaderColor r g b a : steady (SetShaderColor r g b a).
Proof.
  unfold SetShaderColor. apply steady_bind; [apply steady_get | intros w].
  destruct (has_shader w); repeat steady_step.
Qed.

Lemma steady_SetShaderTexture t : steady (SetShaderTexture t).
Proof.
  unfold SetShaderTexture. apply steady_bind; [apply steady_get | intros w].
  destruct (has_shader w); repeat steady_step.
Qed.

Lemma steady_SetTextureUVScale u v : steady (SetTextureUVScale u v).
Proof.
  unfold SetTextureUVScale. apply steady_bind; [apply steady_get | intros w].
  destruct (has_shader w); repeat steady_step.
Qed.

Lemma steady_SetShaderMaterial g t : steady (SetShaderMaterial g t).
Proof.
  unfold SetShaderMaterial. apply steady_bind; [apply steady_get | intros w].
  destruct (0 <? Z.of_nat (length (m_objectMaterials (scene w)))); [| apply steady_ret].
  apply steady_bind; [apply steady_reading | intros [b m]].
  destruct b; repeat steady_step.
Qed.

Lemma steady_run_op op : steady (run_op op).
Proof.
  destruct op; simpl.
  - apply steady_SetTransformations.
  - apply steady_SetShaderColor.
  - apply steady_SetShaderTexture.
  - apply steady_SetTextureUVScale.
  - apply steady_SetShaderMaterial.
Qed.

Lemma steady_LoadSceneTextures ld : steady (LoadSceneTextures ld).
Proof. unfold LoadSceneTextures. repeat steady_step. Qed.

Lemma steady_DefineObjectMaterials : steady DefineObjectMaterials.
Proof. unfold DefineObjectMaterials. repeat steady_step. Qed.

Lemma steady_SetupSceneLights : steady SetupSceneLights.
Proof. unfold SetupSceneLights. repeat steady_step. Qed.

(** The same on the whole program state. *)

Lemma extends_program_refl p : wf (scene (world p)) → extends_program p p.
Proof. intros H. split; [apply extends_refl; exact H | split; reflexivity]. Qed.

Lemma extends_program_trans p1 p2 p3 :
  extends_program p1 p2 → extends_program p2 p3 → extends_program p1 p3.
Proof.
  intros (Hw & Hl & Hd) (Hw' & Hl' & Hd').
  split; [eapply extends_trans; eassumption |].
  split; etrans; eassumption.
Qed.

Lemma steady_program_ret {A} (a : A) : steady_program (mret a).
Proof.
  intros p a' p' Hwf H. inversion H; subst. apply extends_program_refl. exact Hwf.
Qed.

Lemma steady_program_bind {A B} (m : M Program A) (k : A → M Program B) :
  steady_program m → (∀ a, steady_program (k a)) → steady_program (m ≫= k).
Proof.
  intros Hm Hk p b p' Hwf H. unfold mbind, M_bind in H.
  destruct (m p) as [[a p1] | x] eqn:E; [| discriminate].
  pose proof (Hm p a p1 Hwf E) as H1.
  apply (extends_program_trans p p1 p'); [exact H1 |].
  apply (Hk a p1 b p'); [apply H1 | exact H].
Qed.

Lemma steady_in_world {A} (m : M World A) : steady m → steady_program (in_world m).
Proof.
  intros Hm p a p' Hwf H. unfold in_world in H.
  destruct (m (world p)) as [[a' w'] | x] eqn:E; inversion H; subst.
  split; [exact (Hm _ _ _ Hwf E) | split; reflexivity].
Qed.

Lemma steady_LoadMesh k : steady_program (LoadMesh k).
Proof.
  intros p a p' Hwf H. unfold LoadMesh, modify in H. inversion H; subst.
  split; [apply extends_refl; exact Hwf |]. simpl.
  split; [apply prefix_app_r |]; reflexivity.
Qed.

Lemma steady_DrawMesh k : steady_program (DrawMesh k).
Proof.
  intros p a p' Hwf H. unfold DrawMesh, modify in H. inversion H; subst.
  split; [apply extends_refl; exact Hwf |]. simpl.
  split; [| apply prefix_app_r]; reflexivity.
Qed.

Ltac steady_leaf :=
  first
    [ apply steady_SetTransformations
    | apply steady_SetShaderColor
    | apply steady_SetShaderTexture
    | apply steady_SetTextureUVScale
    | apply steady_SetShaderMaterial
    | apply steady_run_op
    | apply steady_CreateGLTexture
    | apply steady_BindGLTextures
    | apply steady_DestroyGLTextures
    | apply steady_LoadSceneTextures
    | apply steady_DefineObjectMaterials
    | apply steady_SetupSceneLights ].

Ltac steady_program_step :=
  lazymatch goal with
  | |- steady_program (mret _) => apply steady_program_ret
  | |- steady_program (LoadMesh _) => apply steady_LoadMesh
  | |- steady_program (DrawMesh _) => apply steady_DrawMesh
  | |- steady_program (in_world _) => apply steady_in_world; steady_leaf
  | |- steady_program (_ ≫= _) => apply steady_program_bind; [| intros ?]
  end.

Lemma steady_exec_statement g l s : steady_program (exec_statement g l s).
Proof. destruct s; simpl; repeat steady_program_step. Qed.

Lemma steady_exec_statements g body :
  ∀ n l, steady_program (exec_statements g n l body).
Proof.
  induction body as [| s body IH]; intros n l; simpl.
  - apply steady_program_ret.
  - apply steady_program_bind; [apply steady_exec_statement | intros l'; apply IH].
Qed.

Lemma steady_RenderScene s p g : steady_program (RenderScene s p g).
Proof.
  unfold RenderScene. apply steady_program_bind;
    [apply steady_exec_statements | intros; apply steady_program_ret].
Qed.

Lemma steady_PrepareScene ld : steady_program (PrepareScene ld).
Proof. unfold PrepareScene. repeat steady_program_step. Qed.

Lemma steady_run_call ld c : steady_program (run_call ld c).
Proof.
  destruct c; simpl; repeat steady_program_step.
  - apply steady_PrepareScene.
  - apply steady_RenderScene.
Qed.

Lemma steady_run_calls ld cs : steady_program (run_calls ld cs).
Proof.
  induction cs as [| c cs IH]; simpl.
  - apply steady_program_ret.
  - apply steady_program_bind; [apply steady_run_call | intros; exact IH].
Qed.

Lemma findSlot_via_tags reg t :
  findSlot reg t = fst <$> list_find (λ x, x = t) (tag <$> reg).
Proof.
  unfold findSlot. rewrite list_find_fmap.
  destruct (list_find _ reg) as [[i x] |]; reflexivity.
Qed.

Lemma findSlot_prefix reg reg' t i :
  (tag <$> reg) `prefix_of` (tag <$> reg') →
  findSlot reg t = Some i → findSlot reg' t = Some i.
Proof.
  intros [k Hk]. rewrite !findSlot_via_tags, Hk. intros H.
  apply fmap_Some in H as [[j x] [Hf Hi]]. simpl in Hi. subst j.
  rewrite (list_find_app_l _ _ _ _ _ Hf). reflexivity.
Qed.

Lemma lookup_material_prefix ms ms' t e :
  ms `prefix_of` ms' → lookup_material ms t = Some e → lookup_material ms' t = Some e.
Proof.
  intros [k ->]. unfold lookup_material. intros H.
  apply fmap_Some in H as [[j x] [Hf He]]. simpl in He. subst x.
  rewrite (list_find_app_l _ _ _ _ _ Hf). reflexivity.
Qed.

Lemma FindTextureSlot_prefix s s' t i :
  wf s → wf s' →
  (tag <$> registered s) `prefix_of` (tag <$> registered s') →
  0 ≤ i → FindTextureSlot s t = Ok i → FindTextureSlot s' t = Ok i.
Proof.
  intros Hwf Hwf' Hpre Hi H.
  rewrite FindTextureSlot_findSlot in H by exact Hwf.
  rewrite FindTextureSlot_findSlot by exact Hwf'.
  destruct (findSlot (registered s) t) as [k |] eqn:E; simpl in H;
    [| inversion H; lia].
  rewrite (findSlot_prefix _ _ _ _ Hpre E). exact H.
Qed.

(** X1.  Whatever member functions are called in whatever order, as long as the
    calls return: the registry stays well formed, the number of registered
    textures does not decrease, a tag that resolved to a slot resolves to the
    same slot, a material tag that was found is found with the same entry, no
    texture name of the GL context is released, the shader manager is neither
    attached nor detached, and the mesh loads and draws already issued stay
    as they are. *)
Theorem calls_never_undo :
  ∀ (stbi_load : string → option Image) (cs : list MemberCall) (p p' : Program),
    wf (scene (world p)) →
    run_calls stbi_load cs p = Ok (tt, p') →
    wf (scene (world p')) ∧
    m_loadedTextures (scene (world p)) ≤ m_loadedTextures (scene (world p')) ∧
    (∀ t i, 0 ≤ i →
            FindTextureSlot (scene (world p)) t = Ok i →
            FindTextureSlot (scene (world p')) t = Ok i) ∧
    (∀ t e, lookup_material (m_objectMaterials (scene (world p))) t = Some e →
            lookup_material (m_objectMaterials (scene (world p'))) t = Some e) ∧
    gl_names (gl (world p)) ⊆ gl_names (gl (world p')) ∧
    (is_Some (m_pShaderManager (scene (world p))) ↔
     is_Some (m_pShaderManager (scene (world p')))) ∧
    loaded_meshes (m_basicMeshes p) `prefix_of` loaded_meshes (m_basicMeshes p') ∧
    draw_calls (m_basicMeshes p) `prefix_of` draw_calls (m_basicMeshes p').
Proof.
  intros ld cs p p' Hwf Hrun.
  destruct (steady_run_calls ld cs p tt p' Hwf Hrun)
    as [(Hwf' & Htags & Hmats & Hnames & Hsh & _) [Hl Hd]].
  split; [exact Hwf' |]. split.
  { apply prefix_length in Htags. rewrite !length_fmap in Htags.
    rewrite !registered_length in Htags by assumption.
    destruct Hwf as [_ [? _]], Hwf' as [_ [? _]]. lia. }
  split; [intros t i Hi; apply FindTextureSlot_prefix; assumption |].
  split; [intros t e; apply lookup_material_prefix; exact Hmats |].
  tauto.
Qed.

Lemma calls_never_undo_witness :
  wf (scene (world sample_program)) ∧
  m_loadedTextures (scene (world (empty_program (Some ∅))))
    ≤ m_loadedTextures (scene (world sample_program)) ∧
  gl_names (gl (world (empty_program (Some ∅)))) ⊆ gl_names (gl (world sample_program)).
Proof.
  destruct (calls_never_undo sample_files sample_calls
              (empty_program (Some ∅)) sample_program)
    as (H1 & H2 & _ & _ & H5 & _).
  - split; [vm_compute; reflexivity | split; vm_compute; discriminate].
  - vm_compute. reflexivity.
  - split; [exact H1 |]. split; [exact H2 | exact H5].
Defined.

(** X2.  When the handles of the registered textures are pairwise distinct,
    non-zero names in use in the GL context, as they are in an empty
    registry, they are so again after any sequence of member function calls
    that returns. *)
Theorem handles_stay_distinct :
  ∀ (stbi_load : string → option Image) (cs : list MemberCall) (p p' : Program),
    wf (scene (world p)) →
    handles_ok (world p) →
    run_calls stbi_load cs p = Ok (tt, p') →
    NoDup (ID <$> registered (scene (world p'))) ∧
    ∀ id, id ∈ ID <$> registered (scene (world p')) →
          id ≠ 0%N ∧ id ∈ gl_names (gl (world p')).
Proof.
  intros ld cs p p' Hwf Hok Hrun.
  destruct (steady_run_calls ld cs p tt p' Hwf Hrun) as [(_ & _ & _ & _ & _ & Hh) _].
  exact (Hh Hok).
Qed.

Lemma handles_stay_distinct_witness :
  NoDup (ID <$> registered (scene (world sample_program))) ∧
  ∀ id, id ∈ ID <$> registered (scene (world sample_program)) →
        id ≠ 0%N ∧ id ∈ gl_names (gl (world sample_program)).
Proof.
  apply (handles_stay_distinct sample_files sample_calls
           (empty_program (Some ∅)) sample_program).
  - split; [vm_compute; reflexivity | split; vm_compute; discriminate].
  - split; [apply NoDup_nil_2 |]. intros id Hid. apply elem_of_nil in Hid. contradiction.
  - vm_compute. reflexivity.
Defined.

(** ** The two lookups of the registry *)

Lemma findHandle_Some reg t i e :
  reg !! i = Some e → tag e = t →
  (∀ j e', (j < i)%nat → reg !! j = Some e' → tag e' ≠ t) →
  findSlot reg t = Some i ∧ findHandle reg t = Some (ID e).
Proof.
  intros He Ht Hfirst.
  assert (Hf : list_find (λ e, tag e = t) reg = Some (i, e)).
  { apply list_find_Some. split; [exact He |]. split; [exact Ht |].
    intros j e' He' Hj. exact (Hfirst j e' Hj He'). }
  unfold findSlot, findHandle. rewrite Hf. split; reflexivity.
Qed.

Lemma findHandle_None reg t :
  (∀ e, e ∈ reg → tag e ≠ t) → findSlot reg t = None ∧ findHandle reg t = None.
Proof.
  intros H. apply findSlot_None in H. unfold findSlot, findHandle in *.
  destruct (list_find _ reg); [discriminate | split; reflexivity].
Qed.

Lemma int_of_GLuint_small n : Z.of_N n < 2 ^ 31 → int_of_GLuint n = Z.of_N n.
Proof.
  intros H. unfold int_of_GLuint.
  rewrite Z.mod_small by lia.
  replace (Z.of_N n <? 2 ^ 31) with true by (symmetry; apply Z.ltb_lt; exact H).
  reflexivity.
Qed.

Lemma lookups_agree_helper s t (i : nat) e :
  wf s → registered s !! i = Some e → tag e = t →
  (∀ j e', (j < i)%nat → registered s !! j = Some e' → tag e' ≠ t) →
  FindTextureID s t = Ok (int_of_GLuint (ID e)).
Proof.
  intros Hwf He Ht Hfirst. rewrite FindTextureID_findHandle by exact Hwf.
  destruct (findHandle_Some _ _ _ _ He Ht Hfirst) as [_ ->]. reflexivity.
Qed.

(** X3.  [FindTextureSlot] and [FindTextureID] agree: for a tag no registered
    entry carries both return -1; otherwise one returns the slot of the first
    entry with the tag and the other the handle stored in that same entry,
    converted to [int] (unchanged when below 2^31). *)
Theorem lookups_agree :
  ∀ (s : SceneManager) (t : string),
    wf s →
    ((∀ e, e ∈ registered s → tag e ≠ t) →
     FindTextureSlot s t = Ok (-1) ∧ FindTextureID s t = Ok (-1)) ∧
    (∀ (i : nat) e,
        registered s !! i = Some e → tag e = t →
        (∀ j e', (j < i)%nat → registered s !! j = Some e' → tag e' ≠ t) →
        FindTextureSlot s t = Ok (Z.of_nat i) ∧
        FindTextureID s t = Ok (int_of_GLuint (ID e)) ∧
        (Z.of_N (ID e) < 2 ^ 31 → FindTextureID s t = Ok (Z.of_N (ID e)))).
Proof.
  intros s t Hwf.
  rewrite FindTextureSlot_findSlot, FindTextureID_findHandle by exact Hwf.
  split.
  - intros Habs. destruct (findHandle_None _ _ Habs) as [-> ->]. split; reflexivity.
  - intros i e He Ht Hfirst.
    destruct (findHandle_Some _ _ _ _ He Ht Hfirst) as [-> ->]. simpl.
    split; [reflexivity |]. split; [reflexivity |].
    intros Hsmall. rewrite int_of_GLuint_small by exact Hsmall. reflexivity.
Qed.

Lemma lookups_agree_witness :
  FindTextureSlot (scene thrice_world) "steel" = Ok 0 ∧
  FindTextureID (scene thrice_world) "steel" = Ok 1.
Proof.
  destruct (lookups_agree (scene thrice_world) "steel") as [_ H].
  - split; [vm_compute; reflexivity | split; vm_compute; discriminate].
  - destruct (H 0%nat (mkTEXTURE_INFO "steel" 1%N)) as (H1 & _ & H3).
    + vm_compute. reflexivity.
    + reflexivity.
    + intros j e' Hj. lia.
    + split; [exact H1 |]. apply H3. vm_compute. reflexivity.
Defined.

(** ** Binding *)

Lemma BindGLTextures_loop_rest :
  ∀ (n k fuel : nat) (w : World),
    wf (scene w) →
    Z.of_nat k + Z.of_nat n = m_loadedTextures (scene w) →
    (n ≤ fuel)%nat →
    ∃ g, BindGLTextures_loop fuel (Z.of_nat k) w = Ok (tt, mkWorld g (scene w)) ∧
         (∀ u : N, m_loadedTextures (scene w) ≤ Z.of_N u →
                   gl_bound g !! u = gl_bound (gl w) !! u) ∧
         gl_active g = (if n is O then gl_active (gl w)
                        else Z.to_N (m_loadedTextures (scene w) - 1)).
Proof.
  induction n as [| n IH]; intros k fuel w Hwf Hk Hfuel.
  - exists (gl w). destruct fuel; simpl; unfold_monad;
      (replace (Z.of_nat k <? m_loadedTextures (scene w)) with false
        by (symmetry; apply Z.ltb_ge; lia)).
    all: split; [destruct w; reflexivity |]; split; reflexivity.
  - destruct fuel as [| fuel]; [lia |]. simpl. unfold_monad.
    replace (Z.of_nat k <? m_loadedTextures (scene w)) with true
      by (symmetry; apply Z.ltb_lt; lia).
    destruct (read_registered (scene w) k Hwf) as [e [He Hr]]; [lia |].
    rewrite Hr. simpl.
    replace (Z.of_nat k + 1) with (Z.of_nat (S k)) by lia.
    match goal with |- context [BindGLTextures_loop _ _ ?x] => set (w1 := x) end.
    destruct (IH (S k) fuel w1) as [g [Hrun [Hrest Hact]]];
      [exact Hwf | simpl; lia | lia |].
    exists g. split; [exact Hrun |]. split.
    + intros u Hu. rewrite Hrest by exact Hu. subst w1. simpl.
      apply lookup_insert_ne. lia.
    + rewrite Hact. subst w1. simpl. destruct n; [f_equal; lia | reflexivity].
Qed.

(** X4.  [BindGLTextures] completes on a well-formed registry and changes only the
    unit bindings and the active unit: the names in use and the texture
    objects of the GL context are as before, the active unit is the one of
    the last registered slot (the one it was with an empty registry), the
    slot a tag resolves to is the texture unit that holds the handle
    [FindTextureID] returns for the tag, and the units from
    [m_loadedTextures] on are as before. *)
Theorem bind_units_match_slots :
  ∀ w : World,
    wf (scene w) →
    ∃ g, BindGLTextures w = Ok (tt, mkWorld g (scene w)) ∧
         gl_names g = gl_names (gl w) ∧
         gl_objects g = gl_objects (gl w) ∧
         gl_active g = (if decide (m_loadedTextures (scene w) = 0) then gl_active (gl w)
                        else Z.to_N (m_loadedTextures (scene w) - 1)) ∧
         (∀ t i, 0 ≤ i →
                 FindTextureSlot (scene w) t = Ok i →
                 ∃ e, registered (scene w) !! Z.to_nat i = Some e ∧
                      tag e = t ∧
                      gl_bound g !! Z.to_N i = Some (ID e) ∧
                      FindTextureID (scene w) t = Ok (int_of_GLuint (ID e))) ∧
         (∀ u : N, m_loadedTextures (scene w) ≤ Z.of_N u →
                   gl_bound g !! u = gl_bound (gl w) !! u).
Proof.
  intros w Hwf. pose proof Hwf as [_ [H0 _]].
  destruct (BindGLTextures_loop_spec (Z.to_nat (m_loadedTextures (scene w))) 0
              (Z.to_nat (m_loadedTextures (scene w))) w Hwf)
    as [g [Hrun [Hnames [Hobjects [Hunits _]]]]]; [lia | lia |].
  destruct (BindGLTextures_loop_rest (Z.to_nat (m_loadedTextures (scene w))) 0
              (Z.to_nat (m_loadedTextures (scene w))) w Hwf)
    as [g' [Hrun' [Hrest Hactive]]]; [lia | lia |].
  assert (g' = g) as ->.
  { change (Z.of_nat 0) with 0 in Hrun, Hrun'.
    rewrite Hrun in Hrun'. inversion Hrun'. reflexivity. }
  exists g. split; [exact Hrun |]. split; [exact Hnames |]. split; [exact Hobjects |].
  split.
  { rewrite Hactive. destruct (decide (m_loadedTextures (scene w) = 0)) as [E | E].
    - rewrite E. reflexivity.
    - destruct (Z.to_nat (m_loadedTextures (scene w))) eqn:En; [lia | reflexivity]. }
  split; [| exact Hrest].
  intros t i Hi Hslot.
  rewrite FindTextureSlot_findSlot in Hslot by exact Hwf.
  destruct (findSlot (registered (scene w)) t) as [k |] eqn:Ek; simpl in Hslot;
    [| inversion Hslot; lia].
  inversion Hslot; subst i. rewrite Nat2Z.id.
  apply findSlot_Some in Ek as [e [He [Ht Hfirst]]].
  exists e. split; [exact He |]. split; [exact Ht |]. split.
  - replace (Z.to_N (Z.of_nat k)) with (N.of_nat k) by lia.
    apply Hunits; [lia | exact He].
  - apply (lookups_agree_helper (scene w) t k e Hwf He Ht Hfirst).
Qed.

Lemma bind_units_match_slots_witness :
  ∃ g, BindGLTextures thrice_world = Ok (tt, mkWorld g (scene thrice_world)) ∧
       gl_names g = gl_names (gl thrice_world) ∧
       gl_objects g = gl_objects (gl thrice_world) ∧
       gl_active g = (if decide (m_loadedTextures (scene thrice_world) = 0)
                      then gl_active (gl thrice_world)
                      else Z.to_N (m_loadedTextures (scene thrice_world) - 1)) ∧
       (∀ t i, 0 ≤ i →
               FindTextureSlot (scene thrice_world) t = Ok i →
               ∃ e, registered (scene thrice_world) !! Z.to_nat i = Some e ∧
                    tag e = t ∧
                    gl_bound g !! Z.to_N i = Some (ID e) ∧
                    FindTextureID (scene thrice_world) t = Ok (int_of_GLuint (ID e))) ∧
       (∀ u : N, m_loadedTextures (scene thrice_world) ≤ Z.of_N u →
                 gl_bound g !! u = gl_bound (gl thrice_world) !! u).
Proof.
  refine (bind_units_match_slots thrice_world _).
  split; [vm_compute; reflexivity | split; vm_compute; discriminate].
Defined.

(** ** Loading *)

Lemma gl_update_current_object f g id :
  gl_bound g !! gl_active g = Some id →
  gl_bound (gl_update_current f g) = gl_bound g ∧
  gl_active (gl_update_current f g) = gl_active g ∧
  gl_object (gl_update_current f g) id = f (gl_object g id) ∧
  gl_objects (gl_update_current f g) !! id = Some (f (gl_object g id)).
Proof.
  intros H. unfold gl_update_current, gl_current, gl_object. rewrite H. simpl.
  rewrite lookup_insert_eq. repeat split.
Qed.

(** The texture object the upload leaves under the new name. *)
Lemma gl_loaded_object fmt img g :
  gl_objects (gl_loaded fmt img g) !! next_name g =
  Some (mkTexObject (Some GL_REPEAT) (Some GL_REPEAT) (Some GL_LINEAR) (Some GL_LINEAR)
                    (Some (mkTexImage fmt (width img) (height img) (pixels img))) true).
Proof.
  unfold gl_loaded, glGenerateMipmap, glTexImage2D, gl_configured.
  set (g0 := glBindTexture (next_name g) (glGenTextures g).2).
  assert (H0 : gl_bound g0 !! gl_active g0 = Some (next_name g))
    by (unfold g0; simpl; apply lookup_insert_eq).
  set (g1 := gl_update_current (set_wrap_s GL_REPEAT) g0).
  destruct (gl_update_current_object (set_wrap_s GL_REPEAT) g0 _ H0) as (Hb1 & Ha1 & Ho1 & _).
  fold g1 in Hb1, Ha1, Ho1.
  assert (H1 : gl_bound g1 !! gl_active g1 = Some (next_name g)) by (rewrite Hb1, Ha1; exact H0).
  set (g2 := gl_update_current (set_wrap_t GL_REPEAT) g1).
  destruct (gl_update_current_object (set_wrap_t GL_REPEAT) g1 _ H1) as (Hb2 & Ha2 & Ho2 & _).
  fold g2 in Hb2, Ha2, Ho2.
  assert (H2 : gl_bound g2 !! gl_active g2 = Some (next_name g)) by (rewrite Hb2, Ha2; exact H1).
  set (g3 := gl_update_current (set_min_filter GL_LINEAR) g2).
  destruct (gl_update_current_object (set_min_filter GL_LINEAR) g2 _ H2) as (Hb3 & Ha3 & Ho3 & _).
  fold g3 in Hb3, Ha3, Ho3.
  assert (H3 : gl_bound g3 !! gl_active g3 = Some (next_name g)) by (rewrite Hb3, Ha3; exact H2).
  set (g4 := gl_update_current (set_mag_filter GL_LINEAR) g3).
  destruct (gl_update_current_object (set_mag_filter GL_LINEAR) g3 _ H3) as (Hb4 & Ha4 & Ho4 & _).
  fold g4 in Hb4, Ha4, Ho4.
  assert (H4 : gl_bound g4 !! gl_active g4 = Some (next_name g)) by (rewrite Hb4, Ha4; exact H3).
  set (up := set_level0 (mkTexImage fmt (width img) (height img) (pixels img))).
  set (g5 := gl_update_current up g4).
  destruct (gl_update_current_object up g4 _ H4) as (Hb5 & Ha5 & Ho5 & _).
  fold g5 in Hb5, Ha5, Ho5.
  assert (H5 : gl_bound g5 !! gl_active g5 = Some (next_name g)) by (rewrite Hb5, Ha5; exact H4).
  destruct (gl_update_current_object set_mipmaps g5 _ H5) as (_ & _ & _ & Ho6).
  unfold glBindTexture. cbn [gl_objects].
  rewrite Ho6, Ho5, Ho4, Ho3, Ho2, Ho1. reflexivity.
Qed.

(** X5.  A successful load of a tag that is not registered yet: the tag resolves
    to the slot that was the next free one and to the handle just generated,
    a name the GL context did not have in use; the texture object under that
    name has repeat wrapping on both axes, linear filtering for both filters,
    the decoded image as its level 0 in the format of its channel count, and
    mipmaps; the active unit is left with no 2D texture bound; and the
    lookups of every other tag are what they were. *)
Theorem load_then_lookup :
  ∀ (stbi_load : string → option Image) (f t : string) (w w' : World),
    wf (scene w) →
    (∀ e, e ∈ registered (scene w) → tag e ≠ t) →
    CreateGLTexture stbi_load f t w = Ok (true, w') →
    FindTextureSlot (scene w') t = Ok (m_loadedTextures (scene w)) ∧
    FindTextureID (scene w') t = Ok (int_of_GLuint (next_name (gl w))) ∧
    (next_name (gl w) ∉ gl_names (gl w)) ∧
    gl_names (gl w') = {[next_name (gl w)]} ∪ gl_names (gl w) ∧
    (∃ img, stbi_load f = Some img ∧
            gl_objects (gl w') !! next_name (gl w) =
            Some (mkTexObject (Some GL_REPEAT) (Some GL_REPEAT)
                    (Some GL_LINEAR) (Some GL_LINEAR)
                    (Some (mkTexImage (if colorChannels img =? 3 then GL_RGB8 else GL_RGBA8)
                             (width img) (height img) (pixels img)))
                    true)) ∧
    gl_bound (gl w') !! gl_active (gl w') = Some 0%N ∧
    (∀ t', t' ≠ t →
           FindTextureSlot (scene w') t' = FindTextureSlot (scene w) t' ∧
           FindTextureID (scene w') t' = FindTextureID (scene w) t').
Proof.
  intros ld f t w w' Hwf Habs Hload.
  destruct (CreateGLTexture_true_inv ld f t w w' Hwf Hload)
    as [img [Hf [Hc [Hn ->]]]].
  cbn [scene gl].
  assert (Hwf' := registered_scene_wf t (next_name (gl w)) (scene w) Hwf Hn).
  assert (Hreg := registered_scene_registered t (next_name (gl w)) (scene w) Hwf Hn).
  pose proof (registered_length (scene w) Hwf) as Hlen.
  pose proof Hwf as [_ [H0 _]].
  destruct (findHandle_None _ _ Habs) as [Hs Hh].
  rewrite !FindTextureSlot_findSlot, !FindTextureID_findHandle by assumption.
  rewrite Hreg.
  split.
  { rewrite (findSlot_app_r _ _ _ [] Hs). simpl. f_equal. lia. }
  split.
  { unfold findHandle in *. unfold findSlot in Hs.
    destruct (list_find (λ e, tag e = t) (registered (scene w))) as [p |] eqn:E;
      [discriminate |].
    rewrite list_find_app_r by exact E. simpl.
    rewrite decide_True by reflexivity. reflexivity. }
  split; [apply next_name_fresh |]. split; [apply gl_loaded_names |].
  split; [exists img; split; [exact Hf | apply gl_loaded_object] |].
  split; [unfold gl_loaded, glBindTexture; simpl; apply lookup_insert_eq |].
  intros t' Hne.
  rewrite !FindTextureSlot_findSlot, !FindTextureID_findHandle by assumption.
  rewrite Hreg. unfold findSlot, findHandle.
  destruct (list_find (λ e, tag e = t') (registered (scene w))) as [[i x] |] eqn:E.
  - rewrite (list_find_app_l _ _ _ _ _ E). split; reflexivity.
  - rewrite list_find_app_r by exact E. simpl.
    rewrite decide_False by congruence. split; reflexivity.
Qed.

Lemma load_then_lookup_witness :
  FindTextureSlot (scene steel_world) "steel" = Ok 0 ∧
  FindTextureID (scene steel_world) "steel" = Ok 1 ∧
  ∀ t', t' ≠ "steel" → FindTextureSlot (scene steel_world) t' = Ok (-1).
Proof.
  destruct (load_then_lookup sample_files "x.png" "steel"
              (empty_world (Some ∅)) steel_world) as (H1 & H2 & _ & _ & _ & _ & H7).
  - split; [vm_compute; reflexivity | split; vm_compute; discriminate].
  - intros e He. apply elem_of_nil in He. contradiction.
  - vm_compute. reflexivity.
  - split; [exact H1 |]. split; [exact H2 |].
    intros t' Hne. destruct (H7 t' Hne) as [-> _].
    rewrite FindTextureSlot_findSlot
      by (split; [vm_compute; reflexivity | split; vm_compute; discriminate]).
    reflexivity.
Defined.

(** ** Loads that fail *)

Lemma register_texture_true id t w b w' :
  register_texture id t w = Ok (b, w') → b = true.
Proof.
  unfold register_texture. unfold_monad. intros H.
  repeat match type of H with
         | match ?x with _ => _ end = _ => destruct x as [[[] ?] | ?]; try discriminate
         end.
  inversion H. reflexivity.
Qed.

(** X6.  [CreateGLTexture] returns [false] exactly when the file cannot be decoded
    or decodes to a channel count other than 3 and 4, and then the scene
    manager is untouched.  In the first case nothing at all changes.  In the
    second the texture name generated for the upload is not given back: it
    stays in use in the GL context and stays bound on the active unit. *)
Theorem failed_load :
  ∀ (stbi_load : string → option Image) (f t : string) (w : World),
    (stbi_load f = None → CreateGLTexture stbi_load f t w = Ok (false, w)) ∧
    (∀ img, stbi_load f = Some img →
            colorChannels img ≠ 3 → colorChannels img ≠ 4 →
            ∃ w', CreateGLTexture stbi_load f t w = Ok (false, w') ∧
                  scene w' = scene w ∧
                  (next_name (gl w) ∉ gl_names (gl w)) ∧
                  gl_names (gl w') = {[next_name (gl w)]} ∪ gl_names (gl w) ∧
                  gl_bound (gl w') !! gl_active (gl w') = Some (next_name (gl w))) ∧
    (∀ w', CreateGLTexture stbi_load f t w = Ok (false, w') →
           scene w' = scene w ∧
           (stbi_load f = None ∨
            ∃ img, stbi_load f = Some img ∧
                   colorChannels img ≠ 3 ∧ colorChannels img ≠ 4)).
Proof.
  intros ld f t w. split; [apply CreateGLTexture_unreadable |]. split.
  - intros img Hf H3 H4. eexists.
    split; [apply (CreateGLTexture_unsupported ld f t w img Hf H3 H4) |].
    cbn [scene gl]. split; [reflexivity |].
    split; [apply next_name_fresh |]. split; [apply gl_configured_names |].
    unfold gl_configured, gl_update_current. simpl. apply lookup_insert_eq.
  - intros w' H. destruct (ld f) as [img |] eqn:E.
    2:{ rewrite CreateGLTexture_unreadable in H by exact E. inversion H; subst.
        split; [reflexivity | left; reflexivity]. }
    destruct (decide (colorChannels img = 3 ∨ colorChannels img = 4)) as [Hc | Hc].
    + rewrite (CreateGLTexture_supported ld f t w img E Hc) in H.
      apply register_texture_true in H. discriminate.
    + rewrite (CreateGLTexture_unsupported ld f t w img E) in H by tauto.
      inversion H; subst. split; [reflexivity |].
      right. exists img. split; [reflexivity | tauto].
Qed.

Lemma failed_load_witness :
  ∃ w', CreateGLTexture sample_files "gray.png" "bad" steel_world = Ok (false, w') ∧
        scene w' = scene steel_world ∧
        (next_name (gl steel_world) ∉ gl_names (gl steel_world)) ∧
        gl_names (gl w') = {[next_name (gl steel_world)]} ∪ gl_names (gl steel_world) ∧
        gl_bound (gl w') !! gl_active (gl w') = Some (next_name (gl steel_world)).
Proof.
  refine (proj1 (proj2 (failed_load sample_files "gray.png" "bad" steel_world))
            (mkImage 1 1 1 [Byte.x7f]) _ _ _).
  - reflexivity.
  - discriminate.
  - discriminate.
Defined.

(** ** Uniform writes *)

Lemma apply_writes_union ws :
  ∀ sh : ShaderManager, apply_writes ws sh = list_to_map (reverse ws) ∪ sh.
Proof.
  induction ws as [| [k v] ws IH]; intros sh.
  - simpl. rewrite (left_id_L ∅ (∪)). reflexivity.
  - unfold apply_writes in *. simpl. rewrite IH.
    rewrite reverse_cons, list_to_map_app. simpl.
    rewrite <- (assoc_L (∪)). f_equal.
    rewrite insert_empty. apply insert_union_singleton_l.
Qed.

Lemma apply_writes_frame ws (sh : ShaderManager) name :
  name ∉ ws.*1 → apply_writes ws sh !! name = sh !! name.
Proof.
  intros H. rewrite apply_writes_union. apply lookup_union_r.
  apply not_elem_of_list_to_map_1. rewrite fmap_reverse, elem_of_reverse. exact H.
Qed.

Lemma apply_writes_written ws (sh : ShaderManager) name :
  name ∈ ws.*1 → is_Some (apply_writes ws sh !! name).
Proof.
  intros H. rewrite apply_writes_union.
  assert (Hin : is_Some ((list_to_map (reverse ws) : ShaderManager) !! name)).
  { destruct ((list_to_map (reverse ws) : ShaderManager) !! name) eqn:E; [eauto |].
    apply not_elem_of_list_to_map_2 in E.
    rewrite fmap_reverse, elem_of_reverse in E. contradiction. }
  destruct Hin as [v Hv]. exists v. apply lookup_union_Some_l. exact Hv.
Qed.

Lemma apply_writes_dom ws (sh : ShaderManager) name :
  is_Some (sh !! name) → is_Some (apply_writes ws sh !! name).
Proof.
  intros [v Hv]. rewrite apply_writes_union.
  destruct ((list_to_map (reverse ws) : ShaderManager) !! name) as [u |] eqn:E.
  - exists u. apply lookup_union_Some_l. exact E.
  - exists v. rewrite lookup_union_r by exact E. exact Hv.
Qed.

Lemma apply_writes_twice ws (sh : ShaderManager) :
  apply_writes ws (apply_writes ws sh) = apply_writes ws sh.
Proof.
  rewrite !apply_writes_union. rewrite (assoc_L (∪)).
  rewrite (idemp_L (∪)). reflexivity.
Qed.

Lemma apply_writes_swap ws1 ws2 (sh : ShaderManager) :
  (∀ name, name ∈ ws1.*1 → name ∉ ws2.*1) →
  apply_writes ws2 (apply_writes ws1 sh) = apply_writes ws1 (apply_writes ws2 sh).
Proof.
  intros Hdisj. rewrite !apply_writes_union. rewrite !(assoc_L (∪)). f_equal.
  apply map_union_comm. apply map_disjoint_spec. intros k x y Hx Hy.
  apply elem_of_list_to_map_2 in Hx, Hy.
  rewrite elem_of_reverse in Hx. rewrite elem_of_reverse in Hy.
  apply (Hdisj k).
  - apply list_elem_of_fmap. exists (k, y). split; [reflexivity | exact Hy].
  - apply list_elem_of_fmap. exists (k, x). split; [reflexivity | exact Hx].
Qed.

Lemma with_store_same w sh :
  m_pShaderManager (scene w) = Some sh → with_store sh w = w.
Proof. intros H. destruct w as [g [psh n arr ms]]. simpl in *. subst. reflexivity. Qed.

(** A binder call is its list of uniform writes. *)
Lemma run_op_writes op w sh :
  wf (scene w) → m_pShaderManager (scene w) = Some sh →
  run_op op w = Ok (tt, with_store (apply_writes (op_writes (scene w) op) sh) w).
Proof.
  intros Hwf Hsh. destruct op as [s rx ry rz p | r g b a | t | u v | i t]; cbn [run_op].
  - rewrite (SetTransformations_spec s rx ry rz p w sh Hsh). reflexivity.
  - rewrite (SetShaderColor_spec r g b a w sh Hsh). reflexivity.
  - rewrite (SetShaderTexture_spec t w sh Hwf Hsh). reflexivity.
  - rewrite (SetTextureUVScale_spec u v w sh Hsh). reflexivity.
  - unfold op_writes. destruct (m_objectMaterials (scene w)) as [| e ms] eqn:E.
    + rewrite SetShaderMaterial_empty by exact E.
      unfold apply_writes. simpl. rewrite with_store_same by exact Hsh. reflexivity.
    + rewrite (SetShaderMaterial_spec i t w sh Hsh) by (rewrite E; discriminate).
      rewrite E. reflexivity.
Qed.

Lemma op_writes_names s op name :
  name ∈ (op_writes s op).*1 → name ∈ op_names op.
Proof.
  destruct op; simpl; try (intros H; exact H).
  destruct (m_objectMaterials s); simpl; intros H; [apply elem_of_nil in H; contradiction | exact H].
Qed.

Lemma op_writes_with_store s sh op :
  op_writes (set_shader sh s) op = op_writes s op.
Proof. destruct op; reflexivity. Qed.

(** X7.  A binder call on a well-formed scene manager with a shader manager
    attached returns and changes nothing but the uniform store: the GL
    context, the registry and the catalogue are as before, every uniform
    outside the names of the call keeps its value, and no uniform is
    removed. *)
Theorem binder_call_frame :
  ∀ (op : binder_op) (w : World) (sh : ShaderManager),
    wf (scene w) →
    m_pShaderManager (scene w) = Some sh →
    ∃ sh', run_op op w = Ok (tt, mkWorld (gl w) (set_shader (Some sh') (scene w))) ∧
           (∀ name, name ∉ op_names op → sh' !! name = sh !! name) ∧
           (∀ name, is_Some (sh !! name) → is_Some (sh' !! name)).
Proof.
  intros op w sh Hwf Hsh. eexists. split; [apply (run_op_writes op w sh Hwf Hsh) |].
  split.
  - intros name Hname. apply apply_writes_frame.
    intros Hin. apply Hname. exact (op_writes_names _ _ _ Hin).
  - intros name. apply apply_writes_dom.
Qed.

Lemma binder_call_frame_witness :
  ∃ sh', run_op (OpColor 1 0 0 1) steel_world
         = Ok (tt, mkWorld (gl steel_world) (set_shader (Some sh') (scene steel_world))) ∧
         (∀ name, name ∉ op_names (OpColor 1 0 0 1) → sh' !! name = (∅ : ShaderManager) !! name) ∧
         (∀ name, is_Some ((∅ : ShaderManager) !! name) → is_Some (sh' !! name)).
Proof.
  refine (binder_call_frame (OpColor 1 0 0 1) steel_world ∅ _ _).
  - split; [vm_compute; reflexivity | split; vm_compute; discriminate].
  - vm_compute. reflexivity.
Defined.

Lemma apply_writes_over ws ws' (sh : ShaderManager) :
  (∀ name, name ∈ ws.*1 → name ∈ ws'.*1) →
  apply_writes ws' (apply_writes ws sh) = apply_writes ws' sh.
Proof.
  intros Hsub. apply map_eq. intros name.
  destruct (decide (name ∈ ws'.*1)) as [Hin | Hout].
  - rewrite !apply_writes_union.
    destruct ((list_to_map (reverse ws') : ShaderManager) !! name) as [v |] eqn:E.
    + rewrite !(lookup_union_Some_l _ _ _ v) by exact E. reflexivity.
    + exfalso. apply not_elem_of_list_to_map in E. apply E.
      rewrite fmap_reverse, elem_of_reverse. exact Hin.
  - rewrite !(apply_writes_frame ws') by exact Hout.
    apply apply_writes_frame. intros Hin. apply Hout, Hsub, Hin.
Qed.

Lemma same_call_names s a a' name :
  same_call a a' → name ∈ (op_writes s a).*1 → name ∈ (op_writes s a').*1.
Proof.
  destruct a, a'; cbn [same_call]; intros H; try discriminate H; try (inversion H; subst; intros Hn; exact Hn).
  subst. cbn [op_writes]. destruct (m_objectMaterials s); intros Hn; exact Hn.
Qed.

Lemma same_call_writes s a a' :
  same_call a a' → settled s a → op_writes s a = op_writes s a'.
Proof.
  destruct a, a'; cbn [same_call]; intros H; try discriminate H;
    try (inversion H; subst; reflexivity).
  subst. cbn [settled op_writes]. intros [E | [e E]]; rewrite E; reflexivity.
Qed.

(** X8.  Binder calls compose as overwrites.  A call made again leaves the state
    of the later call alone, also where the two calls differ in what the
    uninitialised local of [SetShaderMaterial] holds.  Two calls that share
    no uniform name can be made in either order; unless one of them is a
    [SetShaderMaterial] for a tag that a non-empty catalogue does not have,
    the state the two leave is the same whatever the uninitialised locals
    hold in either order. *)
Theorem binder_calls_commute :
  ∀ (a a' b b' : binder_op) (w : World) (sh : ShaderManager),
    wf (scene w) →
    m_pShaderManager (scene w) = Some sh →
    same_call a a' →
    same_call b b' →
    (run_op a;; run_op a') w = run_op a' w ∧
    ((∀ name, name ∈ op_names a → name ∉ op_names b) →
     (run_op a;; run_op b) w = (run_op b;; run_op a) w ∧
     (settled (scene w) a → settled (scene w) b →
      (run_op a;; run_op b) w = (run_op b';; run_op a') w)).
Proof.
  intros a a' b b' w sh Hwf Hsh Ha Hb.
  assert (Hseq : ∀ x y,
             (run_op x;; run_op y) w
             = Ok (tt, with_store
                         (apply_writes (op_writes (scene w) y)
                            (apply_writes (op_writes (scene w) x) sh)) w)).
  { intros x y. unfold mbind, M_bind.
    rewrite (run_op_writes x w sh Hwf Hsh).
    rewrite (run_op_writes y (with_store _ w) _ Hwf eq_refl).
    unfold with_store. simpl. rewrite op_writes_with_store. reflexivity. }
  split.
  - rewrite Hseq, apply_writes_over.
    + symmetry. apply (run_op_writes a' w sh Hwf Hsh).
    + intros name. apply same_call_names. exact Ha.
  - intros Hdisj.
    assert (Hswap : (run_op a;; run_op b) w = (run_op b;; run_op a) w).
    { rewrite !Hseq. f_equal. f_equal. f_equal.
      apply apply_writes_swap.
      intros name Hna Hnb. apply (Hdisj name).
      - exact (op_writes_names _ _ _ Hna).
      - exact (op_writes_names _ _ _ Hnb). }
    split; [exact Hswap |].
    intros Hsa Hsb. rewrite Hswap, !Hseq.
    rewrite (same_call_writes _ a a' Ha Hsa), (same_call_writes _ b b' Hb Hsb).
    reflexivity.
Qed.

Lemma binder_calls_commute_witness :
  (run_op (OpMaterial zero_material "missing");; run_op (OpMaterial metalMaterial "missing"))
    catalog_world
  = run_op (OpMaterial metalMaterial "missing") catalog_world ∧
  (run_op (OpMaterial zero_material "glass");; run_op (OpUVScale 1 1)) catalog_world
  = (run_op (OpUVScale 1 1);; run_op (OpMaterial metalMaterial "glass")) catalog_world.
Proof.
  destruct (binder_calls_commute
              (OpMaterial zero_material "missing") (OpMaterial metalMaterial "missing")
              (OpUVScale 1 1) (OpUVScale 1 1) catalog_world ∅
              ltac:(split; [vm_compute; reflexivity | split; vm_compute; discriminate])
              ltac:(vm_compute; reflexivity) eq_refl eq_refl) as [Hover _].
  destruct (binder_calls_commute
              (OpMaterial zero_material "glass") (OpMaterial metalMaterial "glass")
              (OpUVScale 1 1) (OpUVScale 1 1) catalog_world ∅
              ltac:(split; [vm_compute; reflexivity | split; vm_compute; discriminate])
              ltac:(vm_compute; reflexivity) eq_refl eq_refl) as [_ Hswap].
  split; [exact Hover |].
  refine (proj2 (Hswap _) _ I).
  - intros name Hna Hnb. cbn [op_names] in Hna, Hnb.
    apply list_elem_of_singleton in Hnb. subst name.
    repeat (apply elem_of_cons in Hna as [Hna | Hna]; [discriminate |]).
    apply elem_of_nil in Hna. contradiction.
  - right. apply (bool_decide_eq_true_1 _). vm_compute. reflexivity.
Defined.

(** ** Scene lights *)

Lemma SetupSceneLights_writes w sh :
  m_pShaderManager (scene w) = Some sh →
  SetupSceneLights w = Ok (tt, with_store (apply_writes light_writes sh) w).
Proof.
  intros Hsh. unfold SetupSceneLights. unfold_monad. rewrite Hsh. reflexivity.
Qed.

Lemma SetupSceneLights_null w :
  m_pShaderManager (scene w) = None → SetupSceneLights w = Fault NullDereference.
Proof.
  intros H. unfold SetupSceneLights. unfold_monad. rewrite H. reflexivity.
Qed.

(** X9.  [SetupSceneLights] on a scene manager with a shader manager attached
    returns; it sets every name of [light_uniforms] and touches no other
    uniform, so the draw state of the binder survives it; it switches
    lighting on; of the directional light it writes the direction under
    "directionalLight" and the three colours under "directionLight", leaving
    "directionalLight.ambient", ".diffuse" and ".specular" as they were; and
    a second call changes nothing.  With a null shader manager the call
    dereferences it. *)
Theorem scene_lights :
  ∀ w : World,
    (∀ sh, m_pShaderManager (scene w) = Some sh →
           ∃ sh', SetupSceneLights w
                  = Ok (tt, mkWorld (gl w) (set_shader (Some sh') (scene w))) ∧
                  (∀ name, name ∉ light_uniforms → sh' !! name = sh !! name) ∧
                  (∀ name, name ∈ light_uniforms → is_Some (sh' !! name)) ∧
                  sh' !! g_UseLightingName = Some (UBool true) ∧
                  sh' !! "directionalLight.ambient" = sh !! "directionalLight.ambient" ∧
                  sh' !! "directionalLight.diffuse" = sh !! "directionalLight.diffuse" ∧
                  sh' !! "directionalLight.specular" = sh !! "directionalLight.specular" ∧
                  SetupSceneLights (mkWorld (gl w) (set_shader (Some sh') (scene w)))
                  = Ok (tt, mkWorld (gl w) (set_shader (Some sh') (scene w)))) ∧
    (m_pShaderManager (scene w) = None → SetupSceneLights w = Fault NullDereference).
Proof.
  intros w. split; [| apply SetupSceneLights_null].
  intros sh Hsh. exists (apply_writes light_writes sh).
  assert (Hframe : ∀ name, name ∉ light_uniforms →
                           apply_writes light_writes sh !! name = sh !! name)
    by (intros name Hn; apply apply_writes_frame; exact Hn).
  split; [apply (SetupSceneLights_writes w sh Hsh) |].
  split; [exact Hframe |].
  split; [intros name Hn; apply apply_writes_written; exact Hn |].
  split.
  { cbv [apply_writes light_writes fold_left fst snd].
    repeat (rewrite lookup_insert_ne by discriminate). apply lookup_insert_eq. }
  assert (Hnot : ∀ name, name ∈ ["directionalLight.ambient"; "directionalLight.diffuse";
                                "directionalLight.specular"] → name ∉ light_uniforms).
  { intros name Hn Hl.
    repeat (apply elem_of_cons in Hn as [-> | Hn];
            [repeat (apply elem_of_cons in Hl as [Hl | Hl]; [discriminate |]);
             apply elem_of_nil in Hl; contradiction |]).
    apply elem_of_nil in Hn. contradiction. }
  split; [apply Hframe, Hnot; repeat constructor |].
  split; [apply Hframe, Hnot; repeat constructor |].
  split; [apply Hframe, Hnot; repeat constructor |].
  rewrite (SetupSceneLights_writes
             (mkWorld (gl w) (set_shader (Some (apply_writes light_writes sh)) (scene w)))
             (apply_writes light_writes sh) eq_refl).
  unfold with_store. cbn [gl scene]. rewrite apply_writes_twice. reflexivity.
Qed.

Lemma scene_lights_witness :
  ∃ sh', SetupSceneLights steel_world
         = Ok (tt, mkWorld (gl steel_world) (set_shader (Some sh') (scene steel_world))) ∧
         sh' !! g_UseLightingName = Some (UBool true) ∧
         sh' !! "directionalLight.ambient" = None.
Proof.
  destruct (proj1 (scene_lights steel_world) ∅) as [sh' (H1 & _ & _ & H4 & H5 & _)].
  - vm_compute. reflexivity.
  - exists sh'. split; [exact H1 |]. split; [exact H4 |]. rewrite H5. reflexivity.
Defined.

(** ** A null shader manager *)

Lemma SetShaderMaterial_null g t w :
  m_pShaderManager (scene w) = None → m_objectMaterials (scene w) ≠ [] →
  SetShaderMaterial g t w = Fault NullDereference.
Proof.
  intros H Hne. unfold SetShaderMaterial. unfold_monad.
  replace (0 <? Z.of_nat (length (m_objectMaterials (scene w)))) with true.
  2:{ symmetry. apply Z.ltb_lt.
      destruct (m_objectMaterials (scene w)); [congruence | simpl; lia]. }
  rewrite FindMaterial_lookup.
  rewrite bool_decide_eq_false_2 by exact Hne.
  cbn [negb]. rewrite H. reflexivity.
Qed.

Lemma SetShaderMaterial_found g g' t w e :
  lookup_material (m_objectMaterials (scene w)) t = Some e →
  SetShaderMaterial g t w = SetShaderMaterial g' t w.
Proof.
  intros Hfound.
  assert (Hne : m_objectMaterials (scene w) ≠ [])
    by (intros E; rewrite E in Hfound; discriminate).
  destruct (m_pShaderManager (scene w)) as [sh |] eqn:Hsh.
  - rewrite (SetShaderMaterial_spec g t w sh Hsh Hne).
    rewrite (SetShaderMaterial_spec g' t w sh Hsh Hne).
    rewrite Hfound. reflexivity.
  - rewrite !SetShaderMaterial_null by assumption. reflexivity.
Qed.

(** X10.  With a null [m_pShaderManager] the four guarded setters return without
    doing anything, [SetShaderMaterial] returns without doing anything on an
    empty catalogue and dereferences the null pointer on a non-empty one,
    and [SetupSceneLights] dereferences it. *)
Theorem null_shader_manager :
  ∀ w : World,
    m_pShaderManager (scene w) = None →
    (∀ s rx ry rz p, SetTransformations s rx ry rz p w = Ok (tt, w)) ∧
    (∀ r g b a, SetShaderColor r g b a w = Ok (tt, w)) ∧
    (∀ t, SetShaderTexture t w = Ok (tt, w)) ∧
    (∀ u v, SetTextureUVScale u v w = Ok (tt, w)) ∧
    (∀ g t, m_objectMaterials (scene w) = [] → SetShaderMaterial g t w = Ok (tt, w)) ∧
    (∀ g t, m_objectMaterials (scene w) ≠ [] →
            SetShaderMaterial g t w = Fault NullDereference) ∧
    SetupSceneLights w = Fault NullDereference.
Proof.
  intros w H.
  split; [intros; unfold SetTransformations, has_shader; unfold_monad; rewrite H; reflexivity |].
  split; [intros; apply SetShaderColor_null; exact H |].
  split; [intros; apply SetShaderTexture_null; exact H |].
  split; [intros; unfold SetTextureUVScale, has_shader; unfold_monad; rewrite H; reflexivity |].
  split; [intros g t E; apply SetShaderMaterial_empty; exact E |].
  split; [| apply SetupSceneLights_null; exact H].
  intros g t Hne. apply SetShaderMaterial_null; assumption.
Qed.

Lemma null_shader_manager_witness :
  SetShaderColor 1 0 0 1 (empty_world None) = Ok (tt, empty_world None) ∧
  SetupSceneLights (empty_world None) = Fault NullDereference.
Proof.
  destruct (null_shader_manager (empty_world None)) as (_ & H2 & _ & _ & _ & _ & H7).
  - reflexivity.
  - split; [apply H2 | exact H7].
Defined.

(** ** The material catalogue *)

Lemma lookup_material_app ms ms' t :
  lookup_material (ms ++ ms') t =
  match lookup_material ms t with
  | Some e => Some e
  | None => lookup_material ms' t
  end.
Proof.
  unfold lookup_material.
  destruct (list_find (λ e, mtag e = t) ms) as [[i e] |] eqn:E.
  - rewrite (list_find_app_l _ _ _ _ _ E). reflexivity.
  - rewrite list_find_app_r by exact E. simpl.
    destruct (list_find _ ms') as [[j x] |]; reflexivity.
Qed.

Lemma DefineObjectMaterials_spec w :
  DefineObjectMaterials w =
  Ok (tt, mkWorld (gl w)
            (set_objectMaterials (m_objectMaterials (scene w) ++ scene_materials)
                                 (scene w))).
Proof.
  unfold DefineObjectMaterials, push_back, on_scene, modify. unfold_monad.
  cbn [gl scene m_objectMaterials set_objectMaterials m_pShaderManager
       m_loadedTextures m_textureIDs].
  rewrite <- !app_assoc. reflexivity.
Qed.

(** X11.  [DefineObjectMaterials] appends its seven materials to the catalogue,
    whatever it holds.  A tag that was found before is found with the same
    entry after; each of the seven tags is found after, with the entry just
    pushed when the catalogue was empty; and a second call, which pushes the
    seven again, changes the result of no [FindMaterial] call.  When the tag
    is found, what [SetShaderMaterial] does is independent of the content of
    its uninitialised local. *)
Theorem material_definitions :
  ∀ w : World,
    ∃ w1 w2,
      DefineObjectMaterials w = Ok (tt, w1) ∧
      DefineObjectMaterials w1 = Ok (tt, w2) ∧
      m_objectMaterials (scene w1) = m_objectMaterials (scene w) ++ scene_materials ∧
      m_objectMaterials (scene w2)
        = m_objectMaterials (scene w) ++ scene_materials ++ scene_materials ∧
      (∀ t e, lookup_material (m_objectMaterials (scene w)) t = Some e →
              lookup_material (m_objectMaterials (scene w1)) t = Some e) ∧
      (∀ e, e ∈ scene_materials →
            ∃ e', lookup_material (m_objectMaterials (scene w1)) (mtag e) = Some e' ∧
                  (m_objectMaterials (scene w) = [] → e' = e)) ∧
      (∀ t g, FindMaterial (scene w2) t g = FindMaterial (scene w1) t g) ∧
      (∀ t e g g', lookup_material (m_objectMaterials (scene w1)) t = Some e →
                   SetShaderMaterial g t w1 = SetShaderMaterial g' t w1).
Proof.
  intros w. eexists. eexists.
  split; [apply DefineObjectMaterials_spec |].
  split; [apply DefineObjectMaterials_spec |]. cbn [scene m_objectMaterials set_objectMaterials].
  split; [reflexivity |]. split; [rewrite <- app_assoc; reflexivity |].
  split.
  { intros t e H. rewrite lookup_material_app, H. reflexivity. }
  split.
  { intros e He. rewrite lookup_material_app.
    destruct (lookup_material (m_objectMaterials (scene w)) (mtag e)) as [e0 |] eqn:E.
    - exists e0. split; [reflexivity |]. intros Hnil. rewrite Hnil in E. discriminate.
    - exists e. split; [| reflexivity].
      repeat (apply elem_of_cons in He as [-> | He]; [reflexivity |]).
      apply elem_of_nil in He. contradiction. }
  split.
  { intros t g. rewrite !FindMaterial_lookup.
    cbn [scene m_objectMaterials set_objectMaterials].
    rewrite !bool_decide_eq_false_2
      by (destruct (m_objectMaterials (scene w)); discriminate).
    rewrite (lookup_material_app (_ ++ _) scene_materials).
    destruct (lookup_material (m_objectMaterials (scene w) ++ scene_materials) t)
      as [e |] eqn:E; [reflexivity |].
    rewrite lookup_material_app in E.
    destruct (lookup_material (m_objectMaterials (scene w)) t); [discriminate |].
    rewrite E. reflexivity. }
  intros t e g g' Hfound. apply (SetShaderMaterial_found g g' t _ e). exact Hfound.
Qed.

Lemma material_definitions_witness :
  ∃ w1, DefineObjectMaterials (empty_world None) = Ok (tt, w1) ∧
        ∃ e', lookup_material (m_objectMaterials (scene w1)) "tile" = Some e' ∧
              e' = tileMaterial.
Proof.
  destruct (material_definitions (empty_world None))
    as [w1 [w2 (H1 & _ & _ & _ & _ & H6 & _)]].
  exists w1. split; [exact H1 |].
  destruct (H6 tileMaterial) as [e' [He' Heq]].
  - repeat constructor.
  - exists e'. split; [exact He' |]. apply Heq. reflexivity.
Defined.

(** ** Texture lists *)

Lemma loadable_true ld f :
  loadable ld f = true ↔
  ∃ img, ld f = Some img ∧ (colorChannels img = 3 ∨ colorChannels img = 4).
Proof.
  unfold loadable. destruct (ld f) as [img |]; split.
  - intros H. exists img. split; [reflexivity |].
    apply orb_true_iff in H as [H | H]; apply Z.eqb_eq in H; tauto.
  - intros [img' [E [H | H]]]; inversion E; subst; apply orb_true_iff;
      [left | right]; apply Z.eqb_eq; exact H.
  - discriminate.
  - intros [img' [E _]]. discriminate.
Qed.

(** A load from a file that is not loadable leaves the scene manager alone. *)
Lemma CreateGLTexture_not_loadable ld f t w :
  loadable ld f ≠ true →
  ∃ g, CreateGLTexture ld f t w = Ok (false, mkWorld g (scene w)).
Proof.
  intros H. destruct (ld f) as [img |] eqn:E.
  - destruct (decide (colorChannels img = 3 ∨ colorChannels img = 4)) as [Hc | Hc].
    + exfalso. apply H. apply loadable_true. eauto.
    + eexists. apply (CreateGLTexture_unsupported ld f t w img E); tauto.
  - exists (gl w). rewrite CreateGLTexture_unreadable by exact E.
    destruct w; reflexivity.
Qed.

Lemma load_pairs_spec ld l :
  ∀ w, wf (scene w) →
       m_loadedTextures (scene w) + Z.of_nat (length (loaded_tags ld l)) ≤ MAX_TEXTURES →
       ∃ w', load_pairs ld l w = Ok (tt, w') ∧
             wf (scene w') ∧
             tag <$> registered (scene w') = (tag <$> registered (scene w)) ++ loaded_tags ld l ∧
             m_pShaderManager (scene w') = m_pShaderManager (scene w) ∧
             m_objectMaterials (scene w') = m_objectMaterials (scene w).
Proof.
  induction l as [| [f t] l IH]; intros w Hwf Hroom.
  - exists w. split; [reflexivity |]. split; [exact Hwf |].
    split; [unfold loaded_tags; simpl; rewrite app_nil_r; reflexivity |].
    split; reflexivity.
  - unfold loaded_tags in *. cbn [load_pairs]. unfold mbind, M_bind.
    destruct (decide (loadable ld f = true)) as [Hl | Hl].
    + rewrite filter_cons_True in * by exact Hl. cbn [fmap list_fmap length] in *.
      apply loadable_true in Hl as [img [Hf Hc]].
      assert (Hn : m_loadedTextures (scene w) < MAX_TEXTURES) by lia.
      rewrite (CreateGLTexture_registers ld f t w img Hwf Hn Hf Hc).
      destruct (IH (mkWorld (gl_loaded (format_of img) img (gl w))
                            (registered_scene t (next_name (gl w)) (scene w))))
        as [w' (Hrun & Hwf' & Htags & Hsh & Hm)].
      { apply registered_scene_wf; assumption. }
      { cbn [scene registered_scene set_loadedTextures m_loadedTextures]. simpl. lia. }
      exists w'. split; [exact Hrun |]. split; [exact Hwf' |].
      split; [| split; assumption].
      rewrite Htags. cbn [scene].
      rewrite registered_scene_registered by assumption.
      rewrite fmap_app, <- app_assoc. reflexivity.
    + rewrite filter_cons_False in * by exact Hl.
      destruct (CreateGLTexture_not_loadable ld f t w Hl) as [g ->].
      destruct (IH (mkWorld g (scene w)) Hwf Hroom) as [w' (Hrun & Hwf' & Htags & Hsh & Hm)].
      exists w'. split; [exact Hrun |]. split; [exact Hwf' |].
      split; [exact Htags | split; assumption].
Qed.

Lemma load_pairs_overflow ld l :
  ∀ w, wf (scene w) →
       MAX_TEXTURES < m_loadedTextures (scene w) + Z.of_nat (length (loaded_tags ld l)) →
       load_pairs ld l w = Fault OutOfBounds.
Proof.
  induction l as [| [f t] l IH]; intros w Hwf Hover.
  - unfold loaded_tags in Hover. simpl in Hover. destruct Hwf as [_ [_ H1]]. lia.
  - unfold loaded_tags in *. cbn [load_pairs]. unfold mbind, M_bind.
    destruct (decide (loadable ld f = true)) as [Hl | Hl].
    + rewrite filter_cons_True in * by exact Hl. cbn [fmap list_fmap length] in *.
      apply loadable_true in Hl as [img [Hf Hc]].
      destruct (decide (m_loadedTextures (scene w) < MAX_TEXTURES)) as [Hn | Hn].
      * rewrite (CreateGLTexture_registers ld f t w img Hwf Hn Hf Hc).
        apply IH; [apply registered_scene_wf; assumption |].
        cbn [scene registered_scene set_loadedTextures m_loadedTextures]. simpl. lia.
      * rewrite (CreateGLTexture_overflow ld f t w img); [reflexivity | lia | done | done].
    + rewrite filter_cons_False in * by exact Hl.
      destruct (CreateGLTexture_not_loadable ld f t w Hl) as [g ->].
      apply (IH (mkWorld g (scene w)) Hwf Hover).
Qed.

Lemma LoadSceneTextures_pairs ld w :
  LoadSceneTextures ld w = (load_pairs ld scene_textures;; BindGLTextures) w.
Proof.
  unfold LoadSceneTextures, scene_textures. cbn [load_pairs]. unfold mbind, M_bind, mret, M_ret.
  repeat match goal with
         | |- context [CreateGLTexture ?a ?b ?c ?x] =>
             destruct (CreateGLTexture a b c x) as [[? ?] | ?]; [| reflexivity]
         end.
  reflexivity.
Qed.

Lemma loaded_tags_NoDup ld : NoDup (loaded_tags ld scene_textures).
Proof.
  unfold loaded_tags. eapply sublist_NoDup; [| apply fmap_sublist, sublist_filter].
  unfold scene_textures. simpl.
  repeat (apply NoDup_cons; split;
          [intros H; repeat (apply elem_of_cons in H as [H | H]; [discriminate |]);
           apply elem_of_nil in H; exact H |]).
  apply NoDup_nil_2.
Qed.

Lemma loaded_tags_length ld : (length (loaded_tags ld scene_textures) ≤ 11)%nat.
Proof.
  unfold loaded_tags. rewrite length_fmap.
  etrans; [apply length_filter | reflexivity].
Qed.

Lemma LoadSceneTextures_spec ld w :
  wf (scene w) →
  m_loadedTextures (scene w) + Z.of_nat (length (loaded_tags ld scene_textures))
    ≤ MAX_TEXTURES →
  ∃ w', LoadSceneTextures ld w = Ok (tt, w') ∧
        wf (scene w') ∧
        tag <$> registered (scene w')
          = (tag <$> registered (scene w)) ++ loaded_tags ld scene_textures ∧
        m_pShaderManager (scene w') = m_pShaderManager (scene w) ∧
        m_objectMaterials (scene w') = m_objectMaterials (scene w) ∧
        (∀ (j : nat) e, registered (scene w') !! j = Some e →
                        gl_bound (gl w') !! N.of_nat j = Some (ID e)).
Proof.
  intros Hwf Hroom.
  destruct (load_pairs_spec ld scene_textures w Hwf Hroom)
    as [w1 (Hrun & Hwf1 & Htags & Hsh & Hm)].
  destruct (BindGLTextures_spec w1 Hwf1) as [g [Hbind [_ Hunits]]].
  exists (mkWorld g (scene w1)).
  split; [rewrite LoadSceneTextures_pairs; unfold mbind, M_bind; rewrite Hrun; exact Hbind |].
  cbn [scene gl]. repeat (split; [assumption |]). exact Hunits.
Qed.

Lemma LoadSceneTextures_overflow ld w :
  wf (scene w) →
  MAX_TEXTURES < m_loadedTextures (scene w)
                 + Z.of_nat (length (loaded_tags ld scene_textures)) →
  LoadSceneTextures ld w = Fault OutOfBounds.
Proof.
  intros Hwf Hover. rewrite LoadSceneTextures_pairs. unfold mbind, M_bind.
  rewrite (load_pairs_overflow ld scene_textures w Hwf Hover). reflexivity.
Qed.

(** X12.  [LoadSceneTextures] on an empty registry returns for every file system.
    The registered tags are the tags of the files that could be loaded, in
    the order of the calls: the slot of a tag is the number of loadable
    files before its own, texture unit [i] holds the handle of slot [i], and
    the tag of a file that could not be loaded resolves to -1. *)
Theorem scene_textures_slots :
  ∀ (stbi_load : string → option Image) (w : World),
    wf (scene w) →
    m_loadedTextures (scene w) = 0 →
    ∃ w', LoadSceneTextures stbi_load w = Ok (tt, w') ∧
          tag <$> registered (scene w') = loaded_tags stbi_load scene_textures ∧
          (∀ (i : nat) t,
              loaded_tags stbi_load scene_textures !! i = Some t →
              FindTextureSlot (scene w') t = Ok (Z.of_nat i) ∧
              ∃ e, registered (scene w') !! i = Some e ∧ tag e = t ∧
                   gl_bound (gl w') !! N.of_nat i = Some (ID e)) ∧
          (∀ t, t ∉ loaded_tags stbi_load scene_textures →
                FindTextureSlot (scene w') t = Ok (-1)).
Proof.
  intros ld w Hwf H0.
  pose proof (loaded_tags_length ld) as Hlen.
  destruct (LoadSceneTextures_spec ld w Hwf) as [w' (Hrun & Hwf' & Htags & _ & _ & Hunits)].
  { rewrite H0. unfold MAX_TEXTURES. lia. }
  rewrite (registered_empty _ H0) in Htags. simpl in Htags.
  exists w'. split; [exact Hrun |]. split; [exact Htags |]. split.
  - intros i t Hi.
    assert (He : ∃ e, registered (scene w') !! i = Some e ∧ tag e = t).
    { rewrite <- Htags, list_lookup_fmap in Hi.
      destruct (registered (scene w') !! i) as [e |]; [| discriminate].
      exists e. split; [reflexivity |]. simpl in Hi. congruence. }
    destruct He as [e [He Ht]]. split.
    + rewrite FindTextureSlot_findSlot by exact Hwf'.
      replace (findSlot (registered (scene w')) t) with (Some i); [reflexivity |].
      symmetry. apply findSlot_Some. exists e. split; [exact He |]. split; [exact Ht |].
      intros j e' Hj He' Ht'.
      assert (Hj' : loaded_tags ld scene_textures !! j = Some t)
        by (rewrite <- Htags, list_lookup_fmap, He'; simpl; congruence).
      pose proof (NoDup_lookup _ _ _ _ (loaded_tags_NoDup ld) Hi Hj'). lia.
    + exists e. split; [exact He |]. split; [exact Ht |]. apply Hunits. exact He.
  - intros t Ht. rewrite FindTextureSlot_findSlot by exact Hwf'.
    replace (findSlot (registered (scene w')) t) with (@None nat); [reflexivity |].
    symmetry. apply findSlot_None. intros e He Heq. apply Ht.
    rewrite <- Htags. apply list_elem_of_fmap. exists e. split; [congruence | exact He].
Qed.

Lemma scene_textures_slots_witness :
  ∃ w', LoadSceneTextures every_file_rgb (empty_world (Some ∅)) = Ok (tt, w') ∧
        FindTextureSlot (scene w') "taupe" = Ok 5 ∧
        FindTextureSlot (scene w') "missing" = Ok (-1).
Proof.
  destruct (scene_textures_slots every_file_rgb (empty_world (Some ∅)))
    as [w' (H1 & _ & H3 & H4)].
  - split; [vm_compute; reflexivity | split; vm_compute; discriminate].
  - reflexivity.
  - exists w'. split; [exact H1 |]. split.
    + apply (H3 5%nat "taupe"). vm_compute. reflexivity.
    + apply H4. vm_compute. intros H.
      repeat (apply elem_of_cons in H as [H | H]; [discriminate |]).
      apply elem_of_nil in H. exact H.
Defined.

(** ** PrepareScene *)

Lemma light_writes_lighting (sh : ShaderManager) :
  apply_writes light_writes sh !! g_UseLightingName = Some (UBool true).
Proof.
  cbv [apply_writes light_writes fold_left fst snd].
  repeat (rewrite lookup_insert_ne by discriminate). apply lookup_insert_eq.
Qed.

Lemma PrepareScene_ok ld p w1 sh :
  LoadSceneTextures ld (world p) = Ok (tt, w1) →
  m_pShaderManager (scene w1) = Some sh →
  PrepareScene ld p = Ok (tt, prepared p w1 sh).
Proof.
  intros Hload Hsh. unfold PrepareScene, in_world, LoadMesh, modify.
  unfold mbind, M_bind, mret, M_ret.
  rewrite Hload. cbn [world m_basicMeshes].
  rewrite DefineObjectMaterials_spec. cbn [world m_basicMeshes].
  rewrite (SetupSceneLights_writes
             (mkWorld (gl w1)
               (set_objectMaterials (m_objectMaterials (scene w1) ++ scene_materials)
                                    (scene w1))) sh Hsh).
  cbn [world m_basicMeshes loaded_meshes draw_calls].
  unfold prepared, scene_meshes. rewrite <- !app_assoc. reflexivity.
Qed.

Lemma PrepareScene_null ld p w1 :
  LoadSceneTextures ld (world p) = Ok (tt, w1) →
  m_pShaderManager (scene w1) = None →
  PrepareScene ld p = Fault NullDereference.
Proof.
  intros Hload Hsh. unfold PrepareScene, in_world.
  unfold mbind, M_bind, mret, M_ret.
  rewrite Hload. cbn [world m_basicMeshes].
  rewrite DefineObjectMaterials_spec. cbn [world m_basicMeshes].
  rewrite (SetupSceneLights_null
             (mkWorld (gl w1)
               (set_objectMaterials (m_objectMaterials (scene w1) ++ scene_materials)
                                    (scene w1))) Hsh).
  reflexivity.
Qed.

Lemma PrepareScene_overflow ld p :
  LoadSceneTextures ld (world p) = Fault OutOfBounds →
  PrepareScene ld p = Fault OutOfBounds.
Proof.
  intros Hload. unfold PrepareScene, in_world. unfold mbind, M_bind.
  rewrite Hload. reflexivity.
Qed.

(** X13.  [PrepareScene] on an empty registry.  With a shader manager attached it
    returns: the registry holds the tags of the loadable files in call
    order, the seven materials are appended to the catalogue, lighting is
    switched on with no uniform outside the light names touched, and the
    eight meshes are loaded.  A second [PrepareScene] loads the same files
    again: it writes past the end of [m_textureIDs] when more than eight
    files are loadable, and otherwise registers every tag a second time and
    appends the materials a second time.  With a null shader manager
    [PrepareScene] dereferences it after the loads. *)
Theorem prepare_scene :
  ∀ (stbi_load : string → option Image) (p : Program),
    wf (scene (world p)) →
    m_loadedTextures (scene (world p)) = 0 →
    (m_pShaderManager (scene (world p)) = None →
     PrepareScene stbi_load p = Fault NullDereference) ∧
    (∀ sh, m_pShaderManager (scene (world p)) = Some sh →
       ∃ p1,
         PrepareScene stbi_load p = Ok (tt, p1) ∧
         wf (scene (world p1)) ∧
         tag <$> registered (scene (world p1)) = loaded_tags stbi_load scene_textures ∧
         m_objectMaterials (scene (world p1))
           = m_objectMaterials (scene (world p)) ++ scene_materials ∧
         loaded_meshes (m_basicMeshes p1)
           = loaded_meshes (m_basicMeshes p) ++ scene_meshes ∧
         draw_calls (m_basicMeshes p1) = draw_calls (m_basicMeshes p) ∧
         (∃ sh1, m_pShaderManager (scene (world p1)) = Some sh1 ∧
                 sh1 !! g_UseLightingName = Some (UBool true) ∧
                 ∀ name, name ∉ light_uniforms → sh1 !! name = sh !! name) ∧
         (MAX_TEXTURES < 2 * Z.of_nat (length (loaded_tags stbi_load scene_textures)) →
          PrepareScene stbi_load p1 = Fault OutOfBounds) ∧
         (2 * Z.of_nat (length (loaded_tags stbi_load scene_textures)) ≤ MAX_TEXTURES →
          ∃ p2, PrepareScene stbi_load p1 = Ok (tt, p2) ∧
                tag <$> registered (scene (world p2))
                  = loaded_tags stbi_load scene_textures
                    ++ loaded_tags stbi_load scene_textures ∧
                m_objectMaterials (scene (world p2))
                  = m_objectMaterials (scene (world p))
                    ++ scene_materials ++ scene_materials)).
Proof.
  intros ld p Hwf H0.
  pose proof (loaded_tags_length ld) as Hlen.
  destruct (LoadSceneTextures_spec ld (world p) Hwf)
    as [w1 (Hload & Hwf1 & Htags & Hsh1 & Hm1 & _)].
  { rewrite H0. unfold MAX_TEXTURES. lia. }
  rewrite (registered_empty _ H0) in Htags. simpl in Htags.
  split.
  { intros Hnull. apply (PrepareScene_null ld p w1 Hload). rewrite Hsh1. exact Hnull. }
  intros sh Hsh. rewrite Hsh in Hsh1.
  exists (prepared p w1 sh).
  split; [apply (PrepareScene_ok ld p w1 sh Hload Hsh1) |].
  assert (Hwfp : wf (scene (world (prepared p w1 sh)))) by exact Hwf1.
  assert (Hcount : m_loadedTextures (scene (world (prepared p w1 sh)))
                   = Z.of_nat (length (loaded_tags ld scene_textures))).
  { change (m_loadedTextures (scene w1) = Z.of_nat (length (loaded_tags ld scene_textures))).
    rewrite <- Htags, length_fmap, registered_length by exact Hwf1.
    destruct Hwf1 as [_ [? _]]. lia. }
  split; [exact Hwfp |]. split; [exact Htags |].
  split; [unfold prepared; cbn [world scene m_objectMaterials with_store set_shader
                               set_objectMaterials]; rewrite Hm1; reflexivity |].
  split; [reflexivity |]. split; [reflexivity |].
  split.
  { exists (apply_writes light_writes sh). split; [reflexivity |].
    split; [apply light_writes_lighting |].
    intros name Hn. apply apply_writes_frame. exact Hn. }
  split.
  - intros Hover. apply PrepareScene_overflow.
    apply LoadSceneTextures_overflow; [exact Hwfp | rewrite Hcount; lia].
  - intros Hroom.
    destruct (LoadSceneTextures_spec ld (world (prepared p w1 sh)) Hwfp)
      as [w2 (Hload2 & Hwf2 & Htags2 & Hsh2 & Hm2 & _)].
    { rewrite Hcount. lia. }
    exists (prepared (prepared p w1 sh) w2 (apply_writes light_writes sh)).
    split; [apply (PrepareScene_ok ld _ w2 _ Hload2); rewrite Hsh2; reflexivity |].
    split.
    + change (tag <$> registered (scene w2) = loaded_tags ld scene_textures
                                              ++ loaded_tags ld scene_textures).
      rewrite Htags2. f_equal. exact Htags.
    + unfold prepared at 1.
      cbn [world scene m_objectMaterials with_store set_shader set_objectMaterials].
      rewrite Hm2. unfold prepared.
      cbn [world scene m_objectMaterials with_store set_shader set_objectMaterials].
      rewrite Hm1, <- app_assoc. reflexivity.
Qed.

Lemma prepare_scene_witness :
  PrepareScene every_file_rgb (empty_program (Some ∅)) = Ok (tt, prepared_program) ∧
  tag <$> registered (scene (world prepared_program))
    = loaded_tags every_file_rgb scene_textures ∧
  PrepareScene every_file_rgb prepared_program = Fault OutOfBounds.
Proof.
  destruct (proj2 (prepare_scene every_file_rgb (empty_program (Some ∅))
                     ltac:(split; [vm_compute; reflexivity | split; vm_compute; discriminate])
                     eq_refl) ∅ eq_refl)
    as [p1 (H1 & _ & H3 & _ & _ & _ & _ & H8 & _)].
  assert (Hp : prepared_program = p1).
  { unfold prepared_program, program_after. rewrite H1. reflexivity. }
  rewrite Hp. split; [exact H1 |]. split; [exact H3 |].
  apply H8. vm_compute. reflexivity.
Defined.

(** ** The shape of the model matrix in binary32 *)

Section ModelShape.
Import Binary32.
Local Open Scope R_scope.

(** X14.  In binary32, for finite angles and a finite position, the matrix
    [SetTransformations] writes to "model" is affine as far as the scale is
    finite: the last entry of its last column is 1, and the last entry of
    the column of an axis is 0 when the scale on that axis is finite.  A
    scale of 0 on an axis is accepted and gives a singular matrix, the
    column of the axis being the zero vector; a scale that is not finite
    leaves no finite entry in the column of its axis, the last row
    included. *)
Theorem model_matrix_columns :
  ∀ (A : Arithmetic),
    IEEE A →
    ∀ (scaleXYZ : vec3) (XrotationDegrees YrotationDegrees ZrotationDegrees : float)
      (positionXYZ : vec3) (sh : Mat4Uniforms),
      number XrotationDegrees → number YrotationDegrees → number ZrotationDegrees →
      number (v3x positionXYZ) → number (v3y positionXYZ) → number (v3z positionXYZ) →
      ∃ modelView,
        SetTransformations scaleXYZ XrotationDegrees YrotationDegrees ZrotationDegrees
                           positionXYZ (Some sh)
        = Some (<[g_ModelName := modelView]> sh) ∧
        v4w (col3 modelView) = Finite 1 ∧
        ((number (v3x scaleXYZ) → v4w (col0 modelView) = Finite 0) ∧
         (number (v3y scaleXYZ) → v4w (col1 modelView) = Finite 0) ∧
         (number (v3z scaleXYZ) → v4w (col2 modelView) = Finite 0)) ∧
        ((v3x scaleXYZ = Finite 0 → col0 modelView = zero4) ∧
         (v3y scaleXYZ = Finite 0 → col1 modelView = zero4) ∧
         (v3z scaleXYZ = Finite 0 → col2 modelView = zero4)) ∧
        ((v3x scaleXYZ = NotFinite → col0 modelView = not_finite) ∧
         (v3y scaleXYZ = NotFinite → col1 modelView = not_finite) ∧
         (v3z scaleXYZ = NotFinite → col2 modelView = not_finite)).
Proof.
  intros A HA s rx ry rz p sh Hrx Hry Hrz Hpx Hpy Hpz.
  eexists. split; [reflexivity |].
  destruct (rotations_affine rx ry rz p Hrx Hry Hrz Hpx Hpy Hpz) as [Haff Hcol].
  cbv zeta in Haff, Hcol.
  set (m := mul (mul (mul _ _) _) _) in *.
  destruct (scaled_column 18 m (col0 mat4_1) (v3x s) Haff ltac:(auto)) as (Hx1 & Hx2 & Hx3).
  destruct (scaled_column 18 m (col1 mat4_1) (v3y s) Haff ltac:(auto)) as (Hy1 & Hy2 & Hy3).
  destruct (scaled_column 18 m (col2 mat4_1) (v3z s) Haff ltac:(auto)) as (Hz1 & Hz2 & Hz3).
  split.
  { rewrite (mul_last_column 18 m (scale s) Haff (scale_last_column s)), Hcol. reflexivity. }
  split; [split; [exact Hx1 | split; [exact Hy1 | exact Hz1]] |].
  split; [split; [exact Hx2 | split; [exact Hy2 | exact Hz2]] |].
  split; [exact Hx3 | split; [exact Hy3 | exact Hz3]].
Qed.

Lemma model_matrix_columns_witness :
  ∃ modelView,
    SetTransformations (A := grid) (mkVec3 (Finite 0) (Finite 2) NotFinite)
      (Finite 90) (Finite 0) (Finite 45) (mkVec3 (Finite 1) (Finite 0) (Finite (-1)))
      (Some ∅)
    = Some (<[g_ModelName := modelView]> ∅) ∧
    col0 modelView = zero4 ∧
    v4w (col1 modelView) = Finite 0 ∧
    col2 modelView = not_finite.
Proof.
  destruct (model_matrix_columns grid grid_IEEE
              (mkVec3 (Finite 0) (Finite 2) NotFinite) (Finite 90) (Finite 0) (Finite 45)
              (mkVec3 (Finite 1) (Finite 0) (Finite (-1))) ∅
              ltac:(apply grid_number; vm_compute; discriminate)
              ltac:(apply grid_number; vm_compute; discriminate)
              ltac:(apply grid_number; vm_compute; discriminate)
              ltac:(apply grid_number; vm_compute; discriminate)
              ltac:(apply grid_number; vm_compute; discriminate)
              ltac:(apply grid_number; vm_compute; discriminate))
    as (m & Hrun & _ & (_ & Hy & _) & (Hx & _) & (_ & _ & Hz)).
  exists m. split; [exact Hrun |].
  split; [apply Hx; reflexivity |].
  split; [apply Hy; apply grid_number; vm_compute; discriminate |].
  apply Hz. reflexivity.
Defined.

End ModelShape.

(** ** RenderScene *)

Lemma slot_of_tag_registered s t :
  slot_or_sentinel (findSlot (registered s) t) = slot_of_tag (tag <$> registered s) t.
Proof. unfold slot_of_tag. rewrite findSlot_via_tags. reflexivity. Qed.

Lemma describes_nothing sh : describes no_draw_state sh.
Proof. repeat split; intros; discriminate. Qed.

Ltac lookup_inserts :=
  unfold pushed_material;
  unfold setMat4Value, setVec4Value, setIntValue, setSampler2DValue, setVec2Value,
         setVec3Value, setFloatValue;
  repeat first [ rewrite lookup_insert_eq
               | rewrite lookup_insert_ne by discriminate ].

(** A statement that is not a draw: the uniform store it leaves holds the
    draw state [draw_state_step] computes. *)
Lemma exec_call_spec indet l s p sh σ :
  wf (scene (world p)) →
  m_pShaderManager (scene (world p)) = Some sh →
  describes σ sh →
  (∀ k, s ≠ Draw k) →
  ∃ sh1,
    exec_statement indet l s p
    = Ok (locals_step l s, mkProgram (with_store sh1 (world p)) (m_basicMeshes p)) ∧
    describes (draw_state_step (tag <$> registered (scene (world p)))
                               (m_objectMaterials (scene (world p))) l σ s) sh1.
Proof.
  intros Hwf Hsh Hσ Hnd.
  assert (Hsame : mkProgram (with_store sh (world p)) (m_basicMeshes p) = p)
    by (rewrite with_store_same by exact Hsh; destruct p; reflexivity).
  pose proof Hσ as (H1 & H2 & H3 & H4 & H5).
  destruct s as [v | d | d | d | v | | r g b a | u v | t | t | k];
    cbn [exec_statement locals_step draw_state_step].
  1-5: exists sh; rewrite Hsame; split; [reflexivity | exact Hσ].
  - eexists. split.
    + unfold in_world, mbind, M_bind, mret, M_ret.
      rewrite (SetTransformations_spec _ _ _ _ _ (world p) sh Hsh). reflexivity.
    + unfold describes. cbn [ds_transform ds_mode ds_uv ds_material].
      split; [intros l0 E; inversion E; subst; lookup_inserts; reflexivity |].
      split; [intros c E; lookup_inserts; exact (H2 c E) |].
      split; [intros i E; lookup_inserts; exact (H3 i E) |].
      split; [intros uv E; lookup_inserts; exact (H4 uv E) |].
      intros e E; lookup_inserts; exact (H5 e E).
  - eexists. split.
    + unfold in_world, mbind, M_bind, mret, M_ret.
      rewrite (SetShaderColor_spec r g b a (world p) sh Hsh). reflexivity.
    + unfold describes. cbn [ds_transform ds_mode ds_uv ds_material].
      split; [intros l0 E; lookup_inserts; exact (H1 l0 E) |].
      split; [intros c E; inversion E; subst; lookup_inserts; split; reflexivity |].
      split; [intros i E; discriminate |].
      split; [intros uv E; lookup_inserts; exact (H4 uv E) |].
      intros e E; lookup_inserts; exact (H5 e E).
  - eexists. split.
    + unfold in_world, mbind, M_bind, mret, M_ret.
      rewrite (SetTextureUVScale_spec u v (world p) sh Hsh). reflexivity.
    + unfold describes. cbn [ds_transform ds_mode ds_uv ds_material].
      split; [intros l0 E; lookup_inserts; exact (H1 l0 E) |].
      split; [intros c E; lookup_inserts; exact (H2 c E) |].
      split; [intros i E; lookup_inserts; exact (H3 i E) |].
      split; [intros uv E; inversion E; subst; lookup_inserts; reflexivity |].
      intros e E; lookup_inserts; exact (H5 e E).
  - eexists. split.
    + unfold in_world, mbind, M_bind, mret, M_ret.
      rewrite (SetShaderTexture_spec t (world p) sh Hwf Hsh). reflexivity.
    + unfold describes. cbn [ds_transform ds_mode ds_uv ds_material].
      split; [intros l0 E; lookup_inserts; exact (H1 l0 E) |].
      split; [intros c E; discriminate |].
      split; [intros i E; inversion E; subst; lookup_inserts;
              rewrite slot_of_tag_registered; split; reflexivity |].
      split; [intros uv E; lookup_inserts; exact (H4 uv E) |].
      intros e E; lookup_inserts; exact (H5 e E).
  - destruct (m_objectMaterials (scene (world p))) as [| e0 ms] eqn:Ecat.
    + exists sh. split.
      * unfold in_world, mbind, M_bind, mret, M_ret.
        rewrite SetShaderMaterial_empty by exact Ecat. rewrite Hsame.
        destruct p; reflexivity.
      * exact Hσ.
    + eexists. split.
      * unfold in_world, mbind, M_bind, mret, M_ret.
        rewrite (SetShaderMaterial_spec indet t (world p) sh Hsh)
          by (rewrite Ecat; discriminate).
        reflexivity.
      * unfold describes. cbn [ds_transform ds_mode ds_uv ds_material].
        rewrite Ecat.
        split; [intros l0 E; lookup_inserts; exact (H1 l0 E) |].
        split; [intros c E; lookup_inserts; exact (H2 c E) |].
        split; [intros i E; lookup_inserts; exact (H3 i E) |].
        split; [intros uv E; lookup_inserts; exact (H4 uv E) |].
        intros e E. rewrite E. lookup_inserts. repeat split.
  - exfalso. exact (Hnd k eq_refl).
Qed.

Lemma exec_draw indet l k p :
  exec_statement indet l (Draw k) p
  = Ok (l, mkProgram (world p)
             (mkShapeMeshes (loaded_meshes (m_basicMeshes p))
                (draw_calls (m_basicMeshes p)
                 ++ [mkDrawCall k (m_pShaderManager (scene (world p)))]))).
Proof. reflexivity. Qed.

(** The draws of a statement sequence are the expected ones, each made with
    a uniform store that holds its draw state. *)
Lemma exec_statements_draws indet body :
  ∀ n l p sh σ,
    wf (scene (world p)) →
    m_pShaderManager (scene (world p)) = Some sh →
    describes σ sh →
    ∃ l' sh' new,
      exec_statements indet n l body p
      = Ok (l', mkProgram (with_store sh' (world p))
                  (mkShapeMeshes (loaded_meshes (m_basicMeshes p))
                                 (draw_calls (m_basicMeshes p) ++ new))) ∧
      Forall2 (λ d x, dc_mesh d = x.1 ∧ ∃ shd, dc_uniforms d = Some shd ∧ describes x.2 shd)
              new
              (expected_draws (tag <$> registered (scene (world p)))
                              (m_objectMaterials (scene (world p))) l σ body).
Proof.
  induction body as [| s body IH]; intros n l p sh σ Hwf Hsh Hσ.
  - exists l, sh, []. split; [| constructor].
    cbn [exec_statements]. rewrite app_nil_r, with_store_same by exact Hsh.
    destruct p as [w [lm dc]]. reflexivity.
  - cbn [exec_statements]. unfold mbind, M_bind.
    assert (Hdec : (∃ k, s = Draw k) ∨ ¬ (∃ k, s = Draw k))
      by (destruct s; try (right; intros [k E]; discriminate); left; eauto).
    destruct Hdec as [[k ->] | Hnd].
    + rewrite exec_draw.
      set (p1 := mkProgram _ _).
      destruct (IH (S n) l p1 sh σ Hwf Hsh Hσ) as (l' & sh' & new & Hrun & Hall).
      exists l', sh', (mkDrawCall k (Some sh) :: new). split.
      * rewrite Hrun. unfold p1. cbn [world m_basicMeshes loaded_meshes draw_calls].
        rewrite <- app_assoc, Hsh. reflexivity.
      * cbn [expected_draws]. constructor; [| exact Hall].
        split; [reflexivity |]. exists sh. split; [reflexivity | exact Hσ].
    + assert (Hnd' : ∀ k, s ≠ Draw k) by (intros k E; apply Hnd; eauto).
      destruct (exec_call_spec (indet n) l s p sh σ Hwf Hsh Hσ Hnd') as [sh1 [Hrun1 Hσ1]].
      rewrite Hrun1.
      set (p1 := mkProgram (with_store sh1 (world p)) (m_basicMeshes p)).
      destruct (IH (S n) (locals_step l s) p1 sh1 _ Hwf eq_refl Hσ1)
        as (l' & sh' & new & Hrun & Hall).
      exists l', sh', new. split.
      * rewrite Hrun. reflexivity.
      * replace (expected_draws _ _ l σ (s :: body))
          with (expected_draws (tag <$> registered (scene (world p)))
                  (m_objectMaterials (scene (world p))) (locals_step l s)
                  (draw_state_step (tag <$> registered (scene (world p)))
                     (m_objectMaterials (scene (world p))) l σ s) body).
        { exact Hall. }
        destruct s; try reflexivity. exfalso. exact (Hnd' _ eq_refl).
Qed.

Lemma expected_draws_meshes tags catalog body :
  ∀ l σ, (fst <$> expected_draws tags catalog l σ body) = draws_of body.
Proof.
  induction body as [| s body IH]; intros l σ; [reflexivity |].
  destruct s; cbn [expected_draws draws_of]; try apply IH.
  rewrite fmap_cons. f_equal. apply IH.
Qed.

Lemma lookup_material_elem catalog t e :
  lookup_material catalog t = Some e → e ∈ catalog.
Proof.
  intros H. apply lookup_material_Some in H as [i [Hi _]].
  exact (list_elem_of_lookup_2 _ _ _ Hi).
Qed.

Lemma expected_material_in tags catalog body :
  ∀ l σ,
    (∀ e, ds_material σ = Some e → e ∈ catalog) →
    Forall (λ x : Mesh * DrawState, ∀ e, ds_material x.2 = Some e → e ∈ catalog)
           (expected_draws tags catalog l σ body).
Proof.
  induction body as [| s body IH]; intros l σ Hσ; [constructor |].
  destruct s; cbn [expected_draws]; try (apply IH; exact Hσ).
  - apply IH. cbn [draw_state_step]. destruct catalog as [| e0 ms]; [exact Hσ |].
    cbn [ds_material]. intros e. apply lookup_material_elem.
  - constructor; [exact Hσ | apply IH; exact Hσ].
Qed.

Lemma drawn_meshes (new : list DrawCall) (expected : list (Mesh * DrawState)) :
  Forall2 (λ d x, dc_mesh d = x.1 ∧ ∃ shd, dc_uniforms d = Some shd ∧ describes x.2 shd)
          new expected →
  dc_mesh <$> new = fst <$> expected.
Proof.
  induction 1 as [| d x new expected [Hm _] _ IH]; [reflexivity |].
  rewrite !fmap_cons, IH, Hm. reflexivity.
Qed.

Lemma ready_draw n catalog d x :
  dc_mesh d = x.1 →
  (∃ shd, dc_uniforms d = Some shd ∧ describes x.2 shd) →
  draw_ready n x = true →
  (∀ e, ds_material x.2 = Some e → e ∈ catalog) →
  good_draw n catalog d.
Proof.
  intros Hm (shd & Hu & H1 & H2 & H3 & _ & H5) Hready Hin.
  unfold draw_ready in Hready.
  apply andb_true_iff in Hready as [Hready Hmat].
  apply andb_true_iff in Hready as [Hready Hmode].
  apply andb_true_iff in Hready as [Hmesh Htr].
  apply bool_decide_eq_true in Hmesh. apply bool_decide_eq_true in Htr.
  split; [rewrite Hm; exact Hmesh |].
  exists shd. split; [exact Hu |].
  split.
  { destruct Htr as [l Hl]. eexists. exact (H1 l Hl). }
  split.
  - destruct (ds_mode x.2) as [[c | i] |] eqn:Emode; [| | discriminate].
    + right. destruct (H2 c eq_refl) as [Ha Hb]. split; [exact Ha |]. exists c. exact Hb.
    + left. destruct (H3 i eq_refl) as [Ha Hb]. split; [exact Ha |]. exists i.
      split; [exact Hb |]. apply andb_true_iff in Hmode as [Hlo Hhi].
      apply Z.leb_le in Hlo. apply Z.ltb_lt in Hhi. lia.
  - destruct (ds_material x.2) as [e |] eqn:Emat; [| discriminate].
    exists e. split; [apply Hin; reflexivity |]. exact (H5 e eq_refl).
Qed.

Lemma draw_flag n d x :
  (∃ shd, dc_uniforms d = Some shd ∧ describes x.2 shd) →
  draw_ready n x = true →
  ∃ shd, dc_uniforms d = Some shd ∧
         shd !! g_UseTextureName = Some (UInt (if is_textured x then 1 else 0)).
Proof.
  intros (shd & Hu & _ & H2 & H3 & _) Hready. exists shd. split; [exact Hu |].
  unfold draw_ready in Hready.
  apply andb_true_iff in Hready as [Hready _].
  apply andb_true_iff in Hready as [_ Hmode].
  unfold is_textured.
  destruct (ds_mode x.2) as [[c | i] |] eqn:Emode; [| | discriminate].
  - exact (proj1 (H2 c eq_refl)).
  - exact (proj1 (H3 i eq_refl)).
Qed.

(** The first five statements of [RenderScene] assign the five locals. *)
Lemma RenderScene_first_assignments scale0 position0 indet p :
  exec_statements indet 0 (render_locals scale0 position0) RenderScene_body p
  = exec_statements indet 5 (mkLocals (mkVec3 25 1 10) 0 0 0 (mkVec3 0 0 0))
                    (drop 5 RenderScene_body) p.
Proof.
  change RenderScene_body
    with (AssignScale (mkVec3 25 1 10) :: AssignXrotation 0 :: AssignYrotation 0
          :: AssignZrotation 0 :: AssignPosition (mkVec3 0 0 0)
          :: drop 5 RenderScene_body) at 1.
  reflexivity.
Qed.

Lemma exec_statements_indet indet indet' body :
  ∀ n n' l p sh,
    wf (scene (world p)) →
    m_pShaderManager (scene (world p)) = Some sh →
    materials_found (m_objectMaterials (scene (world p))) body = true →
    exec_statements indet n l body p = exec_statements indet' n' l body p.
Proof.
  induction body as [| s body IH]; intros n n' l p sh Hwf Hsh Hfound; [reflexivity |].
  cbn [exec_statements]. unfold mbind, M_bind.
  unfold materials_found in Hfound. cbn [forallb] in Hfound.
  apply andb_true_iff in Hfound as [Hs Hfound].
  assert (Hdec : (∃ k, s = Draw k) ∨ ∀ k, s ≠ Draw k)
    by (destruct s; try (right; intros; discriminate); left; eauto).
  destruct Hdec as [[k ->] | Hnd].
  - rewrite !exec_draw. apply (IH _ _ _ _ sh); [exact Hwf | exact Hsh | exact Hfound].
  - assert (Hsame : exec_statement (indet n) l s p = exec_statement (indet' n') l s p).
    { destruct s; try reflexivity.
      cbn [exec_statement]. unfold in_world, mbind, M_bind.
      destruct (lookup_material (m_objectMaterials (scene (world p))) materialTag)
        as [e |] eqn:E; [| discriminate].
      rewrite (SetShaderMaterial_found (indet n) (indet' n') _ _ e E). reflexivity. }
    rewrite <- Hsame.
    destruct (exec_call_spec (indet n) l s p sh no_draw_state Hwf Hsh
                (describes_nothing sh) Hnd) as [sh1 [Hrun _]].
    rewrite Hrun.
    apply (IH _ _ _ _ sh1); [exact Hwf | reflexivity | exact Hfound].
Qed.

(** ** RenderScene under a null shader manager *)

Lemma exec_statement_null indet l s p :
  m_pShaderManager (scene (world p)) = None →
  sets_material s = false ∨ m_objectMaterials (scene (world p)) = [] →
  exec_statement indet l s p
  = Ok (locals_step l s,
        mkProgram (world p)
          (mkShapeMeshes (loaded_meshes (m_basicMeshes p))
                         (draw_calls (m_basicMeshes p) ++ (blind_draw <$> draws_of [s])))).
Proof.
  intros Hsh Hs.
  assert (Hsame : ∀ l' : Locals,
             (Ok (l', mkProgram (world p) (m_basicMeshes p)) : result (Locals * Program))
             = Ok (l', mkProgram (world p)
                         (mkShapeMeshes (loaded_meshes (m_basicMeshes p))
                                        (draw_calls (m_basicMeshes p) ++ [])))).
  { intros l'. rewrite app_nil_r. destruct p as [w [lm dc]]. reflexivity. }
  destruct s; cbn [exec_statement locals_step draws_of fmap list_fmap];
    unfold in_world, mbind, M_bind, mret, M_ret.
  1-5: destruct p as [w [lm dc]]; cbn; rewrite app_nil_r; reflexivity.
  - replace (SetTransformations _ _ _ _ _ (world p)) with (Ok (tt, world p) : result (unit * World)).
    + apply Hsame.
    + unfold SetTransformations, has_shader. unfold_monad. rewrite Hsh. reflexivity.
  - rewrite SetShaderColor_null by exact Hsh. apply Hsame.
  - replace (SetTextureUVScale _ _ (world p)) with (Ok (tt, world p) : result (unit * World)).
    + apply Hsame.
    + unfold SetTextureUVScale, has_shader. unfold_monad. rewrite Hsh. reflexivity.
  - rewrite SetShaderTexture_null by exact Hsh. apply Hsame.
  - destruct Hs as [Hs | Hs]; [discriminate |].
    rewrite SetShaderMaterial_empty by exact Hs. apply Hsame.
  - unfold DrawMesh, modify. rewrite Hsh. reflexivity.
Qed.

Lemma exec_statements_null_empty indet body :
  ∀ n l p,
    m_pShaderManager (scene (world p)) = None →
    m_objectMaterials (scene (world p)) = [] →
    ∃ l',
      exec_statements indet n l body p
      = Ok (l', mkProgram (world p)
                  (mkShapeMeshes (loaded_meshes (m_basicMeshes p))
                     (draw_calls (m_basicMeshes p) ++ (blind_draw <$> draws_of body)))).
Proof.
  induction body as [| s body IH]; intros n l p Hsh Hcat.
  - exists l. cbn [exec_statements draws_of fmap list_fmap]. rewrite app_nil_r.
    destruct p as [w [lm dc]]. reflexivity.
  - cbn [exec_statements]. unfold mbind, M_bind.
    rewrite (exec_statement_null _ l s p Hsh (or_intror Hcat)).
    set (p1 := mkProgram _ _).
    destruct (IH (S n) (locals_step l s) p1 Hsh Hcat) as [l' Hrun].
    exists l'. rewrite Hrun. unfold p1.
    cbn [world m_basicMeshes loaded_meshes draw_calls].
    rewrite <- app_assoc, <- fmap_app.
    replace (draws_of [s] ++ draws_of body) with (draws_of (s :: body))
      by (destruct s; reflexivity).
    reflexivity.
Qed.

Lemma exec_statements_null_fault indet body :
  ∀ n l p,
    m_pShaderManager (scene (world p)) = None →
    m_objectMaterials (scene (world p)) ≠ [] →
    existsb sets_material body = true →
    exec_statements indet n l body p = Fault NullDereference.
Proof.
  induction body as [| s body IH]; intros n l p Hsh Hcat Hex; [discriminate |].
  cbn [exec_statements]. unfold mbind, M_bind.
  cbn [existsb] in Hex.
  destruct (sets_material s) eqn:Es.
  - destruct s; try discriminate.
    cbn [exec_statement]. unfold in_world, mbind, M_bind.
    rewrite SetShaderMaterial_null by assumption. reflexivity.
  - rewrite (exec_statement_null _ l s p Hsh (or_introl Es)).
    apply IH; [exact Hsh | exact Hcat | exact Hex].
Qed.

(** X15.  [RenderScene] under a null shader manager.  On a non-empty catalogue the
    first [SetShaderMaterial] dereferences the null pointer.  On an empty
    catalogue every binder call returns without effect: the 52 draws are
    issued with no uniform store behind them and nothing else changes. *)
Theorem render_null_shader :
  ∀ (p : Program) (scale0 position0 : vec3) (indeterminate : nat → OBJECT_MATERIAL),
    m_pShaderManager (scene (world p)) = None →
    (m_objectMaterials (scene (world p)) ≠ [] →
     RenderScene scale0 position0 indeterminate p = Fault NullDereference) ∧
    (m_objectMaterials (scene (world p)) = [] →
     RenderScene scale0 position0 indeterminate p
     = Ok (tt, mkProgram (world p)
                 (mkShapeMeshes (loaded_meshes (m_basicMeshes p))
                    (draw_calls (m_basicMeshes p)
                     ++ (blind_draw <$> draws_of RenderScene_body))))) ∧
    length (draws_of RenderScene_body) = 52%nat.
Proof.
  intros p scale0 position0 indet Hsh.
  split; [| split].
  - intros Hcat. unfold RenderScene, mbind, M_bind.
    rewrite exec_statements_null_fault; [reflexivity | exact Hsh | exact Hcat |].
    vm_compute. reflexivity.
  - intros Hcat. unfold RenderScene, mbind, M_bind.
    destruct (exec_statements_null_empty indet RenderScene_body 0%nat
                (mkLocals scale0 0 0 0 position0) p Hsh Hcat) as [l' Hrun].
    rewrite Hrun. reflexivity.
  - vm_compute. reflexivity.
Qed.

Lemma render_null_shader_witness :
  RenderScene (mkVec3 1 1 1) (mkVec3 0 0 0) (λ _, zero_material) unlit_program
  = Fault NullDereference ∧
  ∃ p', RenderScene (mkVec3 1 1 1) (mkVec3 0 0 0) (λ _, zero_material) (empty_program None)
        = Ok (tt, p') ∧
        length (draw_calls (m_basicMeshes p')) = 52%nat.
Proof.
  split.
  - refine (proj1 (render_null_shader unlit_program _ _ _ _) _).
    + vm_compute. reflexivity.
    + vm_compute. discriminate.
  - destruct (render_null_shader (empty_program None) (mkVec3 1 1 1) (mkVec3 0 0 0)
                (λ _, zero_material) eq_refl) as (_ & H & Hlen).
    eexists. split; [exact (H eq_refl) |].
    cbn [m_basicMeshes draw_calls empty_program app].
    rewrite length_fmap. exact Hlen.
Defined.

(** ** RenderScene with a shader manager *)

Lemma RenderScene_draws scale0 position0 indet p sh :
  wf (scene (world p)) →
  m_pShaderManager (scene (world p)) = Some sh →
  ∃ sh' new,
    RenderScene scale0 position0 indet p
    = Ok (tt, mkProgram (with_store sh' (world p))
                (mkShapeMeshes (loaded_meshes (m_basicMeshes p))
                               (draw_calls (m_basicMeshes p) ++ new))) ∧
    Forall2 (λ d x, dc_mesh d = x.1 ∧ ∃ shd, dc_uniforms d = Some shd ∧ describes x.2 shd)
            new
            (expected_draws (tag <$> registered (scene (world p)))
                            (m_objectMaterials (scene (world p)))
                            (render_locals scale0 position0) no_draw_state
                            RenderScene_body).
Proof.
  intros Hwf Hsh.
  destruct (exec_statements_draws indet RenderScene_body 0%nat
              (render_locals scale0 position0) p sh no_draw_state Hwf Hsh
              (describes_nothing sh)) as (l' & sh' & new & Hrun & Hall).
  exists sh', new. split; [| exact Hall].
  unfold RenderScene, mbind, M_bind.
  change (mkLocals scale0 0 0 0 position0) with (render_locals scale0 position0).
  rewrite Hrun. reflexivity.
Qed.

Lemma RenderScene_draw_count (new : list DrawCall) tags catalog l σ :
  Forall2 (λ d x, dc_mesh d = x.1 ∧ ∃ shd, dc_uniforms d = Some shd ∧ describes x.2 shd)
          new (expected_draws tags catalog l σ RenderScene_body) →
  dc_mesh <$> new = draws_of RenderScene_body ∧ length new = 52%nat.
Proof.
  intros Hall. apply drawn_meshes in Hall. rewrite expected_draws_meshes in Hall.
  split; [exact Hall |].
  rewrite <- (length_fmap dc_mesh), Hall. vm_compute. reflexivity.
Qed.

(** X16.  [RenderScene] with a shader manager attached, on any well-formed
    registry and any catalogue, whatever the textures and materials that
    are missing: it returns, it leaves the GL context, the registry, the
    catalogue and the loaded meshes as they are, and it issues the 52 draws
    of its body in source order, each with the uniform store behind it. *)
Theorem render_scene_returns :
  ∀ (p : Program) (scale0 position0 : vec3) (indeterminate : nat → OBJECT_MATERIAL),
    wf (scene (world p)) →
    is_Some (m_pShaderManager (scene (world p))) →
    ∃ sh' new,
      RenderScene scale0 position0 indeterminate p
      = Ok (tt, mkProgram (with_store sh' (world p))
                  (mkShapeMeshes (loaded_meshes (m_basicMeshes p))
                                 (draw_calls (m_basicMeshes p) ++ new))) ∧
      dc_mesh <$> new = draws_of RenderScene_body ∧
      length new = 52%nat ∧
      Forall (λ d, is_Some (dc_uniforms d)) new.
Proof.
  intros p scale0 position0 indet Hwf [sh Hsh].
  destruct (RenderScene_draws scale0 position0 indet p sh Hwf Hsh)
    as (sh' & new & Hrun & Hall).
  exists sh', new. split; [exact Hrun |].
  destruct (RenderScene_draw_count _ _ _ _ _ Hall) as [Hm Hlen].
  split; [exact Hm |]. split; [exact Hlen |].
  apply Forall_lookup. intros i d Hd.
  destruct (Forall2_lookup_l _ _ _ _ _ Hall Hd) as (x & _ & _ & shd & Hu & _).
  rewrite Hu. eexists. reflexivity.
Qed.

Lemma render_scene_returns_witness :
  ∃ p', RenderScene (mkVec3 1 1 1) (mkVec3 0 0 0) (λ _, zero_material)
                    (empty_program (Some ∅))
        = Ok (tt, p') ∧
        length (draw_calls (m_basicMeshes p')) = 52%nat.
Proof.
  destruct (render_scene_returns (empty_program (Some ∅)) (mkVec3 1 1 1) (mkVec3 0 0 0)
              (λ _, zero_material)
              ltac:(split; [vm_compute; reflexivity | split; vm_compute; discriminate])
              ltac:(eexists; reflexivity))
    as (sh' & new & Hrun & _ & Hlen & _).
  eexists. split; [exact Hrun |].
  exact Hlen.
Defined.

(** X17.  [RenderScene] on the scene [PrepareScene] leaves when every texture file
    loads: the registry holds the eleven tags in call order and the catalogue
    the seven materials.  Each of the 52 draws is made with the model matrix
    set, with the material of a catalogue entry, and either textured from a
    slot of the registry or in flat colour; the sixth draw is the only one
    in flat colour.  The contents of the uninitialised locals [scaleXYZ] and
    [positionXYZ] and of the uninitialised [material] of [SetShaderMaterial]
    never reach the result. *)
Theorem render_after_prepare :
  ∀ (p : Program) (scale0 position0 : vec3) (indeterminate : nat → OBJECT_MATERIAL),
    wf (scene (world p)) →
    is_Some (m_pShaderManager (scene (world p))) →
    tag <$> registered (scene (world p)) = snd <$> scene_textures →
    m_objectMaterials (scene (world p)) = scene_materials →
    ∃ sh' new,
      RenderScene scale0 position0 indeterminate p
      = Ok (tt, mkProgram (with_store sh' (world p))
                  (mkShapeMeshes (loaded_meshes (m_basicMeshes p))
                                 (draw_calls (m_basicMeshes p) ++ new))) ∧
      length new = 52%nat ∧
      Forall (good_draw 11 scene_materials) new ∧
      (∀ i d, new !! i = Some d →
         ∃ shd, dc_uniforms d = Some shd ∧
                shd !! g_UseTextureName
                = Some (UInt (if decide (i = 5%nat) then 0 else 1))) ∧
      (∀ scale0' position0' indeterminate',
         RenderScene scale0' position0' indeterminate' p
         = RenderScene scale0 position0 indeterminate p).
Proof.
  intros p scale0 position0 indet Hwf [sh Hsh] Htags Hcat.
  destruct (RenderScene_draws scale0 position0 indet p sh Hwf Hsh)
    as (sh' & new & Hrun & Hall).
  exists sh', new. split; [exact Hrun |].
  destruct (RenderScene_draw_count _ _ _ _ _ Hall) as [_ Hlen].
  split; [exact Hlen |].
  rewrite Htags, Hcat in Hall.
  assert (Hready : forallb (draw_ready 11)
                     (expected_draws (snd <$> scene_textures) scene_materials
                        (render_locals scale0 position0) no_draw_state RenderScene_body)
                   = true) by (vm_compute; reflexivity).
  assert (Hflags : is_textured <$>
                     expected_draws (snd <$> scene_textures) scene_materials
                       (render_locals scale0 position0) no_draw_state RenderScene_body
                   = render_flags) by (vm_compute; reflexivity).
  pose proof (expected_material_in (snd <$> scene_textures) scene_materials
                RenderScene_body (render_locals scale0 position0) no_draw_state
                ltac:(intros e E; discriminate)) as Hin.
  set (expected := expected_draws _ _ _ _ _) in *.
  assert (Hx : ∀ i x, expected !! i = Some x → draw_ready 11 x = true).
  { intros i x Hix. apply (proj1 (forallb_forall _ _) Hready).
    apply list_elem_of_In. exact (list_elem_of_lookup_2 _ _ _ Hix). }
  split; [| split].
  - apply Forall_lookup. intros i d Hd.
    destruct (Forall2_lookup_l _ _ _ _ _ Hall Hd) as (x & Hix & Hm & Hdesc).
    apply (ready_draw 11 scene_materials d x Hm Hdesc (Hx i x Hix)).
    exact (proj1 (Forall_lookup _ _) Hin i x Hix).
  - intros i d Hd.
    destruct (Forall2_lookup_l _ _ _ _ _ Hall Hd) as (x & Hix & _ & Hdesc).
    destruct (draw_flag 11 d x Hdesc (Hx i x Hix)) as (shd & Hu & Hflag).
    exists shd. split; [exact Hu |]. rewrite Hflag.
    assert (Hi : render_flags !! i = Some (is_textured x))
      by (rewrite <- Hflags, list_lookup_fmap, Hix; reflexivity).
    unfold render_flags in Hi. rewrite list_lookup_fmap in Hi.
    destruct (seq 0 52 !! i) as [j |] eqn:Ej; [| discriminate].
    apply lookup_seq in Ej as [-> _]. cbn [fmap option_fmap option_map] in Hi.
    injection Hi as Hi. rewrite <- Hi. cbn [Nat.add].
    destruct (decide (i = 5%nat)) as [-> | Hne]; [reflexivity |].
    apply Nat.eqb_neq in Hne. rewrite Hne. reflexivity.
  - intros scale0' position0' indet'. unfold RenderScene, mbind, M_bind.
    change (mkLocals scale0' 0 0 0 position0') with (render_locals scale0' position0').
    change (mkLocals scale0 0 0 0 position0) with (render_locals scale0 position0).
    rewrite !RenderScene_first_assignments.
    rewrite (exec_statements_indet indet' indet (drop 5 RenderScene_body) 5 5 _ p sh Hwf Hsh);
      [reflexivity |].
    rewrite Hcat. vm_compute. reflexivity.
Qed.

Lemma render_after_prepare_witness :
  ∃ p', RenderScene (mkVec3 1 1 1) (mkVec3 0 0 0) (λ _, zero_material) prepared_program
        = Ok (tt, p') ∧
        Forall (good_draw 11 scene_materials) (draw_calls (m_basicMeshes p')).
Proof.
  destruct (render_after_prepare prepared_program (mkVec3 1 1 1) (mkVec3 0 0 0)
              (λ _, zero_material)
              ltac:(split; [vm_compute; reflexivity | split; vm_compute; discriminate])
              ltac:(apply (bool_decide_eq_true_1 _); vm_compute; reflexivity)
              ltac:(vm_compute; reflexivity)
              ltac:(vm_compute; reflexivity))
    as (sh' & new & Hrun & _ & Hgood & _).
  eexists. split; [exact Hrun |].
  exact Hgood.
Defined.
